(** * gitjoin: a shallow embedding of [internal/lib] and its properties

    The development follows the Go sources [internal/lib/types.go],
    [internal/lib/git.go] and [internal/lib/sync.go].  The file
    [sync.go] carries two listings of the synchroniser: a first one that
    hands every repository to a worker pool ([processRepo]) and maintains
    the managed block of [.gitignore], and a second one that walks the
    expected repositories in a plain loop and collects warnings.  They
    are embedded as the modules [Pool] and [Seq]. *)

From Stdlib Require Import ZArith Lia Ascii String DecimalString DecimalNat.
From stdpp Require Import base option list gmap sets strings sorting.

#[local] Set Warnings "-register-all,-clear-no-such-hyp".
Local Open Scope Z_scope.
Local Open Scope nat_scope.

(** ** Go strings

    A Go string is a sequence of bytes; it is embedded as [string],
    whose characters are the 256 byte values.  The functions below are the
    ones of package [strings] that the sources call. *)

Module GoStrings.

Definition LF : string := String "010"%char EmptyString.

Abbreviation len := String.length.

(** [s[:n]] and [s[n:]]; the sources only slice within bounds. *)
Fixpoint sliceTo (n : nat) (s : string) : string :=
  match n, s with
  | S n', String c s' => String c (sliceTo n' s')
  | _, _ => EmptyString
  end.

Fixpoint sliceFrom (n : nat) (s : string) : string :=
  match n, s with
  | S n', String _ s' => sliceFrom n' s'
  | _, _ => s
  end.

(** [s[i]] for [i] in range. *)
Definition byteAt (s : string) (i : nat) : option ascii := String.get i s.

Fixpoint HasPrefix (s prefix : string) {struct prefix} : bool :=
  match prefix with
  | EmptyString => true
  | String c p =>
      match s with
      | EmptyString => false
      | String d s' => Ascii.eqb d c && HasPrefix s' p
      end
  end.

Definition HasSuffix (s suffix : string) : bool :=
  (len suffix <=? len s) && HasPrefix (sliceFrom (len s - len suffix) s) suffix.

(** Position of the first instance of [substr] in [s]. *)
Fixpoint indexNat (s substr : string) : option nat :=
  if HasPrefix s substr then Some 0
  else match s with
       | EmptyString => None
       | String _ s' => S <$> indexNat s' substr
       end.

(** [strings.Index]: the position as an [int], [-1] when absent. *)
Definition Index (s substr : string) : Z :=
  match indexNat s substr with
  | Some i => Z.of_nat i
  | None => (-1)%Z
  end.

Definition Contains (s substr : string) : bool :=
  bool_decide (0 <= Index s substr)%Z.

(** [strings.Join]. *)
Fixpoint Join (elems : list string) (sep : string) : string :=
  match elems with
  | [] => EmptyString
  | [e] => e
  | e :: rest => e +:+ sep +:+ Join rest sep
  end.

(** [strings.Count] for a non-empty [substr]: the number of
    non-overlapping instances, found from the left. *)
Fixpoint countLoop (fuel : nat) (s substr : string) : nat :=
  match fuel with
  | O => 0
  | S fuel' =>
      match indexNat s substr with
      | None => 0
      | Some i => S (countLoop fuel' (sliceFrom (i + len substr) s) substr)
      end
  end.

Definition Count (s substr : string) : nat := countLoop (S (len s)) s substr.

(** The loop of [genSplit] for a non-empty separator: at most [n]
    cuts, each at the first instance of [sep] in what is left. *)
Fixpoint genSplitLoop (n : nat) (s sep : string) : list string :=
  match n with
  | O => [s]
  | S n' =>
      match indexNat s sep with
      | None => [s]
      | Some m => sliceTo m s :: genSplitLoop n' (sliceFrom (m + len sep) s) sep
      end
  end.

(** [strings.SplitN(s, sep, n)] and [strings.Split(s, sep)] for a
    non-empty [sep]; [n < 0] means no bound. *)
Definition SplitN (s sep : string) (n : Z) : list string :=
  if (n =? 0)%Z then []
  else
    let n := (if n <? 0 then Z.of_nat (Count s sep) + 1 else n)%Z in
    let n := (if Z.of_nat (len s) + 1 <? n then Z.of_nat (len s) + 1 else n)%Z in
    genSplitLoop (Z.to_nat (n - 1)) s sep.

Definition Split (s sep : string) : list string := SplitN s sep (-1).

End GoStrings.

Import GoStrings.

(** ** [types.go] *)

(** A Go [error] is kept by its message; [nil] is [None]. *)
Definition error : Type := string.

Module Config.
Record t : Type := mk
  { Root : string;
    Force : bool;
    Quiet : bool;
    Paths : string (* glob filter (optional) *) }.
End Config.

Module RepoResult.
Record t : Type := mk { Path : string; Detail : string }.
End RepoResult.

Module SkippedRepo.
Record t : Type := mk { Path : string; Reason : string; Detail : string }.
End SkippedRepo.

Module Result.
Record t : Type := mk
  { Updated : list RepoResult.t;
    Cloned : list RepoResult.t;
    Removed : list string;
    Skipped : list SkippedRepo.t;
    Warnings : list string }.

(** The zero value of [var result Result]. *)
Definition zero : t := mk [] [] [] [] [].

Definition addUpdated (x : RepoResult.t) (r : t) : t :=
  mk (Updated r ++ [x]) (Cloned r) (Removed r) (Skipped r) (Warnings r).
Definition addCloned (x : RepoResult.t) (r : t) : t :=
  mk (Updated r) (Cloned r ++ [x]) (Removed r) (Skipped r) (Warnings r).
Definition addRemoved (x : string) (r : t) : t :=
  mk (Updated r) (Cloned r) (Removed r ++ [x]) (Skipped r) (Warnings r).
Definition addSkipped (x : SkippedRepo.t) (r : t) : t :=
  mk (Updated r) (Cloned r) (Removed r) (Skipped r ++ [x]) (Warnings r).
Definition addWarning (x : string) (r : t) : t :=
  mk (Updated r) (Cloned r) (Removed r) (Skipped r) (Warnings r ++ [x]).
End Result.

(** ** The environment of the program *)

(** Functions of the Go standard library whose definitions are not part
    of the repository.  The embedding is parametric in them. *)
Record GoLib : Type := MkGoLib
  { (** [strings.TrimSpace] *)
    strings_TrimSpace : string -> string;
    (** [bufio.Scanner] run over the content of a file: the lines returned
        by [scanner.Text()] and the final [scanner.Err()] *)
    bufio_ScanLines : string -> list string * option error;
    (** [filepath.Base] *)
    filepath_Base : string -> string;
    (** [filepath.Join] of two elements *)
    filepath_Join : string -> string -> string;
    (** [filepath.Match pattern name] *)
    filepath_Match : string -> string -> bool * option error;
    (** [filepath.Separator] *)
    filepath_Separator : ascii }.

(** The directory tree below [Cfg.Root] as [filepath.WalkDir] and
    [os.Open] see it.  A file carries its content or the error of opening
    it; a directory carries its entries in the order [os.ReadDir] lists
    them; [DirErr] is a directory that [os.ReadDir] cannot list. *)
Inductive fsnode : Type :=
  | File (name : string) (data : string + error)
  | Dir (name : string) (entries : list fsnode)
  | DirErr (name : string) (e : error).

Module FS.

Definition Name (d : fsnode) : string :=
  match d with
  | File n _ | Dir n _ | DirErr n _ => n
  end.

Definition IsDir (d : fsnode) : bool :=
  match d with
  | File _ _ => false
  | Dir _ _ | DirErr _ _ => true
  end.

(** The first entry called [n] of a directory listing. *)
Fixpoint child (n : string) (es : list fsnode) : option fsnode :=
  match es with
  | [] => None
  | e :: es' => if String.eqb (Name e) n then Some e else child n es'
  end.

(** The node reached from [d] by the path components [comps]. *)
Fixpoint lookup (comps : list string) (d : fsnode) : option fsnode :=
  match comps with
  | [] => Some d
  | c :: comps' =>
      match d with
      | Dir _ es =>
          match child c es with
          | Some e => lookup comps' e
          | None => None
          end
      | _ => None
      end
  end.

(** What a successful [os.RemoveAll] of the path [comps] below the
    root leaves: the entry and everything under it are gone; a path that
    does not exist changes nothing. *)
Fixpoint prune (comps : list string) (d : fsnode) : fsnode :=
  match comps, d with
  | [c], Dir n es => Dir n (filter (fun e => Name e <> c) es)
  | c :: comps', Dir n es =>
      Dir n (map (fun e => if String.eqb (Name e) c then prune comps' e else e) es)
  | _, _ => d
  end.

(** [node] put among [es], which [os.ReadDir] lists in the order of
    their names. *)
Fixpoint insertByName (node : fsnode) (es : list fsnode) : list fsnode :=
  match es with
  | [] => [node]
  | e :: es' =>
      if String.leb (Name node) (Name e) then node :: e :: es'
      else e :: insertByName node es'
  end.

(** The tree with [node] as the entry at [comps], in place of any
    entry of that name. *)
Fixpoint put (comps : list string) (node : fsnode) (d : fsnode) : fsnode :=
  match comps, d with
  | [c], Dir n es => Dir n (insertByName node (filter (fun e => Name e <> c) es))
  | c :: comps', Dir n es =>
      Dir n (map (fun e => if String.eqb (Name e) c then put comps' node e else e) es)
  | _, _ => d
  end.

End FS.

(** What [os.ReadFile] returns. *)
Inductive ReadOutcome : Type :=
  | ReadOk (content : string)
  | ReadNotExist (e : error)   (* an error for which [os.IsNotExist] holds *)
  | ReadErr (e : error).

(** The operating system and the [git] executable, over a type [W] of
    states of the outside world. *)
Record Host (W : Type) : Type := MkHost
  { (** [os.Getenv] *)
    Getenv : string -> W -> string;
    (** [os.Stat(path)] fails with an error satisfying [os.IsNotExist] *)
    StatNotExist : string -> W -> bool;
    (** [os.Stat(path)] succeeds on a directory *)
    StatIsDir : string -> W -> bool;
    (** [exec.Command("git", args...)] run in [dir]: the standard output,
        or the error of [cmd.Run] with the standard error output *)
    RunGit : string -> list string -> W -> (string + error * string) * W;
    (** [exec.Command("git", "clone", url, path).Run()] *)
    RunClone : string -> string -> W -> option error * W;
    (** [os.RemoveAll] *)
    RemoveAll : string -> W -> option error * W;
    (** [os.ReadFile] and [os.WriteFile] *)
    ReadFile : string -> W -> ReadOutcome;
    WriteFile : string -> string -> W -> option error * W;
    (** the tree [filepath.WalkDir] traverses from a root, or the error
        of [os.Lstat] on the root *)
    ReadTree : string -> W -> error + fsnode }.

Arguments Getenv {W}.
Arguments StatNotExist {W}.
Arguments StatIsDir {W}.
Arguments RunGit {W}.
Arguments RunClone {W}.
Arguments RemoveAll {W}.
Arguments ReadFile {W}.
Arguments WriteFile {W}.
Arguments ReadTree {W}.

(** ** State and errors

    The program state threaded through the embedding: the outside world,
    the commands issued so far, and the two objects every repository
    task shares, [result] and [existing]. *)

Inductive Event : Type :=
  | EvGit (dir : string) (args : list string)
  | EvClone (url path : string)
  | EvRemoveAll (path : string)
  | EvWriteFile (path content : string).

Record State (W : Type) : Type := MkState
  { world : W;
    trace : list Event;
    result : Result.t;
    existing : gset string }.

Arguments MkState {W}.
Arguments world {W}.
Arguments trace {W}.
Arguments result {W}.
Arguments existing {W}.

Inductive Res (E A : Type) : Type :=
  | Ok (a : A)
  | Fail (e : E).

Arguments Ok {E A}.
Arguments Fail {E A}.

(** Computations over the state that return a value or stop with an [E]. *)
Definition M (W E A : Type) : Type := State W -> Res E A * State W.

Module Monad.
Section Ops.
Context {W E : Type}.

Definition ret {A} (a : A) : M W E A := fun st => (Ok a, st).

Definition throw {A} (e : E) : M W E A := fun st => (Fail e, st).

Definition bind {A B} (m : M W E A) (k : A -> M W E B) : M W E B :=
  fun st =>
    match m st with
    | (Ok a, st') => k a st'
    | (Fail e, st') => (Fail e, st')
    end.

(** Run [m] and hand its outcome, value or error, to the caller. *)
Definition attempt {E' A} (m : M W E' A) : M W E (Res E' A) :=
  fun st => let '(r, st') := m st in (Ok r, st').

(** Read the outside world. *)
Definition observe {A} (f : W -> A) : M W E A :=
  fun st => (Ok (f (world st)), st).

(** Act on the outside world and log the action. *)
Definition perform {A} (ev : Event) (f : W -> A * W) : M W E A :=
  fun st =>
    let '(a, w') := f (world st) in
    (Ok a, MkState w' (trace st ++ [ev]) (result st) (existing st)).

Definition updResult (f : Result.t -> Result.t) : M W E unit :=
  fun st => (Ok tt, MkState (world st) (trace st) (f (result st)) (existing st)).

Definition storeExisting (k : string) : M W E unit :=
  fun st =>
    (Ok tt, MkState (world st) (trace st) (result st) ({[ k ]} ∪ existing st)).

Definition loadExisting (k : string) : M W E bool :=
  fun st => (Ok (bool_decide (k ∈ existing st)), st).

(** The declarations that open [run]: an empty [result] and an empty
    [existing]. *)
Definition freshRun : M W E unit :=
  fun st => (Ok tt, MkState (world st) (trace st) Result.zero ∅).
End Ops.
End Monad.

Import Monad.

Notation "x <- m ;; k" := (bind m (fun x => k))
  (at level 100, m at next level, right associativity).
Notation "m ;;; k" := (bind m (fun _ => k))
  (at level 100, right associativity).

(** ** [git.go] *)

(** [fmt.Sprintf("%d", n)] for a non-negative [n]. *)
Definition Sprintf_d (n : nat) : string := NilEmpty.string_of_uint (Nat.to_uint n).

Module Repo.

Record t : Type := mk { Path : string }.

Section Methods.
Context (lib : GoLib) {W : Type} (host : Host W).

(** [r.run(args...)] *)
Definition run (r : t) (args : list string) : M W error string :=
  res <- perform (EvGit (Path r) args) (RunGit host (Path r) args) ;;
  match res with
  | inl out => ret out
  | inr (err, stderr) =>
      throw ("git " +:+ Join args " " +:+ ": " +:+ err +:+ ": " +:+ stderr)
  end.

Definition IsGitRepo {E} (r : t) : M W E bool :=
  observe (StatIsDir host (filepath_Join lib (Path r) ".git")).

Definition DefaultBranch (r : t) : M W error string :=
  out <- run r ["symbolic-ref"; "refs/remotes/origin/HEAD"] ;;
  let parts := Split (strings_TrimSpace lib out) "/" in
  if length parts =? 0 then throw "could not parse default branch"
  else ret (nth (length parts - 1) parts EmptyString).

Definition CurrentBranch (r : t) : M W error string :=
  out <- run r ["branch"; "--show-current"] ;;
  ret (strings_TrimSpace lib out).

Definition HasUncommittedChanges (r : t) : M W error bool :=
  out <- run r ["status"; "--porcelain"] ;;
  ret (negb (String.eqb (strings_TrimSpace lib out) EmptyString)).

(** The three counters of [ChangesSummary] after the given lines. *)
Fixpoint countChanges (lines : list string) (modified added deleted : nat)
  : nat * nat * nat :=
  match lines with
  | [] => (modified, added, deleted)
  | line :: rest =>
      if len line <? 2 then countChanges rest modified added deleted
      else
        let status := sliceTo 2 line in
        if Contains status "M" then countChanges rest (S modified) added deleted
        else if Contains status "A" || Contains status "?"
             then countChanges rest modified (S added) deleted
        else if Contains status "D" then countChanges rest modified added (S deleted)
        else countChanges rest modified added deleted
  end.

Definition ChangesSummary {E} (r : t) : M W E string :=
  res <- attempt (run r ["status"; "--porcelain"]) ;;
  let out := match res with Ok o => o | Fail _ => EmptyString end in
  let lines := Split (strings_TrimSpace lib out) LF in
  if (length lines =? 1) && String.eqb (nth 0 lines EmptyString) EmptyString
  then ret "no changes"
  else
    let '(modified, added, deleted) := countChanges lines 0 0 0 in
    let parts := [] in
    let parts := if 0 <? modified then parts ++ [Sprintf_d modified +:+ " modified"] else parts in
    let parts := if 0 <? added then parts ++ [Sprintf_d added +:+ " added"] else parts in
    let parts := if 0 <? deleted then parts ++ [Sprintf_d deleted +:+ " deleted"] else parts in
    if length parts =? 0 then ret (Sprintf_d (length lines) +:+ " changes")
    else ret (Join parts ", ").

Definition Pull (r : t) : M W error bool :=
  headBefore <- run r ["rev-parse"; "HEAD"] ;;
  _ <- run r ["pull"] ;;
  headAfter <- run r ["rev-parse"; "HEAD"] ;;
  ret (negb (String.eqb headBefore headAfter)).

Definition Stash (r : t) : M W error unit :=
  _ <- run r ["stash"; "push"; "-m"; "gitjoin"] ;; ret tt.

Definition Unstash (r : t) : M W error unit :=
  _ <- run r ["stash"; "pop"] ;; ret tt.

Definition SwitchBranch (r : t) (branch : string) : M W error unit :=
  _ <- run r ["switch"; branch] ;; ret tt.

End Methods.
End Repo.

Section Clone.
Context {W E : Type} (host : Host W).

(** [clone(url, path, out)] *)
Definition clone (url path : string) : M W E (option error) :=
  perform (EvClone url path) (RunClone host url path).
End Clone.

(** ** [filepath.WalkDir]

    The walk of the standard library over a tree.  An entry is named by
    the list of path components that lead to it from the root.  The
    callback receives the entry (none when [os.Lstat] of the root failed)
    and the error of listing it, and answers [nil], [filepath.SkipDir] or
    an error. *)

Inductive WalkCtl : Type :=
  | WalkNil
  | WalkSkipDir
  | WalkError (e : error).

Section WalkDir.
Context {S : Type}.
Variable fn : list string -> option fsnode -> option error -> S -> WalkCtl * S.

(** The loop of [walkDir] over the entries of a directory; [walk] is
    [walkDir] itself. *)
Definition walkEntries (walk : list string -> fsnode -> S -> WalkCtl * S)
    (path : list string) : list fsnode -> S -> WalkCtl * S :=
  fix go (es : list fsnode) (s : S) {struct es} : WalkCtl * S :=
    match es with
    | [] => (WalkNil, s)
    | d1 :: es' =>
        match walk (path ++ [FS.Name d1]) d1 s with
        | (WalkNil, s') => go es' s'
        | (WalkSkipDir, s') => (WalkNil, s')
        | (WalkError e, s') => (WalkError e, s')
        end
    end.

Fixpoint walkDir (path : list string) (d : fsnode) (s : S) {struct d} : WalkCtl * S :=
  match fn path (Some d) None s with
  | (WalkNil, s1) =>
      match d with
      | File _ _ => (WalkNil, s1)
      | DirErr _ e =>
          match fn path (Some d) (Some e) s1 with
          | (WalkSkipDir, s2) => (WalkNil, s2)
          | r => r
          end
      | Dir _ es => walkEntries walkDir path es s1
      end
  | (WalkSkipDir, s1) => if FS.IsDir d then (WalkNil, s1) else (WalkSkipDir, s1)
  | (WalkError e, s1) => (WalkError e, s1)
  end.

Definition WalkDir (root : error + fsnode) (s : S) : option error * S :=
  let '(ctl, s') :=
    match root with
    | inl e => fn [] None (Some e) s
    | inr d => walkDir [] d s
    end in
  match ctl with
  | WalkError e => (Some e, s')
  | _ => (None, s')
  end.
End WalkDir.

(** ** [sync.go]: what both listings share *)

Module Syncer.
Section Syncer.
Context (lib : GoLib) (Cfg : Config.t) {W : Type} (host : Host W).

(** The path of an entry below the root as [filepath.Rel] prints it. *)
Definition relPath (comps : list string) : string :=
  match comps with
  | [] => "."
  | _ => Join comps (String (filepath_Separator lib) EmptyString)
  end.

(** [filepath.Rel(s.Cfg.Root, filepath.Dir(path))] for the entry
    reached by [path]; the parent of the root itself is [..]. *)
Definition relDirOf (path : list string) : string :=
  match path with
  | [] => ".."
  | _ => relPath (removelast path)
  end.

(** The lines [parseGitjoinFile] keeps. *)
Fixpoint keepLines (lines : list string) : list string :=
  match lines with
  | [] => []
  | text :: rest =>
      let line := strings_TrimSpace lib text in
      if String.eqb line EmptyString || HasPrefix line "#" then keepLines rest
      else line :: keepLines rest
  end.

(** [parseGitjoinFile] on the entry at [path]: a directory opens but
    cannot be read. *)
Definition parseGitjoinFile (d : fsnode) : list string * option error :=
  match d with
  | File _ (inr e) => ([], Some e)
  | File _ (inl content) =>
      let '(lines, err) := bufio_ScanLines lib content in
      (keepLines lines, err)
  | Dir _ _ | DirErr _ _ => ([], Some "is a directory")
  end.

(** The loop over the identifiers of one manifest. *)
Fixpoint addRepos (relDir : string) (repos : list string) (expected : gmap string string)
  : WalkCtl * gmap string string :=
  match repos with
  | [] => (WalkNil, expected)
  | repo :: rest =>
      let repoName := filepath_Base lib repo in
      let localPath :=
        if String.eqb relDir "." then repoName
        else filepath_Join lib relDir repoName in
      if negb (String.eqb (Config.Paths Cfg) EmptyString) then
        match filepath_Match lib (Config.Paths Cfg) localPath with
        | (_, Some e) => (WalkError e, expected)
        | (matched, None) =>
            if negb matched then addRepos relDir rest expected
            else addRepos relDir rest (<[localPath := repo]> expected)
        end
      else addRepos relDir rest (<[localPath := repo]> expected)
  end.

(** The callback of the walk in [collectExpectedRepos]. *)
Definition collectFn (path : list string) (d : option fsnode) (err : option error)
    (expected : gmap string string) : WalkCtl * gmap string string :=
  match err, d with
  | Some e, _ => (WalkError e, expected)
  | None, None => (WalkNil, expected)
  | None, Some d =>
      if FS.IsDir d && String.eqb (FS.Name d) ".git" then (WalkSkipDir, expected)
      else if negb (String.eqb (FS.Name d) "gitjoin.txt") then (WalkNil, expected)
      else
        let relDir := relDirOf path in
        match parseGitjoinFile d with
        | (_, Some e) => (WalkError e, expected)
        | (repos, None) => addRepos relDir repos expected
        end
  end.

(** [collectExpectedRepos] on a tree: the map built and the error. *)
Definition collectExpected (root : error + fsnode) : option error * gmap string string :=
  WalkDir collectFn root ∅.

Definition collectExpectedRepos : M W error (gmap string string) :=
  root <- observe (ReadTree host (Config.Root Cfg)) ;;
  match collectExpected root with
  | (Some e, _) => throw e
  | (None, expected) => ret expected
  end.

(** The callback of the walk in [findAllGitRepos]. *)
Definition findFn (path : list string) (d : option fsnode) (err : option error)
    (repos : list string) : WalkCtl * list string :=
  match err, d with
  | Some e, _ => (WalkError e, repos)
  | None, None => (WalkNil, repos)
  | None, Some d =>
      if FS.IsDir d && String.eqb (FS.Name d) ".git" then
        let rel := relDirOf path in
        (WalkSkipDir, if negb (String.eqb rel ".") then repos ++ [rel] else repos)
      else (WalkNil, repos)
  end.

Definition findAllGit (root : error + fsnode) : option error * list string :=
  WalkDir findFn root [].

Definition findAllGitRepos : M W error (list string) :=
  root <- observe (ReadTree host (Config.Root Cfg)) ;;
  match findAllGit root with
  | (Some e, _) => throw e
  | (None, repos) => ret repos
  end.

(** Turn the error of [m] into another one, as [fmt.Errorf] with [%w]. *)
Definition wrapErr {E E' A} (f : E' -> E) (m : M W E' A) : M W E A :=
  fun st =>
    match m st with
    | (Ok a, st') => (Ok a, st')
    | (Fail e, st') => (Fail (f e), st')
    end.

(** The trail [details] joined for the report. *)
Definition joinDetails (details : list string) : string := Join details ", ".

(** The loop of [printResult] over [r.Skipped], from the two slices
    gathered so far. *)
Fixpoint splitSkipped (skipped uncommitted nonDefault : list SkippedRepo.t)
  : list SkippedRepo.t * list SkippedRepo.t :=
  match skipped with
  | [] => (uncommitted, nonDefault)
  | skip :: rest =>
      if String.eqb (SkippedRepo.Reason skip) "uncommitted changes"
      then splitSkipped rest (uncommitted ++ [skip]) nonDefault
      else splitSkipped rest uncommitted (nonDefault ++ [skip])
  end.

(** One section of the report: nothing for an empty bucket, else the
    heading with the size of the bucket and one call of [s.log] per
    entry. *)
Definition logSection {A} (heading : string) (line : A -> string) (bucket : list A)
  : list string :=
  if 0 <? length bucket
  then (heading +:+ ": " +:+ Sprintf_d (length bucket) +:+ " repos" +:+ LF) :: map line bucket
  else [].

Definition updatedLine (repo : RepoResult.t) : string :=
  if negb (String.eqb (RepoResult.Detail repo) EmptyString)
  then "  - " +:+ RepoResult.Path repo +:+ " (" +:+ RepoResult.Detail repo +:+ ")" +:+ LF
  else "  - " +:+ RepoResult.Path repo +:+ LF.

Definition pathLine (path : string) : string := "  - " +:+ path +:+ LF.

Definition skippedLine (skip : SkippedRepo.t) : string :=
  "  - " +:+ SkippedRepo.Path skip +:+ " (" +:+ SkippedRepo.Detail skip +:+ ")" +:+ LF.

(** The calls of [s.log] that [printResult] makes in both listings, in
    order, each by the text it formats. *)
Definition printOutcomes (r : Result.t) : list string :=
  let '(uncommitted, nonDefault) := splitSkipped (Result.Skipped r) [] [] in
  logSection "Updated" updatedLine (Result.Updated r)
    ++ logSection "Cloned" (fun repo => pathLine (RepoResult.Path repo)) (Result.Cloned r)
    ++ logSection "Removed" pathLine (Result.Removed r)
    ++ logSection "Skipped (uncommitted changes)" skippedLine uncommitted
    ++ logSection "Skipped (non-default branch)" skippedLine nonDefault.

End Syncer.
End Syncer.

Import Syncer.

(** ** [sync.go], first listing: a pool of workers *)

Module Pool.

Definition gitignoreStart : string := "# Managed by gitjoin - do not edit this section".
Definition gitignoreEnd : string := "# End gitjoin managed section".

Section Pool.
Context (lib : GoLib) (Cfg : Config.t) {W : Type} (host : Host W).

(** [repoPathToURL]; [getenv] is [os.Getenv] of the running process. *)
Definition repoPathToURL (getenv : string -> string) (repoPath : string) : string :=
  let parts := SplitN repoPath "/" 2 in
  if negb (length parts =? 2) then EmptyString
  else if negb (String.eqb (getenv "GITHUB_ACTIONS") EmptyString) then
    "https://" +:+ nth 0 parts EmptyString +:+ "/" +:+ nth 1 parts EmptyString +:+ ".git"
  else
    "git@" +:+ nth 0 parts EmptyString +:+ ":" +:+ nth 1 parts EmptyString +:+ ".git".

(** [processRepo]; [ctxDone] tells whether [ctx.Done()] is closed when
    the task starts.  The mutex makes every append to [result] atomic,
    so a task is a sequence of steps on the shared state. *)
Definition processRepo (ctxDone : bool) (localPath repoPath : string) : M W error unit :=
  if ctxDone then throw "context canceled"
  else
    let fullPath := filepath_Join lib (Config.Root Cfg) localPath in
    storeExisting localPath ;;;
    notExist <- observe (StatNotExist host fullPath) ;;
    if (notExist : bool) then
      url <- observe (fun w => repoPathToURL (fun k => Getenv host k w) repoPath) ;;
      err <- clone host url fullPath ;;
      match err with
      | Some e => throw ("clone " +:+ localPath +:+ ": " +:+ e)
      | None => updResult (Result.addCloned (RepoResult.mk localPath EmptyString))
      end
    else
      let repo := Repo.mk fullPath in
      isRepo <- Repo.IsGitRepo lib host repo ;;
      if negb isRepo then throw (localPath +:+ ": not a git repo")
      else
        defaultBranch <-
          wrapErr (fun e => localPath +:+ ": get default branch: " +:+ e)
            (Repo.DefaultBranch lib host repo) ;;
        currentBranch <-
          wrapErr (fun e => localPath +:+ ": get current branch: " +:+ e)
            (Repo.CurrentBranch lib host repo) ;;
        dirty <-
          wrapErr (fun e => localPath +:+ ": check uncommitted changes: " +:+ e)
            (Repo.HasUncommittedChanges lib host repo) ;;
        if negb (Config.Force Cfg) then
          if (dirty : bool) then
            summary <- Repo.ChangesSummary lib host repo ;;
            updResult (Result.addSkipped
                         (SkippedRepo.mk localPath "uncommitted changes" summary))
          else if negb (String.eqb currentBranch defaultBranch) then
            updResult (Result.addSkipped
                         (SkippedRepo.mk localPath "non-default branch"
                            ("on " +:+ currentBranch)))
          else
            changed <-
              wrapErr (fun e => localPath +:+ ": pull: " +:+ e) (Repo.Pull host repo) ;;
            if (changed : bool) then
              updResult (Result.addUpdated (RepoResult.mk localPath "pulled"))
            else ret tt
        else
          let details : list string := [] in
          sd <-
            (if dirty then
               wrapErr (fun e => localPath +:+ ": stash: " +:+ e) (Repo.Stash host repo) ;;;
               ret (true, details ++ ["stashed"])
             else ret (false, details)) ;;
          let '(stashed, details) := (sd : bool * list string) in
          details <-
            (if negb (String.eqb currentBranch defaultBranch) then
               wrapErr (fun e => localPath +:+ ": switch branch: " +:+ e)
                 (Repo.SwitchBranch host repo defaultBranch) ;;;
               ret (details ++ ["switched to " +:+ defaultBranch])
             else ret details) ;;
          changed <-
            wrapErr (fun e => localPath +:+ ": pull: " +:+ e) (Repo.Pull host repo) ;;
          let details := if (changed : bool) then details ++ ["pulled"] else details in
          details <-
            (if stashed then
               wrapErr (fun e => localPath +:+ ": unstash: " +:+ e)
                 (Repo.Unstash host repo) ;;;
               ret (details ++ ["unstashed"])
             else ret details) ;;
          if 0 <? length details then
            updResult (Result.addUpdated (RepoResult.mk localPath (joinDetails details)))
          else ret tt.

(** The tasks handed to the pool, then [r.Wait()], under the schedule
    that runs one task after the other: the first error cancels the
    context of the tasks that follow and is the one [Wait] returns. *)
Fixpoint runTasks (firstErr : option error) (pairs : list (string * string))
  : M W error unit :=
  match pairs with
  | [] =>
      match firstErr with
      | Some e => throw e
      | None => ret tt
      end
  | (localPath, repoPath) :: rest =>
      r <- attempt (processRepo (bool_decide (firstErr <> None)) localPath repoPath) ;;
      match r, firstErr with
      | Fail e, None => runTasks (Some e) rest
      | _, _ => runTasks firstErr rest
      end
  end.

(** The loop of [run] over [allRepos]. *)
Fixpoint sweep (allRepos : list string) : M W error unit :=
  match allRepos with
  | [] => ret tt
  | repo :: rest =>
      found <- loadExisting repo ;;
      if negb found then
        let fullPath := filepath_Join lib (Config.Root Cfg) repo in
        err <- perform (EvRemoveAll fullPath) (RemoveAll host fullPath) ;;
        match err with
        | Some e => throw ("remove " +:+ repo +:+ ": " +:+ e)
        | None => updResult (Result.addRemoved repo) ;;; sweep rest
        end
      else sweep rest
  end.

(** [filepath.ToSlash] *)
Fixpoint replaceByte (old new : ascii) (s : string) : string :=
  match s with
  | EmptyString => EmptyString
  | String c s' => String (if Ascii.eqb c old then new else c) (replaceByte old new s')
  end.

Definition ToSlash (path : string) : string :=
  if Ascii.eqb (filepath_Separator lib) "/" then path
  else replaceByte (filepath_Separator lib) "/" path.

Definition sortStrings (l : list string) : list string := merge_sort String.le l.

(** What [strings.Builder] holds after writing the pieces in order. *)
Definition writeAll (pieces : list string) : string :=
  foldr String.append EmptyString pieces.

(** The managed block for the keys of [repos], met in the order [keys]. *)
Definition managedBlock (keys : list string) : string :=
  let paths := sortStrings (map (fun localPath => ToSlash localPath +:+ "/") keys) in
  writeAll ([gitignoreStart +:+ LF] ++ map (fun p => p +:+ LF) paths
            ++ [gitignoreEnd +:+ LF]).

(** The content [updateGitignore] writes, from the managed block and
    the bytes read ([existing] is empty when the file is absent). *)
Definition newContent (managed existing : string) : string :=
  if len existing =? 0 then managed
  else
    let content := existing in
    let startIdx := Index content gitignoreStart in
    let endIdx := Index content gitignoreEnd in
    if ((0 <=? startIdx) && (startIdx <? endIdx))%Z then
      let endIdx := (endIdx + Z.of_nat (len gitignoreEnd))%Z in
      let endIdx :=
        if (endIdx <? Z.of_nat (len content))%Z
           && bool_decide (byteAt content (Z.to_nat endIdx) = Some "010"%char)
        then (endIdx + 1)%Z else endIdx in
      sliceTo (Z.to_nat startIdx) content +:+ managed
        +:+ sliceFrom (Z.to_nat endIdx) content
    else
      let content := if negb (HasSuffix content LF) then content +:+ LF else content in
      content +:+ LF +:+ managed.

Definition updateGitignore (repos : gmap string string) : M W error unit :=
  let gitignorePath := filepath_Join lib (Config.Root Cfg) ".gitignore" in
  let managed := managedBlock (map fst (map_to_list repos)) in
  rd <- observe (ReadFile host gitignorePath) ;;
  match rd with
  | ReadErr e => throw e
  | ReadOk _ | ReadNotExist _ =>
      let existing := match rd with ReadOk c => c | _ => EmptyString end in
      err <- perform (EvWriteFile gitignorePath (newContent managed existing))
               (WriteFile host gitignorePath (newContent managed existing)) ;;
      match err with
      | Some e => throw e
      | None => ret tt
      end
  end.

Definition run : M W error unit :=
  freshRun ;;;
  expected <- collectExpectedRepos lib Cfg host ;;
  runTasks None (map_to_list expected) ;;;
  allRepos <- findAllGitRepos lib Cfg host ;;
  sweep allRepos ;;;
  wrapErr (fun e => "update .gitignore: " +:+ e) (updateGitignore expected).

(** [printResult]: the texts handed to [s.log]. *)
Definition printResult (r : Result.t) : list string := printOutcomes r.

(** [Sync]: the error of [run], or the texts that reach standard error
    through [s.log], none of them when [cfg.Quiet] makes [s.out] discard
    what is written.  What [git clone] itself writes to [s.out] is not
    part of them. *)
Definition Sync : M W error (list string) :=
  run ;;;
  fun st => (Ok (if Config.Quiet Cfg then [] else printResult (result st)), st).

End Pool.
End Pool.

(** ** [sync.go], second listing: a loop that collects warnings *)

Module Seq.

(** Leaving the body of the loop with [continue]. *)
Inductive Continue : Type := continue.

Section Seq.
Context (lib : GoLib) (Cfg : Config.t) {W : Type} (host : Host W).

Definition repoPathToURL (repoPath : string) : string :=
  let parts := SplitN repoPath "/" 2 in
  if negb (length parts =? 2) then EmptyString
  else "git@" +:+ nth 0 parts EmptyString +:+ ":" +:+ nth 1 parts EmptyString +:+ ".git".

Definition warn {E} (msg : string) : M W E unit :=
  updResult (Result.addWarning msg).

(** [if err != nil { result.Warnings = append(...); continue }] *)
Definition orWarn {A} (msg : error -> string) (m : M W error A) : M W Continue A :=
  r <- attempt m ;;
  match r with
  | Ok a => ret a
  | Fail e => warn (msg e) ;;; throw continue
  end.

(** The body of the loop of [run] over [expected]. *)
Definition syncRepo (localPath repoPath : string) : M W Continue unit :=
  let fullPath := filepath_Join lib (Config.Root Cfg) localPath in
  storeExisting localPath ;;;
  notExist <- observe (StatNotExist host fullPath) ;;
  if (notExist : bool) then
    let url := repoPathToURL repoPath in
    err <- clone host url fullPath ;;
    match err with
    | Some e => warn ("clone failed: " +:+ localPath +:+ ": " +:+ e) ;;; throw continue
    | None =>
        updResult (Result.addCloned (RepoResult.mk localPath EmptyString)) ;;;
        throw continue
    end
  else
    let repo := Repo.mk fullPath in
    isRepo <- Repo.IsGitRepo lib host repo ;;
    if negb isRepo then warn ("not a git repo: " +:+ localPath) ;;; throw continue
    else
      defaultBranch <-
        orWarn (fun e => "could not get default branch: " +:+ localPath +:+ ": " +:+ e)
          (Repo.DefaultBranch lib host repo) ;;
      currentBranch <-
        orWarn (fun e => "could not get current branch: " +:+ localPath +:+ ": " +:+ e)
          (Repo.CurrentBranch lib host repo) ;;
      dirty <-
        orWarn (fun e => "could not check for uncommitted changes: " +:+ localPath
                          +:+ ": " +:+ e)
          (Repo.HasUncommittedChanges lib host repo) ;;
      if negb (Config.Force Cfg) then
        if (dirty : bool) then
          summary <- Repo.ChangesSummary lib host repo ;;
          updResult (Result.addSkipped
                       (SkippedRepo.mk localPath "uncommitted changes" summary)) ;;;
          throw continue
        else if negb (String.eqb currentBranch defaultBranch) then
          updResult (Result.addSkipped
                       (SkippedRepo.mk localPath "non-default branch"
                          ("on " +:+ currentBranch))) ;;;
          throw continue
        else
          changed <-
            orWarn (fun e => "pull failed: " +:+ localPath +:+ ": " +:+ e)
              (Repo.Pull host repo) ;;
          if (changed : bool) then
            updResult (Result.addUpdated (RepoResult.mk localPath "pulled"))
          else ret tt
      else
        let details : list string := [] in
        sd <-
          (if dirty then
             orWarn (fun e => "stash failed: " +:+ localPath +:+ ": " +:+ e)
               (Repo.Stash host repo) ;;;
             ret (true, details ++ ["stashed"])
           else ret (false, details)) ;;
        let '(stashed, details) := (sd : bool * list string) in
        details <-
          (if negb (String.eqb currentBranch defaultBranch) then
             orWarn (fun e => "switch branch failed: " +:+ localPath +:+ ": " +:+ e)
               (Repo.SwitchBranch host repo defaultBranch) ;;;
             ret (details ++ ["switched to " +:+ defaultBranch])
           else ret details) ;;
        changed <-
          orWarn (fun e => "pull failed: " +:+ localPath +:+ ": " +:+ e)
            (Repo.Pull host repo) ;;
        let details := if (changed : bool) then details ++ ["pulled"] else details in
        details <-
          (if stashed then
             r <- attempt (Repo.Unstash host repo) ;;
             match r with
             | Fail e =>
                 warn ("unstash failed (conflicts?): " +:+ localPath +:+ ": " +:+ e) ;;;
                 ret details
             | Ok _ => ret (details ++ ["unstashed"])
             end
           else ret details) ;;
        if 0 <? length details then
          updResult (Result.addUpdated (RepoResult.mk localPath (joinDetails details)))
        else ret tt.

(** The loop of [run] over [expected], met in the order [pairs]. *)
Fixpoint syncAll {E} (pairs : list (string * string)) : M W E unit :=
  match pairs with
  | [] => ret tt
  | (localPath, repoPath) :: rest =>
      _ <- attempt (syncRepo localPath repoPath) ;;
      syncAll rest
  end.

(** The loop of [run] over [allRepos]. *)
Fixpoint sweep {E} (allRepos : list string) : M W E unit :=
  match allRepos with
  | [] => ret tt
  | repo :: rest =>
      found <- loadExisting repo ;;
      if negb found then
        let fullPath := filepath_Join lib (Config.Root Cfg) repo in
        err <- perform (EvRemoveAll fullPath) (RemoveAll host fullPath) ;;
        match err with
        | Some e => warn ("remove failed: " +:+ repo +:+ ": " +:+ e) ;;; sweep rest
        | None => updResult (Result.addRemoved repo) ;;; sweep rest
        end
      else sweep rest
  end.

Definition run : M W error unit :=
  freshRun ;;;
  expected <- collectExpectedRepos lib Cfg host ;;
  syncAll (map_to_list expected) ;;;
  allRepos <- findAllGitRepos lib Cfg host ;;
  sweep allRepos.

(** [printResult]: the texts handed to [s.log]. *)
Definition printResult (r : Result.t) : list string :=
  printOutcomes r
    ++ (if 0 <? length (Result.Warnings r)
        then ("Warnings:" +:+ LF) :: map pathLine (Result.Warnings r)
        else []).

(** [Sync], as in the first listing. *)
Definition Sync : M W error (list string) :=
  run ;;;
  fun st => (Ok (if Config.Quiet Cfg then [] else printResult (result st)), st).

End Seq.
End Seq.

(** ** A simulated environment

    A small library and host on which the embedding runs: the outside
    world is a directory tree and a clock, and a script fixes what [git]
    answers.  The library functions are simple stand-ins that agree with
    the Go ones on the inputs of the examples below ([/]-separated paths,
    ASCII white space, patterns of literals, [*] and [?]). *)

Module Sim.

Fixpoint dropSpace (s : string) : string :=
  match s with
  | String c s' => if Ascii.is_space c then dropSpace s' else s
  | EmptyString => EmptyString
  end.

Definition trimSpace (s : string) : string :=
  String.rev (dropSpace (String.rev (dropSpace s))).

Definition scanLines (content : string) : list string * option error :=
  let pieces := Split content LF in
  (if String.eqb (List.last pieces EmptyString) EmptyString
   then removelast pieces else pieces, None).

Definition base (path : string) : string := List.last (Split path "/") EmptyString.

Definition join (a b : string) : string :=
  if String.eqb a EmptyString then b
  else if String.eqb b EmptyString then a
  else a +:+ "/" +:+ b.

Fixpoint glob (pattern : string) : string -> bool :=
  match pattern with
  | EmptyString => fun name => String.eqb name EmptyString
  | String "*" p =>
      fix star (name : string) : bool :=
        glob p name
        || match name with
           | String c name' => if Ascii.eqb c "/" then false else star name'
           | EmptyString => false
           end
  | String c p =>
      fun name =>
        match name with
        | String d name' =>
            (Ascii.eqb c d || (Ascii.eqb c "?" && negb (Ascii.eqb d "/"))) && glob p name'
        | EmptyString => false
        end
  end.

Definition matchGlob (pattern name : string) : bool * option error :=
  if Contains pattern "[" then (false, Some "syntax error in pattern")
  else (glob pattern name, None).

Definition lib : GoLib :=
  MkGoLib trimSpace scanLines base join matchGlob "/"%char.

Record World : Type := MkWorld { tree : fsnode; clock : nat }.

Record Script : Type := MkScript
  { env : string -> string;
    git : nat -> string -> list string -> string + error * string;
    cloneErr : string -> option error;
    removeErr : string -> option error }.

(** The root of the simulated tree. *)
Definition root : string := "/r".

(** The components of a path below [root]. *)
Definition compsOf (path : string) : list string := drop 2 (Split path "/").

Definition statNotExist (path : string) (w : World) : bool :=
  bool_decide (FS.lookup (compsOf path) (tree w) = None).

Definition statIsDir (path : string) (w : World) : bool :=
  match FS.lookup (compsOf path) (tree w) with
  | Some d => FS.IsDir d
  | None => false
  end.

Definition runGit (sc : Script) (dir : string) (args : list string) (w : World)
  : (string + error * string) * World :=
  (git sc (clock w) dir args, MkWorld (tree w) (S (clock w))).

Definition runClone (sc : Script) (url path : string) (w : World) : option error * World :=
  match cloneErr sc url with
  | Some e => (Some e, w)
  | None =>
      (None,
       MkWorld (FS.put (compsOf path)
                  (Dir (List.last (compsOf path) EmptyString) [Dir ".git" []]) (tree w))
         (clock w))
  end.

Definition removeAll (sc : Script) (path : string) (w : World) : option error * World :=
  match removeErr sc path with
  | Some e => (Some e, w)
  | None => (None, MkWorld (FS.prune (compsOf path) (tree w)) (clock w))
  end.

Definition readFile (path : string) (w : World) : ReadOutcome :=
  match FS.lookup (compsOf path) (tree w) with
  | Some (File _ (inl content)) => ReadOk content
  | Some (File _ (inr e)) => ReadErr e
  | Some _ => ReadErr "is a directory"
  | None => ReadNotExist "no such file or directory"
  end.

Definition writeFile (path content : string) (w : World) : option error * World :=
  (None,
   MkWorld (FS.put (compsOf path)
              (File (List.last (compsOf path) EmptyString) (inl content)) (tree w))
     (clock w)).

Definition host (sc : Script) : Host World :=
  MkHost World
    (fun k _ => env sc k) statNotExist statIsDir (runGit sc) (runClone sc)
    (removeAll sc) readFile writeFile (fun _ w => inr (tree w)).

Definition start (t : fsnode) : State World := MkState (MkWorld t 0) [] Result.zero ∅.

Definition cfg (force : bool) (paths : string) : Config.t :=
  Config.mk root force false paths.

End Sim.

(** ** Notions used in the statements *)

Module Notions.

(** *** Strings *)

Fixpoint hasByte (c : ascii) (s : string) : bool :=
  match s with
  | EmptyString => false
  | String d s' => Ascii.eqb d c || hasByte c s'
  end.

Definition occursAt (s p : string) (j : nat) : Prop := HasPrefix (sliceFrom j s) p = true.

(** [p] has no instance in [s]. *)
Definition noOcc (p s : string) : Prop := indexNat s p = None.

(** *** The managed block *)

Section Gitignore.
Context (lib : GoLib).
Import Pool.

(** The entry of a local path in the block. *)
Definition entry (localPath : string) : string := ToSlash lib localPath +:+ "/".

(** The lines between the two markers. *)
Definition body (keys : list string) : string :=
  writeAll (map (fun p => p +:+ LF) (sortStrings (map entry keys))).

Definition withLF (content : string) : string :=
  if negb (HasSuffix content LF) then content +:+ LF else content.

(** Where the replaced region ends: after the end marker and the
    line feed that follows it, if one does. *)
Definition regionEnd (c : string) (e : nat) : nat :=
  if bool_decide (byteAt c (e + len gitignoreEnd) = Some "010"%char)
  then e + len gitignoreEnd + 1 else e + len gitignoreEnd.

End Gitignore.

(** *** One repository *)

Section Sync.
Context (lib : GoLib) (Cfg : Config.t) {W : Type} (host : Host W).

(** The state with another [result]. *)
Definition withResult (f : Result.t -> Result.t) (st : State W) : State W :=
  MkState (world st) (trace st) (f (result st)) (existing st).

(** The state once [localPath] is stored in [existing]. *)
Definition stored (localPath : string) (st : State W) : State W :=
  MkState (world st) (trace st) (result st) ({[ localPath ]} ∪ existing st).

Definition fullPathOf (localPath : string) : string :=
  filepath_Join lib (Config.Root Cfg) localPath.

Definition repoOf (localPath : string) : Repo.t := Repo.mk (fullPathOf localPath).

(** [localPath] is an existing checkout and its three inspections
    succeed, with the answers [db], [cb] and [dirty], leaving [st3]. *)
Definition inspected (localPath : string) (st : State W)
    (db cb : string) (dirty : bool) (st3 : State W) : Prop :=
  StatNotExist host (fullPathOf localPath) (world st) = false
  /\ StatIsDir host (filepath_Join lib (fullPathOf localPath) ".git") (world st) = true
  /\ exists st1 st2,
      Repo.DefaultBranch lib host (repoOf localPath) (stored localPath st) = (Ok db, st1)
      /\ Repo.CurrentBranch lib host (repoOf localPath) st1 = (Ok cb, st2)
      /\ Repo.HasUncommittedChanges lib host (repoOf localPath) st2 = (Ok dirty, st3).



(** The trail of a dirty checkout away from the default branch. *)
Definition trail (db : string) (changed unstashed : bool) : list string :=
  ["stashed"; "switched to " +:+ db]
    ++ (if changed then ["pulled"] else [])
    ++ (if unstashed then ["unstashed"] else []).

(** The detail that the report shows for such a checkout: the steps in
    the order stash, switch, pull, unstash. *)
Definition trailText (db : string) (changed unstashed : bool) : string :=
  match changed, unstashed with
  | true, true => "stashed, switched to " +:+ db +:+ ", pulled, unstashed"
  | true, false => "stashed, switched to " +:+ db +:+ ", pulled"
  | false, true => "stashed, switched to " +:+ db +:+ ", unstashed"
  | false, false => "stashed, switched to " +:+ db
  end.



End Sync.

(** *** The summary of the changes of a dirty checkout *)

Section Summary.
Context (lib : GoLib).

(** The status of a porcelain line is its first two bytes; lines
    shorter than that have none.  A line counts as modified when its
    status holds "M", else as added when it holds "A" or "?", else as
    deleted when it holds "D". *)
Definition modifiedLine (line : string) : bool :=
  (2 <=? len line) && Contains (sliceTo 2 line) "M".

Definition addedLine (line : string) : bool :=
  (2 <=? len line) && negb (Contains (sliceTo 2 line) "M")
  && (Contains (sliceTo 2 line) "A" || Contains (sliceTo 2 line) "?").

Definition deletedLine (line : string) : bool :=
  (2 <=? len line) && negb (Contains (sliceTo 2 line) "M")
  && negb (Contains (sliceTo 2 line) "A" || Contains (sliceTo 2 line) "?")
  && Contains (sliceTo 2 line) "D".

Definition countLines (f : string -> bool) (lines : list string) : nat :=
  length (List.filter f lines).

(** A count and what it counts, when there is something to count. *)
Definition tally (n : nat) (what : string) : list string :=
  if 0 <? n then [Sprintf_d n +:+ what] else [].

(** The summary for the output [out] of [git status --porcelain]: "no
    changes" for an output that is blank, else the counts of modified,
    added and deleted lines that are not zero, in this order and
    separated by ", ", else the number of lines. *)
Definition changeSummary (out : string) : string :=
  let trimmed := strings_TrimSpace lib out in
  if String.eqb trimmed EmptyString then "no changes"
  else
    let lines := Split trimmed LF in
    match (tally (countLines modifiedLine lines) " modified"
           ++ tally (countLines addedLine lines) " added"
           ++ tally (countLines deletedLine lines) " deleted")%list with
    | [] => Sprintf_d (length lines) +:+ " changes"
    | parts => Join parts ", "
    end.

End Summary.

(** *** Two walks in step *)

Section InStep.
Context {S1 S2 : Type}.
Variable I : S1 -> S2 -> Prop.
Variable B : error -> S2 -> Prop.

Definition InStep (o1 : WalkCtl * S1) (o2 : WalkCtl * S2) : Prop :=
  (fst o1 = fst o2 /\ I (snd o1) (snd o2))
  \/ (exists e, fst o1 = WalkError e /\ B e (snd o2)).

End InStep.

(** *** The path filter *)

Section Collect.
Context (lib : GoLib) (Cfg : Config.t).

(** The configuration without its path filter. *)
Definition unfiltered : Config.t :=
  Config.mk (Config.Root Cfg) (Config.Force Cfg) (Config.Quiet Cfg) EmptyString.

(** The filter lets the local path [k] through. *)
Definition keeps (k : string) : bool :=
  String.eqb (Config.Paths Cfg) EmptyString
  || match filepath_Match lib (Config.Paths Cfg) k with
     | (matched, None) => matched
     | (_, Some _) => false
     end.

(** Matching the local path [k] against the filter reports [e]. *)
Definition matchError (k : string) (e : error) : Prop :=
  Config.Paths Cfg <> EmptyString /\ snd (filepath_Match lib (Config.Paths Cfg) k) = Some e.

Definition kept (all : gmap string string) : gmap string string :=
  filter (fun kv => keeps kv.1 = true) all.

Definition inStep (expected all : gmap string string) : Prop :=
  expected = kept all /\ forall k e, k ∈ dom all -> ~ matchError k e.

Definition badMatch (e : error) (all : gmap string string) : Prop :=
  exists k, k ∈ dom all /\ matchError k e.

Definition grows (all all' : gmap string string) : Prop := dom all ⊆ dom all'.

End Collect.

(** *** The sweep *)

Section Sweep.
Context (lib : GoLib) (Cfg : Config.t) {W : Type} (host : Host W).

(** The checkouts of [allRepos] that [existing] does not hold. *)
Definition orphans (allRepos : list string) (st : State W) : list string :=
  filter (fun repo => repo ∉ existing st) allRepos.

Definition removalOf (repo : string) : Event :=
  EvRemoveAll (filepath_Join lib (Config.Root Cfg) repo).

(** The world after removing [repos] one after the other. *)
Definition removeAllOf (repos : list string) (w : W) : W :=
  foldl (fun w repo => snd (RemoveAll host (filepath_Join lib (Config.Root Cfg) repo) w))
    w repos.

(** The state after a sweep in which every removal went through. *)
Definition swept (allRepos : list string) (st : State W) : State W :=
  MkState (removeAllOf (orphans allRepos st) (world st))
    (trace st ++ map removalOf (orphans allRepos st))
    (Result.mk (Result.Updated (result st)) (Result.Cloned (result st))
       (Result.Removed (result st) ++ orphans allRepos st)
       (Result.Skipped (result st)) (Result.Warnings (result st)))
    (existing st).

(** [os.RemoveAll] on the tree: a removal that succeeds takes away the
    path that [decode] resolves the name to, and nothing else. *)
Definition removalPrunes (decode : string -> list string) : Prop :=
  forall repo w w' t,
    ReadTree host (Config.Root Cfg) w = inr t ->
    RemoveAll host (filepath_Join lib (Config.Root Cfg) repo) w = (None, w') ->
    ReadTree host (Config.Root Cfg) w' = inr (FS.prune (decode repo) t).

Definition pruneAll (decode : string -> list string) (repos : list string) (t : fsnode)
  : fsnode :=
  foldl (fun t repo => FS.prune (decode repo) t) t repos.

End Sweep.

End Notions.

Import Notions.

(** ** Scenarios on the simulated environment *)

Module Scenarios.
Import Pool.

(** The script of a run inside GitHub Actions in which nothing fails. *)
Definition inActions : Sim.Script :=
  Sim.MkScript (fun k => if String.eqb k "GITHUB_ACTIONS" then "true" else EmptyString)
    (fun _ _ _ => inl EmptyString) (fun _ => None) (fun _ => None).

Definition quiet : Sim.Script :=
  Sim.MkScript (fun _ => EmptyString) (fun _ _ _ => inl EmptyString)
    (fun _ => None) (fun _ => None).

(** [updateGitignore] run on a tree; the content of [.gitignore] after it. *)
Definition ignoreAfter (repos : gmap string string) (t : fsnode) : ReadOutcome * fsnode :=
  let st := snd (updateGitignore Sim.lib (Sim.cfg false EmptyString) (Sim.host quiet)
                   repos (Sim.start t)) in
  (Sim.readFile "/r/.gitignore" (world st), Sim.tree (world st)).

Definition sample : string :=
  "build/" +:+ LF +:+ gitignoreStart +:+ LF +:+ "old/" +:+ LF
    +:+ gitignoreEnd +:+ LF +:+ "dist/" +:+ LF.

(** A [git] that answers like a checkout whose default branch is
    [main], that is on [branch] with the porcelain status [status], whose
    head moves with every command, and that fails the commands [fails]. *)
Definition gitAnswers (branch status : string) (fails : list string -> bool)
  : nat -> string -> list string -> string + error * string :=
  fun t _ args =>
    if fails args then inr ("exit status 1", "fatal: failed")
    else
      match args with
      | ["symbolic-ref"; _] => inl ("refs/remotes/origin/main" +:+ LF)
      | ["branch"; _] => inl (branch +:+ LF)
      | ["status"; _] => inl status
      | ["rev-parse"; _] => inl (Sprintf_d t)
      | _ => inl EmptyString
      end.

Definition script (branch status : string) (fails : list string -> bool)
    (cloneFails : bool) : Sim.Script :=
  Sim.MkScript (fun _ => EmptyString) (gitAnswers branch status fails)
    (fun _ => if cloneFails then Some "exit status 128" else None) (fun _ => None).

Definition never : list string -> bool := fun _ => false.

Definition popFails : list string -> bool :=
  fun args => bool_decide (args = ["stash"; "pop"]).

(** A root with one manifest that lists [github.com/bep/a]; the checkout
    [a] is there or not. *)
Definition manifest : fsnode := File "gitjoin.txt" (inl ("github.com/bep/a" +:+ LF)).
Definition withCheckout : fsnode := Dir "r" [Dir "a" [Dir ".git" []]; manifest].

Definition forced : Config.t := Sim.cfg true EmptyString.
Definition unforced : Config.t := Sim.cfg false EmptyString.

(** The states a task on [a] goes through. *)
Section Steps.
Context (Cfg : Config.t) (sc : Sim.Script).

Definition repoA : Repo.t := repoOf Sim.lib Cfg "a".
Definition s0 : State Sim.World := Sim.start withCheckout.
Definition s1 : State Sim.World :=
  snd (Repo.DefaultBranch Sim.lib (Sim.host sc) repoA (stored "a" s0)).
Definition s2 : State Sim.World := snd (Repo.CurrentBranch Sim.lib (Sim.host sc) repoA s1).
Definition s3 : State Sim.World :=
  snd (Repo.HasUncommittedChanges Sim.lib (Sim.host sc) repoA s2).
Definition s4 : State Sim.World := snd (Repo.Stash (Sim.host sc) repoA s3).
Definition s5 : State Sim.World := snd (Repo.SwitchBranch (Sim.host sc) repoA "main" s4).
Definition s6 : State Sim.World := snd (Repo.Pull (Sim.host sc) repoA s5).
Definition s7 : State Sim.World := snd (Repo.Unstash (Sim.host sc) repoA s6).

End Steps.

Definition modified : string := " M README.md" +:+ LF.

(** A dirty checkout on [feature], forced, with nothing failing. *)
Definition dirtyFeature : Sim.Script := script "feature" modified never false.

(** The same when [git stash pop] fails. *)
Definition conflict : Sim.Script := script "feature" modified popFails false.


(** A root with a manifest and a nested one. *)
Definition hugoAndDocs : fsnode :=
  File "gitjoin.txt" (inl ("github.com/bep/hugo" +:+ LF +:+ "github.com/bep/docs" +:+ LF)).
Definition tools : fsnode :=
  Dir "tools" [File "gitjoin.txt" (inl ("github.com/bep/hugoreleaser" +:+ LF))].
Definition twoManifests : fsnode := Dir "r" [hugoAndDocs; tools].

(** A [git] that finds every checkout clean and on [main]. *)
Definition calm : Sim.Script := script "main" EmptyString never false.

(** A clean checkout on [main] whose head does not move. *)
Definition steady : Sim.Script :=
  Sim.MkScript (fun _ => EmptyString)
    (fun _ _ args =>
       match args with
       | ["symbolic-ref"; _] => inl ("refs/remotes/origin/main" +:+ LF)
       | ["branch"; _] => inl ("main" +:+ LF)
       | ["rev-parse"; _] => inl "4f2a9c1"
       | _ => inl EmptyString
       end)
    (fun _ => None) (fun _ => None).

(** A clean checkout on [main] on which [git pull] fails. *)
Definition pullFails : Sim.Script :=
  script "main" EmptyString (fun args => bool_decide (args = ["pull"])) false.


(** The three commands that inspect the checkout [a]. *)
Definition inspections : list Event :=
  [EvGit "/r/a" ["symbolic-ref"; "refs/remotes/origin/HEAD"];
   EvGit "/r/a" ["branch"; "--show-current"];
   EvGit "/r/a" ["status"; "--porcelain"]].

(** The same when no directory can be removed. *)
Definition readOnly : Sim.Script :=
  Sim.MkScript (fun _ => EmptyString) (gitAnswers "main" EmptyString never)
    (fun _ => None) (fun _ => Some "permission denied").

(** How the simulated host resolves a path below the root. *)
Definition decode (repo : string) : list string := Sim.compsOf (Sim.join Sim.root repo).

Definition expectedA : gmap string string := {[ "a" := "github.com/bep/a" ]}.

(** The checkout [a] of the manifest and a checkout [c] nobody lists. *)
Definition withOrphan : fsnode :=
  Dir "r" [Dir "a" [Dir ".git" []]; Dir "c" [Dir ".git" []]; manifest].

(** An orphaned checkout [A] that holds a manifest and the checkout
    [A/B] this manifest lists. *)
Definition nested : fsnode :=
  Dir "r"
    [Dir "A" [Dir ".git" [];
              Dir "B" [Dir ".git" []];
              File "gitjoin.txt" (inl ("github.com/bep/B" +:+ LF))]].

(** A root with the single checkout [c], which no manifest lists. *)
Definition onlyOrphan : fsnode := Dir "r" [Dir "c" [Dir ".git" []]].

End Scenarios.

Import Scenarios.

(** ** Notions for the properties of the remaining code *)

Module Views.

(** *** What a computation does to the outside world *)

Section Effects.
Context (lib : GoLib) (Cfg : Config.t) {W : Type}.

(** Every command that [m] adds to the trace satisfies [P]. *)
Definition Emits {E A} (P : Event -> Prop) (m : M W E A) : Prop :=
  forall st, exists evs, trace (snd (m st)) = trace st ++ evs /\ Forall P evs.

(** The commands of the tasks, and the removals of the sweep. *)
Definition taskCommand (ev : Event) : Prop :=
  match ev with
  | EvGit _ _ | EvClone _ _ => True
  | _ => False
  end.

Definition removal (ev : Event) : Prop :=
  match ev with
  | EvRemoveAll _ => True
  | _ => False
  end.

(** A [git] command run in the checkout of [localPath], or a clone into it. *)
Definition inCheckout (localPath : string) (ev : Event) : Prop :=
  match ev with
  | EvGit dir _ => dir = fullPathOf lib Cfg localPath
  | EvClone _ path => path = fullPathOf lib Cfg localPath
  | _ => False
  end.

(** The commands that read the state of a checkout, and [git pull]. *)
Definition plainCommands : list (list string) :=
  [ ["symbolic-ref"; "refs/remotes/origin/HEAD"];
    ["branch"; "--show-current"];
    ["status"; "--porcelain"];
    ["rev-parse"; "HEAD"];
    ["pull"] ].

(** A clone, or one of the [plainCommands]. *)
Definition plain (ev : Event) : Prop :=
  match ev with
  | EvGit _ args => args ∈ plainCommands
  | EvClone _ _ => True
  | _ => False
  end.

End Effects.

(** *** What a repository adds to the report *)

(** The ways in which the report after the task of [localPath] differs
    from the report [r] before it. *)
Inductive Outcome (localPath : string) (r : Result.t) : Result.t -> Prop :=
  | NoEntry : Outcome localPath r r
  | OneCloned : Outcome localPath r (Result.addCloned (RepoResult.mk localPath EmptyString) r)
  | OneUpdated detail :
      Outcome localPath r (Result.addUpdated (RepoResult.mk localPath detail) r)
  | OneSkipped reason detail :
      Outcome localPath r (Result.addSkipped (SkippedRepo.mk localPath reason detail) r)
  | OneWarning msg : Outcome localPath r (Result.addWarning msg r)
  | WarningAndUpdated msg detail :
      Outcome localPath r
        (Result.addUpdated (RepoResult.mk localPath detail) (Result.addWarning msg r)).

(** The paths of the entries of the three buckets that the tasks fill. *)
Definition outcomePaths (r : Result.t) : list string :=
  map RepoResult.Path (Result.Updated r) ++ map RepoResult.Path (Result.Cloned r)
    ++ map SkippedRepo.Path (Result.Skipped r).

(** *** Trees *)

(** The tree without what its [.git] directories hold. *)
Fixpoint stripGit (d : fsnode) : fsnode :=
  match d with
  | Dir n es => Dir n (if String.eqb n ".git" then [] else map stripGit es)
  | _ => d
  end.

(** The entries of the tree below [root], each with the path that
    [filepath.WalkDir] gives it. *)
Inductive Reach (root : fsnode) : list string -> fsnode -> Prop :=
  | Reach_root : Reach root [] root
  | Reach_entry path n es e :
      Reach root path (Dir n es) -> e ∈ es -> Reach root (path ++ [FS.Name e]) e.

(** The entries that are not inside a directory called [.git]. *)
Inductive Visible (root : fsnode) : list string -> fsnode -> Prop :=
  | Visible_root : Visible root [] root
  | Visible_entry path n es e :
      Visible root path (Dir n es) -> n <> ".git" -> e ∈ es ->
      Visible root (path ++ [FS.Name e]) e.

Section Manifest.
Context (lib : GoLib) (Cfg : Config.t).

(** The local path of the identifier [repo] listed in the manifest of
    the directory [relDir]. *)
Definition localPathOf (relDir repo : string) : string :=
  if String.eqb relDir "." then filepath_Base lib repo
  else filepath_Join lib relDir (filepath_Base lib repo).

(** A line that [parseGitjoinFile] keeps. *)
Definition listed (line : string) : Prop :=
  line <> EmptyString /\ HasPrefix line "#" = false.

(** The identifier [v] is a line of the manifest [d]: the file holds a
    line that, trimmed, is [v], and [v] is neither empty nor a comment. *)
Definition manifestLine (d : fsnode) (v : string) : Prop :=
  exists n content text,
    d = File n (inl content)
    /\ text ∈ fst (bufio_ScanLines lib content)
    /\ v = strings_TrimSpace lib text
    /\ listed v.

(** The local path [k] is derived from the identifier [v]: a manifest
    of the tree, outside every [.git] directory, lists [v], and [k] is
    the base name of [v] in the directory of this manifest. *)
Definition Derived (t : fsnode) (k v : string) : Prop :=
  exists path d,
    Visible t path d
    /\ FS.Name d = "gitjoin.txt"
    /\ manifestLine d v
    /\ k = localPathOf (relDirOf lib path) v.

(** The walk fails on the entry [d] with [e]: a manifest that cannot be
    read or scanned, or a directory that cannot be listed. *)
Definition broken (d : fsnode) (e : error) : Prop :=
  match d with
  | File n (inl content) =>
      n = "gitjoin.txt" /\ snd (bufio_ScanLines lib content) = Some e
  | File n (inr e') => n = "gitjoin.txt" /\ e = e'
  | Dir n _ => n = "gitjoin.txt" /\ e = "is a directory"
  | DirErr n e' =>
      (n = "gitjoin.txt" /\ e = "is a directory")
      \/ (n <> ".git" /\ n <> "gitjoin.txt" /\ e = e')
  end.

(** The tree holds such an entry outside every [.git] directory. *)
Definition unreadable (t : fsnode) (e : error) : Prop :=
  exists path d, Visible t path d /\ broken d e.

(** The entry [g] at [path] has been dealt with: the walk did not fail
    on it and, if it is a manifest, none of its local paths made the
    filter fail and those the filter lets through are keys of
    [expected]. *)
Definition processed (expected : gmap string string) (path : list string) (g : fsnode)
  : Prop :=
  (forall e, ~ broken g e)
  /\ (FS.Name g = "gitjoin.txt" ->
      forall v,
        manifestLine g v ->
        (forall e, ~ matchError lib Cfg (localPathOf (relDirOf lib path) v) e)
        /\ (keeps lib Cfg (localPathOf (relDirOf lib path) v) = true ->
            localPathOf (relDirOf lib path) v ∈ dom expected)).

(** The checkout that the directory [g] at [path] marks is among [repos]. *)
Definition marked (repos : list string) (path : list string) (g : fsnode) : Prop :=
  FS.IsDir g = true -> FS.Name g = ".git" -> relDirOf lib path <> "." ->
  relDirOf lib path ∈ repos.

End Manifest.

#[global] Instance listed_dec (line : string) : Decision (listed line) :=
  decide (line <> EmptyString /\ HasPrefix line "#" = false).

(** A decimal digit. *)
Definition digit (c : ascii) : Prop :=
  c ∈ ["0"; "1"; "2"; "3"; "4"; "5"; "6"; "7"; "8"; "9"]%char.

(** *** The report *)

Definition uncommitted (skip : SkippedRepo.t) : Prop :=
  SkippedRepo.Reason skip = "uncommitted changes".

#[global] Instance uncommitted_dec (skip : SkippedRepo.t) : Decision (uncommitted skip) :=
  decide (SkippedRepo.Reason skip = "uncommitted changes").

(** The calls of [s.log] for a bucket: a heading, if it has entries, and
    one call per entry. *)
Definition sectionSize {A} (bucket : list A) : nat :=
  match bucket with
  | [] => 0
  | _ => S (length bucket)
  end.

End Views.

Import Views.

(** * Properties *)

(** One step of a computation: unfold the combinators and reduce the
    projections of the state. *)
Ltac mstep :=
  cbv beta iota zeta
    delta [bind ret throw attempt observe perform updResult storeExisting loadExisting
           Seq.orWarn Seq.warn wrapErr Repo.IsGitRepo clone];
  cbn [Repo.Path world trace result existing negb fst snd].

(** ** Facts about Go strings *)

Module StringFacts.

Lemma app_cons c s t : String c s +:+ t = String c (s +:+ t).
Proof. reflexivity. Qed.

Lemma app_nil_l s : EmptyString +:+ s = s.
Proof. reflexivity. Qed.

Lemma app_nil_r s : s +:+ EmptyString = s.
Proof. induction s as [|c s IH]; [done|]. by rewrite app_cons, IH. Qed.

Lemma app_assoc a b c : (a +:+ b) +:+ c = a +:+ b +:+ c.
Proof. induction a as [|x a IH]; [done|]. by rewrite !app_cons, IH. Qed.

Lemma len_app a b : len (a +:+ b) = len a + len b.
Proof. induction a as [|x a IH]; [done|]. rewrite app_cons. cbn. by rewrite IH. Qed.

Lemma len_zero s : len s = 0 -> s = EmptyString.
Proof. by destruct s. Qed.

Lemma sliceTo_app a b : sliceTo (len a) (a +:+ b) = a.
Proof. induction a as [|x a IH]; [by destruct b|]. rewrite app_cons. cbn. by rewrite IH. Qed.

Lemma sliceFrom_app a b : sliceFrom (len a) (a +:+ b) = b.
Proof. induction a as [|x a IH]; [by destruct b|]. by rewrite app_cons. Qed.

Lemma sliceFrom_0 s : sliceFrom 0 s = s.
Proof. by destruct s. Qed.

Lemma sliceTo_0 s : sliceTo 0 s = EmptyString.
Proof. by destruct s. Qed.

Lemma slice_split n s : sliceTo n s +:+ sliceFrom n s = s.
Proof.
  revert s. induction n as [|n IH]; intros [|c s]; try done.
  cbn. by rewrite app_cons, IH.
Qed.

Lemma len_sliceTo n s : n <= len s -> len (sliceTo n s) = n.
Proof.
  revert s. induction n as [|n IH]; intros [|c s] H; cbn in *; try done; try lia.
  rewrite IH; lia.
Qed.

Lemma len_sliceFrom n s : len (sliceFrom n s) = len s - n.
Proof. revert s. induction n as [|n IH]; intros [|c s]; cbn; try done. Qed.

Lemma sliceFrom_app_le n a b : n <= len a -> sliceFrom n (a +:+ b) = sliceFrom n a +:+ b.
Proof.
  revert a. induction n as [|n IH]; intros a H.
  - by rewrite !sliceFrom_0.
  - destruct a as [|x a]; cbn in H; [lia|]. rewrite app_cons. cbn. apply IH. lia.
Qed.

Lemma sliceFrom_app_ge n a b : sliceFrom (len a + n) (a +:+ b) = sliceFrom n b.
Proof. induction a as [|x a IH]; [done|]. by rewrite app_cons. Qed.

Lemma sliceFrom_app_succ a c b : sliceFrom (len a + 1) (a +:+ String c b) = b.
Proof.
  rewrite sliceFrom_app_ge. cbn. apply sliceFrom_0.
Qed.

Lemma sliceFrom_all n s : len s <= n -> sliceFrom n s = EmptyString.
Proof.
  revert s. induction n as [|n IH]; intros [|c s] H; cbn in *; try done; try lia.
  apply IH. lia.
Qed.

Lemma sliceFrom_sliceFrom n m s : sliceFrom n (sliceFrom m s) = sliceFrom (m + n) s.
Proof.
  revert s. induction m as [|m IH]; intros s.
  - by rewrite sliceFrom_0.
  - destruct s as [|c s]; cbn; [by destruct n|]. apply IH.
Qed.

Lemma byteAt_app a c b : byteAt (a +:+ String c b) (len a) = Some c.
Proof. induction a as [|x a IH]; [done|]. by rewrite app_cons. Qed.

(** *** Prefixes *)

Lemma HasPrefix_nil s : HasPrefix s EmptyString = true.
Proof. by destruct s. Qed.

Lemma HasPrefix_app p s : HasPrefix (p +:+ s) p = true.
Proof.
  induction p as [|c p IH]; [apply HasPrefix_nil|].
  rewrite app_cons. cbn. by rewrite Ascii.eqb_refl, IH.
Qed.

Lemma HasPrefix_true s p : HasPrefix s p = true <-> exists t, s = p +:+ t.
Proof.
  split.
  - revert s. induction p as [|c p IH]; intros s H; [by exists s|].
    destruct s as [|d s]; [done|]. cbn in H.
    apply andb_true_iff in H as [Hc H]. apply Ascii.eqb_eq in Hc as ->.
    destruct (IH _ H) as [t ->]. by exists t.
  - intros [t ->]. apply HasPrefix_app.
Qed.

Lemma HasPrefix_len s p : HasPrefix s p = true -> len p <= len s.
Proof. intros [t ->]%HasPrefix_true. rewrite len_app. lia. Qed.

Lemma HasPrefix_app_l x y p : HasPrefix x p = true -> HasPrefix (x +:+ y) p = true.
Proof.
  intros [t ->]%HasPrefix_true. rewrite app_assoc. apply HasPrefix_app.
Qed.

(** Whether [p] is a prefix is decided by the first [len p] bytes. *)
Lemma HasPrefix_local x y p : len p <= len x -> HasPrefix (x +:+ y) p = HasPrefix x p.
Proof.
  revert x. induction p as [|c p IH]; intros x H; [by rewrite !HasPrefix_nil|].
  destruct x as [|d x]; cbn in H; [lia|]. rewrite app_cons. cbn.
  rewrite IH; [done|lia].
Qed.

(** A byte that [p] does not contain stops every instance of [p] that
    starts before it. *)
Lemma HasPrefix_barrier x c y p :
  hasByte c p = false -> HasPrefix (x +:+ String c y) p = true -> HasPrefix x p = true.
Proof.
  revert x. induction p as [|d p IH]; intros x Hc H; [apply HasPrefix_nil|].
  cbn in Hc. apply orb_false_iff in Hc as [Hd Hc].
  destruct x as [|e x].
  - rewrite app_nil_l in H. cbn in H. apply andb_true_iff in H as [H _].
    rewrite Ascii.eqb_sym in H. congruence.
  - rewrite app_cons in H. cbn in H |- *.
    apply andb_true_iff in H as [-> H]. cbn. by apply IH.
Qed.

(** *** The first instance *)

Lemma indexNat_Some s p i :
  indexNat s p = Some i <->
  i <= len s /\ occursAt s p i /\ forall j, j < i -> ~ occursAt s p j.
Proof.
  unfold occursAt. revert i. induction s as [|c s IH]; intros i.
  - cbn [indexNat]. destruct (HasPrefix EmptyString p) eqn:Hp.
    + split.
      * intros [= <-]. split; [done|]. split; [done|]. intros j Hj; lia.
      * intros (Hi & _ & _). cbn [String.length] in Hi. f_equal. lia.
    + split; [done|]. intros (Hi & H & _). cbn [String.length] in Hi.
      assert (i = 0) as -> by lia. cbn [sliceFrom] in H. congruence.
  - cbn [indexNat]. destruct (HasPrefix (String c s) p) eqn:Hp.
    + split.
      * intros [= <-]. split; [cbn [String.length]; lia|]. split; [done|]. intros j Hj; lia.
      * intros (_ & _ & Hmin). destruct i as [|i]; [done|].
        exfalso. apply (Hmin 0); [lia|done].
    + destruct (indexNat s p) as [k|] eqn:Hk; cbn.
      * destruct (proj1 (IH k) eq_refl) as (Hk1 & Hk2 & Hk3). split.
        -- intros [= <-]. split; [cbn [String.length]; lia|]. split; [done|].
           intros [|j] Hj; cbn [sliceFrom]; [congruence|]. apply Hk3. lia.
        -- intros (Hi & H & Hmin). destruct i as [|i]; [cbn [sliceFrom] in H; congruence|].
           cbn [sliceFrom] in H. f_equal.
           destruct (Nat.lt_trichotomy i k) as [Hlt|[->|Hgt]]; [|done|].
           ++ exfalso. by apply (Hk3 i).
           ++ exfalso. apply (Hmin (S k)); [lia|done].
      * split; [done|]. intros (Hi & H & Hmin).
        destruct i as [|i]; [cbn [sliceFrom] in H; congruence|]. cbn [sliceFrom String.length] in H, Hi.
        assert (@None nat = Some i) as Hi'; [|congruence].
        apply IH. split; [lia|]. split; [done|].
        intros j Hj. apply (Hmin (S j)). lia.
Qed.

Lemma indexNat_None s p : indexNat s p = None <-> forall j, ~ occursAt s p j.
Proof.
  unfold occursAt. induction s as [|c s IH].
  - cbn [indexNat]. destruct (HasPrefix EmptyString p) eqn:Hp.
    + split; [done|]. intros H. exfalso. by apply (H 0).
    + split; [|done]. intros _ [|j]; cbn [sliceFrom]; congruence.
  - cbn [indexNat]. destruct (HasPrefix (String c s) p) eqn:Hp.
    + split; [done|]. intros H. exfalso. by apply (H 0).
    + destruct (indexNat s p) as [k|] eqn:Hk; cbn.
      * split; [done|]. intros H.
        assert (Some k = None) as Hx; [|done]. apply IH. intros j. apply (H (S j)).
      * split; [|done]. intros _ [|j]; cbn [sliceFrom]; [congruence|].
        by apply (proj1 IH).
Qed.

Lemma noOcc_Index p s : noOcc p s <-> Index s p = (-1)%Z.
Proof.
  unfold noOcc, Index. destruct (indexNat s p); split; try done; lia.
Qed.

Lemma noOcc_Contains p s : noOcc p s <-> Contains s p = false.
Proof.
  rewrite noOcc_Index. unfold Contains, Index.
  destruct (indexNat s p); rewrite bool_decide_eq_false; split; try done; lia.
Qed.

Lemma occursAt_app_l x y p j : occursAt x p j -> occursAt (x +:+ y) p j.
Proof.
  unfold occursAt. intros H.
  destruct (decide (j <= len x)) as [Hj|Hj].
  - rewrite sliceFrom_app_le by done. by apply HasPrefix_app_l.
  - rewrite sliceFrom_all in H by lia.
    destruct p; [by rewrite HasPrefix_nil|done].
Qed.

Lemma occursAt_past x p j : p <> EmptyString -> len x <= j -> ~ occursAt x p j.
Proof.
  unfold occursAt. intros Hp Hj. rewrite sliceFrom_all by done. by destruct p.
Qed.

(** Instances in [x ++ c :: y], for a byte [c] outside [p], lie in [x]
    or in [y]. *)
Lemma occursAt_barrier x c y p j :
  p <> EmptyString -> hasByte c p = false ->
  occursAt (x +:+ String c y) p j ->
  (j < len x /\ occursAt x p j) \/ (len x < j /\ occursAt y p (j - len x - 1)).
Proof.
  unfold occursAt. intros Hp Hc H.
  destruct (decide (j <= len x)) as [Hj|Hj].
  - rewrite sliceFrom_app_le in H by done.
    apply HasPrefix_barrier in H; [|done]. left. split; [|done].
    destruct (decide (j = len x)) as [->|]; [|lia].
    rewrite sliceFrom_all in H by done. by destruct p.
  - right. split; [lia|].
    replace j with (len x + S (j - len x - 1)) in H by lia.
    by rewrite sliceFrom_app_ge in H.
Qed.

Lemma noOcc_barrier x c y p :
  p <> EmptyString -> hasByte c p = false ->
  noOcc p x -> noOcc p y -> noOcc p (x +:+ String c y).
Proof.
  unfold noOcc. rewrite !indexNat_None. intros Hp Hc Hx Hy j H.
  apply occursAt_barrier in H as [[_ H]|[_ H]]; [| |done..].
  - by apply (Hx j).
  - by apply (Hy _ H).
Qed.

Lemma noOcc_nil p : p <> EmptyString -> noOcc p EmptyString.
Proof. intros Hp. unfold noOcc. by destruct p. Qed.

(** The first instance of [p] after a prefix free of it and a barrier. *)
Lemma indexNat_after_barrier x c z p :
  p <> EmptyString -> hasByte c p = false -> noOcc p x ->
  indexNat (x +:+ String c (p +:+ z)) p = Some (len x + 1).
Proof.
  intros Hp Hc Hx. apply indexNat_Some. split; [|split].
  - rewrite len_app. cbn. lia.
  - unfold occursAt. rewrite sliceFrom_app_succ. apply HasPrefix_app.
  - intros j Hj H. apply occursAt_barrier in H as [[_ H]|[H _]]; [| lia|done..].
    unfold noOcc in Hx. rewrite indexNat_None in Hx. by apply (Hx j).
Qed.

End StringFacts.

(** ** [strings.Split] *)

Module SplitFacts.
Import StringFacts.

Lemma Join_cons a l sep : l <> [] -> Join (a :: l) sep = a +:+ sep +:+ Join l sep.
Proof. by destruct l. Qed.

Lemma Join_snoc l b sep : l <> [] -> Join (l ++ [b]) sep = Join l sep +:+ sep +:+ b.
Proof.
  induction l as [|a l IH]; [done|]. intros _.
  destruct l as [|a' l]; [done|].
  change ((a :: a' :: l) ++ [b]) with (a :: ((a' :: l) ++ [b])).
  rewrite Join_cons by done. rewrite IH by done.
  rewrite (Join_cons a (a' :: l)) by done. by rewrite !app_assoc.
Qed.

(** The cut at the first instance of [sep]. *)
Lemma indexNat_cut s sep i :
  indexNat s sep = Some i ->
  s = sliceTo i s +:+ sep +:+ sliceFrom (i + len sep) s
  /\ i + len sep <= len s
  /\ noOcc sep (sliceTo i s) \/ sep = EmptyString.
Proof.
  intros Hi. destruct sep as [|c sep]; [by right|]. left.
  apply indexNat_Some in Hi as (Hle & Hocc & Hmin).
  unfold occursAt in Hocc. pose proof (HasPrefix_len _ _ Hocc) as Hlen.
  rewrite len_sliceFrom in Hlen.
  apply HasPrefix_true in Hocc as [t Ht].
  assert (sliceFrom (i + len (String c sep)) s = t) as Hrest.
  { rewrite <- sliceFrom_sliceFrom, Ht. apply sliceFrom_app. }
  split; [|split].
  - rewrite Hrest, <- Ht. symmetry. apply slice_split.
  - cbn [String.length] in *. lia.
  - unfold noOcc. apply indexNat_None. intros j Hj.
    destruct (decide (j < i)) as [Hlt|Hge].
    + apply (Hmin j Hlt). rewrite <- (slice_split i s). by apply occursAt_app_l.
    + revert Hj. apply occursAt_past; [done|]. rewrite len_sliceTo; lia.
Qed.

Lemma countLoop_le fuel s sep : sep <> EmptyString -> countLoop fuel s sep <= len s.
Proof.
  intros Hsep. revert s. induction fuel as [|fuel IH]; intros s; cbn; [lia|].
  destruct (indexNat s sep) as [i|] eqn:Hi; [|lia].
  destruct (indexNat_cut _ _ _ Hi) as [(_ & Hle & _)|]; [|done].
  specialize (IH (sliceFrom (i + len sep) s)). rewrite len_sliceFrom in IH.
  destruct sep; [done|]. cbn [String.length] in *. lia.
Qed.

(** With as many cuts as [strings.Count] finds, the loop of [genSplit]
    cuts at every separator. *)
Lemma genSplitLoop_count fuel s sep :
  sep <> EmptyString -> len s < fuel ->
  exists init b,
    genSplitLoop (countLoop fuel s sep) s sep = init ++ [b]
    /\ Join (init ++ [b]) sep = s
    /\ Forall (noOcc sep) (init ++ [b]).
Proof.
  intros Hsep. revert s. induction fuel as [|fuel IH]; intros s Hfuel; [lia|].
  cbn [countLoop]. destruct (indexNat s sep) as [i|] eqn:Hi.
  - destruct (indexNat_cut _ _ _ Hi) as [(Hs & Hle & Hno)|]; [|done].
    destruct (IH (sliceFrom (i + len sep) s)) as (init & b & Hl & Hj & Hall).
    { rewrite len_sliceFrom. destruct sep; [done|]. cbn [String.length] in *. lia. }
    exists (sliceTo i s :: init), b. cbn [genSplitLoop]. rewrite Hi, Hl.
    split; [done|]. split.
    + change ((sliceTo i s :: init) ++ [b]) with (sliceTo i s :: (init ++ [b])).
      rewrite Join_cons by (by destruct init). rewrite Hj. by rewrite <- Hs.
    + by constructor.
  - exists [], s. cbn [genSplitLoop]. split; [done|]. split; [done|].
    by repeat constructor.
Qed.

Lemma Split_spec s sep :
  sep <> EmptyString ->
  exists init b,
    Split s sep = init ++ [b]
    /\ Join (init ++ [b]) sep = s
    /\ Forall (noOcc sep) (init ++ [b]).
Proof.
  intros Hsep. unfold Split, SplitN. cbn [Z.eqb Z.ltb Z.compare].
  pose proof (countLoop_le (S (len s)) s sep Hsep) as Hc. fold (Count s sep) in Hc.
  destruct (Z.ltb_spec (Z.of_nat (len s) + 1) (Z.of_nat (Count s sep) + 1)) as [Hlt|_];
    [lia|].
  replace (Z.to_nat (Z.of_nat (Count s sep) + 1 - 1)) with (Count s sep) by lia.
  apply genSplitLoop_count; [done|lia].
Qed.

Lemma nth_last_snoc (init : list string) b d :
  nth (length (init ++ [b]) - 1) (init ++ [b]) d = b.
Proof.
  rewrite length_app. cbn [length].
  replace (length init + 1 - 1) with (length init) by lia.
  rewrite app_nth2 by lia. by rewrite Nat.sub_diag.
Qed.

Lemma Split_single (s sep : string) :
  sep <> EmptyString -> Split s sep = [EmptyString] -> s = EmptyString.
Proof.
  intros Hsep H. destruct (Split_spec s sep Hsep) as (init & b & HS & HJ & _).
  rewrite H in HS. destruct init as [|a [|a' init]]; [|done..].
  injection HS as <-. by rewrite <- HJ.
Qed.

Lemma Split_empty (sep : string) : sep <> EmptyString -> Split EmptyString sep = [EmptyString].
Proof.
  intros Hsep. destruct (Split_spec EmptyString sep Hsep) as (init & b & HS & HJ & _).
  rewrite HS. destruct init as [|a init].
  - cbn in HJ. by subst b.
  - exfalso. rewrite <- app_comm_cons in HJ.
    rewrite Join_cons in HJ by (by destruct init).
    apply (f_equal String.length) in HJ. rewrite !len_app in HJ. cbn in HJ.
    destruct sep; [done|]. cbn in HJ. lia.
Qed.

End SplitFacts.

(** ** [DefaultBranch] *)

Module DefaultBranchFacts.
Import StringFacts SplitFacts.

Lemma slash_nonempty : "/" <> EmptyString.
Proof. done. Qed.

(** C10.  The "could not parse default branch" branch of [DefaultBranch]
    is never taken: [strings.Split] on "/" returns at least one element
    for every string, so whenever the [symbolic-ref] invocation succeeds
    [DefaultBranch] returns the last "/"-separated segment of the trimmed
    output; when the invocation fails the error is the one of the
    invocation. *)
Theorem DefaultBranch_parse_error_unreachable
    (lib : GoLib) {W : Type} (host : Host W) (r : Repo.t) (st : State W) :
  fst (Repo.DefaultBranch lib host r st) <> Fail "could not parse default branch"
  /\ (forall s, Split s "/" <> [])
  /\ (forall out st',
        Repo.run host r ["symbolic-ref"; "refs/remotes/origin/HEAD"] st = (Ok out, st') ->
        exists init b,
          Split (strings_TrimSpace lib out) "/" = init ++ [b]
          /\ Repo.DefaultBranch lib host r st = (Ok b, st')
          /\ Contains b "/" = false
          /\ strings_TrimSpace lib out = Join (init ++ [b]) "/").
Proof.
  assert (forall s, Split s "/" <> []) as Hne.
  { intros s. destruct (Split_spec s "/" slash_nonempty) as (init & b & -> & _).
    by destruct init. }
  assert (forall out st',
        Repo.run host r ["symbolic-ref"; "refs/remotes/origin/HEAD"] st = (Ok out, st') ->
        exists init b,
          Split (strings_TrimSpace lib out) "/" = init ++ [b]
          /\ Repo.DefaultBranch lib host r st = (Ok b, st')
          /\ Contains b "/" = false
          /\ strings_TrimSpace lib out = Join (init ++ [b]) "/") as Hok.
  { intros out st' Hrun.
    destruct (Split_spec (strings_TrimSpace lib out) "/" slash_nonempty)
      as (init & b & Hsplit & Hjoin & Hall).
    exists init, b. split; [done|]. split; [|split].
    - unfold Repo.DefaultBranch, bind. rewrite Hrun, Hsplit.
      rewrite nth_last_snoc. rewrite length_app. cbn [length].
      destruct (Nat.eqb_spec (length init + 1) 0) as [|_]; [lia|done].
    - apply noOcc_Contains. rewrite Forall_app in Hall. destruct Hall as [_ Hb].
      by inversion Hb.
    - done. }
  split; [|split]; [|done..].
  destruct (Repo.run host r ["symbolic-ref"; "refs/remotes/origin/HEAD"] st)
    as [[out|e] st'] eqn:Hrun.
  - destruct (Hok _ _ eq_refl) as (init & b & _ & -> & _). done.
  - unfold Repo.DefaultBranch, bind. rewrite Hrun. cbn [fst].
    revert Hrun. unfold Repo.run, bind, perform.
    destruct (RunGit host (Repo.Path r) _ (world st)) as [[o|[err stderr]] w']; [done|].
    unfold throw. intros [= <- _]. rewrite app_cons. done.
Qed.

Lemma DefaultBranch_parse_error_unreachable_witness :
  exists init b,
    Split (strings_TrimSpace Sim.lib ("refs/remotes/origin/main" +:+ LF)) "/" = init ++ [b]
    /\ Repo.DefaultBranch Sim.lib (Sim.host calm) (Repo.mk "/r/a") (Sim.start withCheckout)
       = (Ok b, snd (Repo.run (Sim.host calm) (Repo.mk "/r/a")
                       ["symbolic-ref"; "refs/remotes/origin/HEAD"]
                       (Sim.start withCheckout)))
    /\ Contains b "/" = false
    /\ strings_TrimSpace Sim.lib ("refs/remotes/origin/main" +:+ LF) = Join (init ++ [b]) "/".
Proof.
  apply (proj2 (proj2 (DefaultBranch_parse_error_unreachable Sim.lib (Sim.host calm)
                         (Repo.mk "/r/a") (Sim.start withCheckout)))
           ("refs/remotes/origin/main" +:+ LF)
           (snd (Repo.run (Sim.host calm) (Repo.mk "/r/a")
                   ["symbolic-ref"; "refs/remotes/origin/HEAD"]
                   (Sim.start withCheckout)))
           eq_refl).
Defined.

Example default_branch_main :
  fst (Repo.DefaultBranch Sim.lib (Sim.host calm) (Repo.mk "/r/a") (Sim.start withCheckout))
  = Ok "main".
Proof. reflexivity. Qed.

End DefaultBranchFacts.

(** ** [repoPathToURL] *)

Module URLFacts.
Import StringFacts.

Lemma noOcc_byte c s : Contains s (String c EmptyString) = false <-> hasByte c s = false.
Proof.
  rewrite <- noOcc_Contains. unfold noOcc. induction s as [|d s IH]; [done|].
  cbn [indexNat HasPrefix hasByte]. rewrite andb_true_r.
  destruct (Ascii.eqb d c); cbn [orb]; [done|].
  rewrite <- IH. by destruct (indexNat s (String c EmptyString)).
Qed.

Lemma indexNat_byte c host rest :
  hasByte c host = false ->
  indexNat (host +:+ String c rest) (String c EmptyString) = Some (len host).
Proof.
  induction host as [|d host IH]; intros H.
  - rewrite app_nil_l. cbn. by rewrite Ascii.eqb_refl.
  - cbn [hasByte] in H. apply orb_false_iff in H as [Hd H].
    rewrite app_cons. cbn [indexNat HasPrefix]. rewrite Hd. cbn [andb].
    by rewrite (IH H).
Qed.

Lemma SplitN_two host rest :
  Contains host "/" = false ->
  SplitN (host +:+ "/" +:+ rest) "/" 2 = [host; rest].
Proof.
  intros H%noOcc_byte. unfold SplitN. cbn [Z.eqb Z.ltb Z.compare].
  destruct (Z.ltb_spec (Z.of_nat (len (host +:+ "/" +:+ rest)) + 1) 2) as [Hlt|_].
  { rewrite len_app in Hlt. cbn [String.length] in Hlt.
    rewrite app_cons in Hlt. cbn [String.length] in Hlt. lia. }
  change (Z.to_nat (2 - 1)) with 1. cbn [genSplitLoop].
  change ("/" +:+ rest) with (String "/" rest).
  rewrite (indexNat_byte _ _ _ H).
  by rewrite sliceTo_app, sliceFrom_app_succ.
Qed.

(** C9, as the two listings have it.  For an identifier [host/rest]
    whose [host] has no "/", [repoPathToURL] of the first listing gives
    [https://host/rest.git] when [GITHUB_ACTIONS] is a non-empty string
    in the environment and [git@host:rest.git] otherwise; the one of the
    second listing does not read the environment and always gives
    [git@host:rest.git]. *)
Theorem repoPathToURL_access_rule (getenv : string -> string) (host rest : string) :
  Contains host "/" = false ->
  Pool.repoPathToURL getenv (host +:+ "/" +:+ rest)
  = (if String.eqb (getenv "GITHUB_ACTIONS") EmptyString
     then "git@" +:+ host +:+ ":" +:+ rest +:+ ".git"
     else "https://" +:+ host +:+ "/" +:+ rest +:+ ".git")
  /\ Seq.repoPathToURL (host +:+ "/" +:+ rest) = "git@" +:+ host +:+ ":" +:+ rest +:+ ".git".
Proof.
  intros H. unfold Pool.repoPathToURL, Seq.repoPathToURL.
  rewrite (SplitN_two _ _ H). cbn [length Nat.eqb negb nth].
  by destruct (String.eqb (getenv "GITHUB_ACTIONS") EmptyString).
Qed.

Lemma repoPathToURL_access_rule_witness :
  Pool.repoPathToURL (fun _ => "true") "github.com/bep/gitjoin"
  = "https://github.com/bep/gitjoin.git"
  /\ Seq.repoPathToURL "github.com/bep/gitjoin" = "git@github.com:bep/gitjoin.git".
Proof.
  apply (repoPathToURL_access_rule (fun _ => "true") "github.com" "bep/gitjoin").
  reflexivity.
Defined.

(** C9 fails on the second listing: with [GITHUB_ACTIONS] set, the
    loop of [run] clones a missing repository from the [git@] address. *)
Lemma repoPathToURL_seq_ignores_environment :
  let st := Sim.start (Dir "r" []) in
  Getenv (Sim.host inActions) "GITHUB_ACTIONS" (world st) = "true"
  /\ trace (snd (Seq.syncRepo Sim.lib (Sim.cfg false EmptyString) (Sim.host inActions)
                   "gitjoin" "github.com/bep/gitjoin" st))
     = [EvClone "git@github.com:bep/gitjoin.git" "/r/gitjoin"]
  /\ Seq.repoPathToURL "github.com/bep/gitjoin" <> "https://github.com/bep/gitjoin.git".
Proof. vm_compute. repeat split; congruence. Qed.

End URLFacts.

(** ** The managed block of [.gitignore] *)

Module GitignoreFacts.
Import StringFacts SplitFacts.
Import Pool.

Lemma LF_app z : LF +:+ z = String "010" z.
Proof. reflexivity. Qed.

Lemma Start_nonempty : gitignoreStart <> EmptyString.
Proof. done. Qed.

Lemma End_nonempty : gitignoreEnd <> EmptyString.
Proof. done. Qed.

Lemma End_no_LF : hasByte "010" gitignoreEnd = false.
Proof. reflexivity. Qed.

Lemma End_no_slash : hasByte "/" gitignoreEnd = false.
Proof. reflexivity. Qed.

Lemma Start_no_LF : hasByte "010" gitignoreStart = false.
Proof. reflexivity. Qed.

Lemma Start_no_End : noOcc gitignoreEnd gitignoreStart.
Proof. reflexivity. Qed.

Lemma len_End_le_Start : len gitignoreEnd <= len gitignoreStart.
Proof. cbn. lia. Qed.

Lemma writeAll_cons a l : writeAll (a :: l) = a +:+ writeAll l.
Proof. reflexivity. Qed.

Lemma writeAll_app l1 l2 : writeAll (l1 ++ l2) = writeAll l1 +:+ writeAll l2.
Proof.
  induction l1 as [|a l1 IH]; [done|].
  change ((a :: l1) ++ l2) with (a :: (l1 ++ l2)).
  by rewrite !writeAll_cons, IH, app_assoc.
Qed.

Section WithLib.
Context (lib : GoLib).

Lemma managedBlock_shape keys :
  managedBlock lib keys
  = gitignoreStart +:+ LF +:+ body lib keys +:+ gitignoreEnd +:+ LF.
Proof.
  unfold managedBlock, body. fold (entry lib).
  rewrite writeAll_app, writeAll_app. cbn [writeAll foldr].
  by rewrite !app_nil_r, !app_assoc.
Qed.

Lemma sortStrings_Permutation (l l' : list string) :
  l ≡ₚ l' -> sortStrings l = sortStrings l'.
Proof.
  intros Hp. unfold sortStrings.
  apply (Sorted_unique String.le); try apply Sorted_merge_sort; try apply _.
  by rewrite !merge_sort_Permutation.
Qed.

(** The block does not depend on the order in which the map is
    ranged over. *)
Lemma managedBlock_Permutation keys keys' :
  keys ≡ₚ keys' -> managedBlock lib keys = managedBlock lib keys'.
Proof.
  intros Hp. unfold managedBlock.
  by rewrite (sortStrings_Permutation _ (map (fun k => ToSlash lib k +:+ "/") keys'))
    by (by apply Permutation_map).
Qed.

(** The first end marker after a text [Y] free of it, a line feed
    and lines free of it. *)
Lemma end_index (Y : string) (lines : list string) (rest : string) :
  noOcc gitignoreEnd Y ->
  Forall (noOcc gitignoreEnd) lines ->
  indexNat (Y +:+ LF +:+ writeAll (map (fun p => p +:+ LF) lines)
              +:+ gitignoreEnd +:+ rest) gitignoreEnd
  = Some (len Y + 1 + len (writeAll (map (fun p => p +:+ LF) lines))).
Proof.
  intros HY Hl. revert Y HY. induction Hl as [|p lines Hp Hl IH]; intros Y HY.
  - cbn [map writeAll foldr]. rewrite app_nil_l, LF_app. cbn [String.length].
    rewrite Nat.add_0_r.
    apply indexNat_after_barrier; [apply End_nonempty|apply End_no_LF|done].
  - cbn [map]. rewrite writeAll_cons.
    replace (Y +:+ LF +:+ ((p +:+ LF) +:+ writeAll (map (fun p => p +:+ LF) lines))
               +:+ gitignoreEnd +:+ rest)
      with ((Y +:+ LF +:+ p) +:+ LF +:+ writeAll (map (fun p => p +:+ LF) lines)
               +:+ gitignoreEnd +:+ rest)
      by (by rewrite !app_assoc).
    rewrite IH.
    + f_equal. rewrite !len_app. change (len LF) with 1. lia.
    + rewrite LF_app. apply noOcc_barrier;
        [apply End_nonempty|apply End_no_LF|done|done].
Qed.

(** The first start marker, when no instance begins before [pre]
    ends. *)
Lemma start_index (pre z : string) :
  (forall j, j < len pre -> ~ occursAt (pre +:+ gitignoreStart) gitignoreStart j) ->
  indexNat (pre +:+ gitignoreStart +:+ z) gitignoreStart = Some (len pre).
Proof.
  intros Hmin. apply indexNat_Some. split; [|split].
  - rewrite len_app. lia.
  - unfold occursAt. rewrite sliceFrom_app. apply HasPrefix_app.
  - intros j Hj H. apply (Hmin j Hj). revert H. unfold occursAt.
    rewrite <- (app_assoc pre). rewrite (sliceFrom_app_le j (pre +:+ gitignoreStart))
      by (rewrite len_app; lia).
    rewrite HasPrefix_local; [done|].
    rewrite len_sliceFrom, len_app. lia.
Qed.

(** A content that already holds the block at the place the
    markers point to is left as it is. *)
Lemma newContent_fixed (keys : list string) (pre post : string) :
  let c := pre +:+ managedBlock lib keys +:+ post in
  indexNat c gitignoreStart = Some (len pre) ->
  indexNat c gitignoreEnd = Some (len pre + len gitignoreStart + 1 + len (body lib keys)) ->
  newContent (managedBlock lib keys) c = c.
Proof.
  intros c Hs He. unfold newContent.
  assert (len (managedBlock lib keys)
          = len gitignoreStart + 1 + len (body lib keys) + len gitignoreEnd + 1) as HlenM.
  { rewrite managedBlock_shape, !len_app. change (len LF) with 1. lia. }
  assert (len c = len pre + len (managedBlock lib keys) + len post) as Hlenc.
  { unfold c. rewrite !len_app. lia. }
  destruct (Nat.eqb_spec (len c) 0) as [H0|_]; [lia|].
  unfold Index. rewrite Hs, He.
  destruct (Z.leb_spec 0 (Z.of_nat (len pre))) as [_|]; [|lia].
  destruct (Z.ltb_spec (Z.of_nat (len pre))
              (Z.of_nat (len pre + len gitignoreStart + 1 + len (body lib keys))))
    as [_|]; [|lia].
  cbn [andb].
  set (e := (Z.of_nat (len pre + len gitignoreStart + 1 + len (body lib keys))
             + Z.of_nat (len gitignoreEnd))%Z).
  assert (Z.to_nat e = len (pre +:+ gitignoreStart +:+ LF +:+ body lib keys +:+ gitignoreEnd))
    as Hnat.
  { unfold e. rewrite !len_app. change (len LF) with 1. lia. }
  assert (c = (pre +:+ gitignoreStart +:+ LF +:+ body lib keys +:+ gitignoreEnd)
                +:+ String "010" post) as Hc.
  { unfold c. rewrite managedBlock_shape, !app_assoc. by rewrite LF_app. }
  destruct (Z.ltb_spec e (Z.of_nat (len c))) as [_|Hge]; [|lia].
  rewrite bool_decide_eq_true_2; [|rewrite Hnat, Hc; apply byteAt_app].
  cbn [andb].
  replace (Z.to_nat (Z.of_nat (len pre))) with (len pre) by lia.
  replace (Z.to_nat (e + 1)) with (len (pre +:+ managedBlock lib keys)).
  2:{ rewrite len_app, HlenM. lia. }
  unfold c at 1. rewrite sliceTo_app.
  unfold c. rewrite <- (app_assoc pre (managedBlock lib keys) post), sliceFrom_app.
  by rewrite app_assoc.
Qed.

Lemma entries_free_of_End (keys : list string) :
  (forall k, k ∈ keys -> Contains (ToSlash lib k) gitignoreEnd = false) ->
  Forall (noOcc gitignoreEnd) (sortStrings (map (entry lib) keys)).
Proof.
  intros Hk. apply Forall_forall. intros p Hp.
  unfold sortStrings in Hp. rewrite merge_sort_Permutation in Hp.
  apply list_elem_of_fmap in Hp as (k & -> & Hin).
  unfold entry. change "/" with (String "/" EmptyString).
  apply noOcc_barrier;
    [apply End_nonempty|apply End_no_slash| |apply noOcc_nil, End_nonempty].
  apply noOcc_Contains. by apply Hk.
Qed.

Lemma newContent_embedded (keys : list string) (pre post : string) :
  (forall j, j < len pre -> ~ occursAt (pre +:+ gitignoreStart) gitignoreStart j) ->
  noOcc gitignoreEnd (pre +:+ gitignoreStart) ->
  Forall (noOcc gitignoreEnd) (sortStrings (map (entry lib) keys)) ->
  newContent (managedBlock lib keys) (pre +:+ managedBlock lib keys +:+ post)
  = pre +:+ managedBlock lib keys +:+ post.
Proof.
  intros Hs He Hk. apply newContent_fixed.
  - rewrite managedBlock_shape, !app_assoc. by apply start_index.
  - rewrite managedBlock_shape.
    replace (pre +:+ (gitignoreStart +:+ LF +:+ body lib keys +:+ gitignoreEnd +:+ LF)
               +:+ post)
      with ((pre +:+ gitignoreStart) +:+ LF +:+ body lib keys +:+ gitignoreEnd
               +:+ (LF +:+ post))
      by (by rewrite !app_assoc).
    unfold body. rewrite end_index by done. f_equal. rewrite len_app. lia.
Qed.

(** The three ways of [newContent]. *)
Lemma newContent_empty (managed : string) : newContent managed EmptyString = managed.
Proof. reflexivity. Qed.

Lemma newContent_append (managed c : string) :
  c <> EmptyString ->
  ~ (0 <= Index c gitignoreStart < Index c gitignoreEnd)%Z ->
  newContent managed c = withLF c +:+ LF +:+ managed.
Proof.
  intros Hc Hidx. unfold newContent.
  destruct (Nat.eqb_spec (len c) 0) as [H0|_]; [by apply len_zero in H0|].
  destruct (Z.leb_spec 0 (Index c gitignoreStart));
    destruct (Z.ltb_spec (Index c gitignoreStart) (Index c gitignoreEnd));
    cbn [andb]; try done; lia.
Qed.

Lemma byteAt_Some_lt s i c : byteAt s i = Some c -> i < len s.
Proof.
  unfold byteAt. revert i. induction s as [|d s IH]; intros [|i] H; cbn in *;
    try done; try lia.
  apply IH in H. lia.
Qed.

Lemma newContent_replace (managed c : string) (s e : nat) :
  indexNat c gitignoreStart = Some s ->
  indexNat c gitignoreEnd = Some e ->
  s < e ->
  newContent managed c = sliceTo s c +:+ managed +:+ sliceFrom (regionEnd c e) c.
Proof.
  intros Hs He Hlt. unfold newContent, Index, regionEnd. rewrite Hs, He.
  destruct (indexNat_cut _ _ _ He) as [(_ & Hle & _)|]; [|done].
  destruct (Nat.eqb_spec (len c) 0) as [H0|_].
  { cbn [String.length] in Hle. lia. }
  destruct (Z.leb_spec 0 (Z.of_nat s)); [|lia].
  destruct (Z.ltb_spec (Z.of_nat s) (Z.of_nat e)); [|lia].
  cbn [andb].
  replace (Z.to_nat (Z.of_nat e + Z.of_nat (len gitignoreEnd)))
    with (e + len gitignoreEnd) by lia.
  replace (Z.to_nat (Z.of_nat s)) with s by lia.
  destruct (bool_decide (byteAt c (e + len gitignoreEnd) = Some "010"%char)) eqn:Hb.
  - apply bool_decide_eq_true in Hb. pose proof (byteAt_Some_lt _ _ _ Hb).
    destruct (Z.ltb_spec (Z.of_nat e + Z.of_nat (len gitignoreEnd))
                (Z.of_nat (len c))); [|lia].
    cbn [andb]. do 3 f_equal. lia.
  - rewrite andb_false_r. do 3 f_equal. lia.
Qed.

Lemma noOcc_withLF p c : hasByte "010" p = false -> p <> EmptyString ->
  noOcc p c -> noOcc p (withLF c).
Proof.
  intros Hp Hne Hc. unfold withLF. destruct (negb (HasSuffix c LF)); [|done].
  unfold LF. apply noOcc_barrier; [done|done|done|by apply noOcc_nil].
Qed.

(** C5, as the code has it.  Writing the block twice gives the same
    bytes as writing it once, whatever the order in which the map is
    ranged over, provided no local path contains the text of the end
    marker and the initial content is empty, holds neither marker, or
    has its first start marker before its first end marker. *)
Theorem updateGitignore_idempotent (keys keys' : list string) (c : string) :
  keys ≡ₚ keys' ->
  (forall k, k ∈ keys -> Contains (ToSlash lib k) gitignoreEnd = false) ->
  c = EmptyString
  \/ (Index c gitignoreStart = (-1)%Z /\ Index c gitignoreEnd = (-1)%Z)
  \/ (0 <= Index c gitignoreStart < Index c gitignoreEnd)%Z ->
  newContent (managedBlock lib keys') (newContent (managedBlock lib keys) c)
  = newContent (managedBlock lib keys) c.
Proof.
  intros Hperm Hkeys Hc.
  rewrite <- (managedBlock_Permutation keys keys' Hperm).
  pose proof (entries_free_of_End keys Hkeys) as Hfree.
  destruct (decide (c = EmptyString)) as [->|Hne].
  { rewrite newContent_empty.
    rewrite <- (app_nil_r (managedBlock lib keys)) at 2 3.
    apply (newContent_embedded keys EmptyString EmptyString); [|apply Start_no_End|done].
    intros j Hj. cbn in Hj. lia. }
  destruct Hc as [Hc|[[Hs He]|Hidx]]; [done| |].
  - assert (~ (0 <= Index c gitignoreStart < Index c gitignoreEnd)%Z) as Hno
      by (rewrite Hs; lia).
    rewrite (newContent_append _ c Hne Hno).
    apply noOcc_Index in Hs, He.
    rewrite <- (app_nil_r (managedBlock lib keys)) at 2 3.
    rewrite <- !(app_assoc (withLF c) LF).
    apply newContent_embedded; [| |done].
    + intros j Hj H. rewrite app_assoc, LF_app in H.
      apply occursAt_barrier in H as [[_ H]|[H _]];
        [| |apply Start_nonempty|apply Start_no_LF].
      * pose proof (noOcc_withLF _ _ Start_no_LF Start_nonempty Hs) as Hx.
        unfold noOcc in Hx. rewrite indexNat_None in Hx. by apply (Hx j).
      * rewrite len_app in Hj. change (len LF) with 1 in Hj. lia.
    + rewrite app_assoc, LF_app. apply noOcc_barrier;
        [apply End_nonempty|apply End_no_LF| |apply Start_no_End].
      by apply noOcc_withLF; [apply End_no_LF|apply End_nonempty|].
  - unfold Index in Hidx.
    destruct (indexNat c gitignoreStart) as [s|] eqn:Hs; [|lia].
    destruct (indexNat c gitignoreEnd) as [e|] eqn:He; [|lia].
    assert (s < e) as Hlt by lia.
    rewrite (newContent_replace _ _ _ _ Hs He Hlt).
    destruct (indexNat_cut _ _ _ Hs) as [(Hcut & _ & _)|]; [|done].
    pose proof Hs as (Hsle & _ & Hsmin)%indexNat_Some.
    pose proof He as (_ & _ & Hemin)%indexNat_Some.
    assert (c = (sliceTo s c +:+ gitignoreStart)
                  +:+ sliceFrom (s + len gitignoreStart) c) as Hcut'.
    { by rewrite app_assoc. }
    apply newContent_embedded; [| |done].
    + intros j Hj H. rewrite len_sliceTo in Hj by done.
      apply (Hsmin j Hj). rewrite Hcut'. by apply occursAt_app_l.
    + unfold noOcc. apply indexNat_None. intros j H.
      assert (occursAt c gitignoreEnd j) as Hcj.
      { rewrite Hcut'. by apply occursAt_app_l. }
      assert (e <= j) as Hej.
      { destruct (decide (e <= j)); [done|]. exfalso. apply (Hemin j); [lia|done]. }
      unfold occursAt in H.
      replace j with (len (sliceTo s c) + (j - s)) in H
        by (rewrite len_sliceTo by done; lia).
      rewrite sliceFrom_app_ge in H.
      pose proof Start_no_End as Hx. unfold noOcc in Hx. rewrite indexNat_None in Hx.
      by apply (Hx (j - s)).
Qed.

(** C6, as the code has it.  The block is the start marker, the
    entries [localPath/] in increasing byte order, one per line, and
    the end marker.  An empty or absent file becomes the block alone.
    In a non-empty file whose first start marker comes before its
    first end marker, the bytes from that start marker through that
    end marker and the line feed after it are replaced by the block
    and every other byte is kept.  Any other non-empty file is kept
    whole, ended with a line feed if it was not, and followed by an
    empty line and the block. *)
Theorem updateGitignore_frame (keys : list string) (c : string) :
  let managed := managedBlock lib keys in
  (exists paths,
      Sorted String.le paths
      /\ paths ≡ₚ map (fun k => ToSlash lib k +:+ "/") keys
      /\ managed = gitignoreStart +:+ LF +:+ writeAll (map (fun p => p +:+ LF) paths)
                     +:+ gitignoreEnd +:+ LF)
  /\ (c = EmptyString -> newContent managed c = managed)
  /\ (c <> EmptyString ->
      (0 <= Index c gitignoreStart < Index c gitignoreEnd)%Z ->
      exists pre region post,
        c = pre +:+ region +:+ post
        /\ newContent managed c = pre +:+ managed +:+ post
        /\ Z.of_nat (len pre) = Index c gitignoreStart
        /\ len pre + len region = regionEnd c (Z.to_nat (Index c gitignoreEnd)))
  /\ (c <> EmptyString ->
      ~ (0 <= Index c gitignoreStart < Index c gitignoreEnd)%Z ->
      newContent managed c
      = c +:+ (if HasSuffix c LF then EmptyString else LF) +:+ LF +:+ managed).
Proof.
  intros managed. split; [|split; [|split]].
  - exists (sortStrings (map (entry lib) keys)). split; [|split].
    + apply Sorted_merge_sort; apply _.
    + apply merge_sort_Permutation.
    + apply managedBlock_shape.
  - by intros ->.
  - intros Hne Hidx. unfold Index in Hidx |- *.
    destruct (indexNat c gitignoreStart) as [s|] eqn:Hs; [|lia].
    destruct (indexNat c gitignoreEnd) as [e|] eqn:He; [|lia].
    assert (s < e) as Hlt by lia.
    destruct (indexNat_cut _ _ _ He) as [(_ & Hle & _)|]; [|done].
    assert (regionEnd c e <= len c) as Hre.
    { unfold regionEnd. destruct (bool_decide _) eqn:Hb; [|done].
      apply bool_decide_eq_true in Hb. apply byteAt_Some_lt in Hb. lia. }
    assert (e + len gitignoreEnd <= regionEnd c e) as Hre'.
    { unfold regionEnd. destruct (bool_decide _); lia. }
    exists (sliceTo s c), (sliceTo (regionEnd c e - s) (sliceFrom s c)),
      (sliceFrom (regionEnd c e) c).
    split; [|split; [|split]].
    + rewrite <- (slice_split s c) at 1. f_equal.
      rewrite <- (slice_split (regionEnd c e - s) (sliceFrom s c)) at 1. f_equal.
      rewrite sliceFrom_sliceFrom. f_equal. lia.
    + by apply newContent_replace.
    + rewrite len_sliceTo; lia.
    + rewrite Nat2Z.id. rewrite !len_sliceTo; rewrite ?len_sliceFrom; lia.
  - intros Hne Hidx. rewrite (newContent_append _ _ Hne Hidx). unfold withLF.
    destruct (HasSuffix c LF); cbn [negb]; [done|]. by rewrite app_assoc.
Qed.

End WithLib.
End GitignoreFacts.

(** ** The managed block on concrete files *)

Module GitignoreExamples.
Import Pool GitignoreFacts.

Lemma updateGitignore_idempotent_witness :
  newContent (managedBlock Sim.lib ["a"; "b"])
    (newContent (managedBlock Sim.lib ["b"; "a"]) "node_modules/")
  = newContent (managedBlock Sim.lib ["b"; "a"]) "node_modules/".
Proof.
  apply (updateGitignore_idempotent Sim.lib ["b"; "a"] ["a"; "b"] "node_modules/").
  - apply perm_swap.
  - intros k Hk. apply elem_of_cons in Hk as [->|Hk]; [reflexivity|].
    apply elem_of_cons in Hk as [->|Hk]; [reflexivity|].
    by apply elem_of_nil in Hk.
  - right. left. split; reflexivity.
Defined.

(** C5 fails for a file that holds the end marker and no start marker
    before it: every run appends one more block. *)
Lemma updateGitignore_appends_again :
  let t := Dir "r" [File ".gitignore" (inl (gitignoreEnd +:+ LF))] in
  let once := ignoreAfter ∅ t in
  let twice := ignoreAfter ∅ (snd once) in
  fst once = ReadOk (newContent (managedBlock Sim.lib []) (gitignoreEnd +:+ LF))
  /\ fst twice <> fst once
  /\ newContent (managedBlock Sim.lib [])
       (newContent (managedBlock Sim.lib []) (gitignoreEnd +:+ LF))
     <> newContent (managedBlock Sim.lib []) (gitignoreEnd +:+ LF).
Proof.
  cbv zeta. split; [|split].
  - vm_compute. reflexivity.
  - vm_compute. intros [=].
  - intros H. apply (f_equal String.length) in H. vm_compute in H. discriminate.
Qed.

Lemma updateGitignore_frame_witness :
  exists pre region post,
    sample = pre +:+ region +:+ post
    /\ newContent (managedBlock Sim.lib ["repo"]) sample
       = pre +:+ managedBlock Sim.lib ["repo"] +:+ post
    /\ Z.of_nat (len pre) = Index sample gitignoreStart
    /\ len pre + len region = regionEnd sample (Z.to_nat (Index sample gitignoreEnd)).
Proof.
  apply (proj1 (proj2 (proj2 (updateGitignore_frame Sim.lib ["repo"] sample)))).
  - intros H. discriminate H.
  - vm_compute. split; [intros H; discriminate H|reflexivity].
Defined.

Example sample_replaced :
  newContent (managedBlock Sim.lib ["repo"]) sample
  = "build/" +:+ LF +:+ managedBlock Sim.lib ["repo"] +:+ "dist/" +:+ LF.
Proof. vm_compute. reflexivity. Qed.

(** C6 fails for a file that exists and is empty: it lacks the
    markers, yet the block is written without an empty line before it.
    It also fails for a file that holds both marker lines with the end
    marker first: the block is appended and nothing is replaced. *)
Lemma updateGitignore_empty_file_and_reversed_markers :
  let managed := managedBlock Sim.lib [] in
  let t := Dir "r" [File ".gitignore" (inl EmptyString)] in
  let c := gitignoreEnd +:+ LF +:+ gitignoreStart +:+ LF +:+ gitignoreEnd +:+ LF in
  (Sim.readFile "/r/.gitignore" (Sim.MkWorld t 0) = ReadOk EmptyString
   /\ fst (ignoreAfter ∅ t) = ReadOk managed
   /\ HasPrefix managed LF = false
   /\ HasSuffix managed (LF +:+ managed) = false)
  /\ (Contains c (gitignoreStart +:+ LF) = true
      /\ Contains c (gitignoreEnd +:+ LF) = true
      /\ newContent managed c = c +:+ LF +:+ managed).
Proof. vm_compute. repeat split; reflexivity. Qed.

End GitignoreExamples.

(** ** Synchronising one repository *)

Module SyncFacts.
Import StringFacts SplitFacts.

(** Run the body of a repository along its inspections, up to the
    decision on the force flag. *)
Ltac through_inspection Hstat Hgit H1 H2 H3 Hforce :=
  mstep; rewrite Hstat; mstep; rewrite Hgit; mstep; rewrite H1; mstep; rewrite H2; mstep;
  rewrite H3; mstep; rewrite Hforce; mstep.

Section WithHost.
Context (lib : GoLib) (Cfg : Config.t) {W : Type} (host : Host W).

Lemma run_trace (r : Repo.t) (args : list string) (st st' : State W) (res : Res error string) :
  Repo.run host r args st = (res, st') ->
  trace st' = trace st ++ [EvGit (Repo.Path r) args]
  /\ result st' = result st /\ existing st' = existing st.
Proof.
  unfold Repo.run, bind, perform.
  destruct (RunGit host (Repo.Path r) args (world st)) as [[out|[e err]] w'];
    cbn; by intros [= <- <-].
Qed.

Lemma inspected_trace localPath st db cb dirty st3 :
  inspected lib Cfg host localPath st db cb dirty st3 ->
  trace st3 = trace st ++ [EvGit (fullPathOf lib Cfg localPath) ["symbolic-ref"; "refs/remotes/origin/HEAD"];
                           EvGit (fullPathOf lib Cfg localPath) ["branch"; "--show-current"];
                           EvGit (fullPathOf lib Cfg localPath) ["status"; "--porcelain"]]
  /\ result st3 = result st
  /\ existing st3 = {[ localPath ]} ∪ existing st.
Proof.
  intros (_ & _ & st1 & st2 & H1 & H2 & H3).
  unfold Repo.DefaultBranch, Repo.CurrentBranch, Repo.HasUncommittedChanges, bind in *.
  destruct (Repo.run host _ _ (stored localPath st)) as [[o1|e1] s1] eqn:R1; [|done].
  destruct (Repo.run host _ _ st1) as [[o2|e2] s2] eqn:R2; [|done].
  destruct (Repo.run host _ _ st2) as [[o3|e3] s3] eqn:R3; [|done].
  apply run_trace in R1 as (T1 & Q1 & X1), R2 as (T2 & Q2 & X2), R3 as (T3 & Q3 & X3).
  assert (s1 = st1) as ->.
  { destruct (length _ =? 0) in H1; [done|]. by injection H1. }
  injection H2 as _ <-. injection H3 as _ <-.
  rewrite T3, T2, T1, Q3, Q2, Q1, X3, X2, X1. cbn. by rewrite <- !(assoc_L (++)).
Qed.


Lemma ChangesSummary_total (r : Repo.t) (st : State W) :
  exists summary st',
    (forall E, Repo.ChangesSummary (E:=E) lib host r st = (Ok summary, st'))
    /\ trace st' = trace st ++ [EvGit (Repo.Path r) ["status"; "--porcelain"]]
    /\ result st' = result st /\ existing st' = existing st.
Proof.
  unfold Repo.ChangesSummary, bind, attempt.
  destruct (Repo.run host r ["status"; "--porcelain"] st) as [res st'] eqn:Hrun.
  apply run_trace in Hrun as (T & Q & X).
  set (lines := Split (strings_TrimSpace lib match res with Ok o => o | Fail _ => EmptyString end) LF).
  destruct ((length lines =? 1) && String.eqb (nth 0 lines EmptyString) EmptyString) eqn:Hc.
  - exists "no changes", st'. split; [|done]. intros E. done.
  - destruct (Repo.countChanges lines 0 0 0) as [[m a] d].
    destruct (0 <? m), (0 <? a), (0 <? d); cbn [app length Nat.eqb];
      eexists _, st'; (split; [intros E; reflexivity|done]).
Qed.



(** *** The force path *)

Lemma unit_run_frame (r : Repo.t) (args : list string) (st st' : State W) (res : Res error unit) :
  (_ <- Repo.run host r args ;; ret tt) st = (res, st') ->
  trace st' = trace st ++ [EvGit (Repo.Path r) args]
  /\ result st' = result st /\ existing st' = existing st.
Proof.
  unfold bind. destruct (Repo.run host r args st) as [[o|e] s1] eqn:R;
    apply run_trace in R; cbn; intros [= _ <-]; done.
Qed.

Lemma Pull_frame (r : Repo.t) (st st' : State W) (res : Res error bool) :
  Repo.Pull host r st = (res, st') -> result st' = result st /\ existing st' = existing st.
Proof.
  unfold Repo.Pull, bind.
  destruct (Repo.run host r ["rev-parse"; "HEAD"] st) as [[o1|e1] s1] eqn:R1;
    apply run_trace in R1 as (_ & Q1 & X1); [|intros [= _ <-]; done].
  destruct (Repo.run host r ["pull"] s1) as [[o2|e2] s2] eqn:R2;
    apply run_trace in R2 as (_ & Q2 & X2); [|intros [= _ <-]; split; congruence].
  destruct (Repo.run host r ["rev-parse"; "HEAD"] s2) as [[o3|e3] s3] eqn:R3;
    apply run_trace in R3 as (_ & Q3 & X3); intros [= _ <-]; split; congruence.
Qed.

(** With the force flag, in terms of what [Stash], [SwitchBranch],
    [Pull] and [Unstash] return. *)
Lemma force_trail_joined (localPath repoPath : string) (st : State W)
    (db cb : string) (st3 : State W) :
  Config.Force Cfg = true ->
  inspected lib Cfg host localPath st db cb true st3 ->
  cb <> db ->
  (forall r st',
      Pool.processRepo lib Cfg host false localPath repoPath st = (r, st') ->
      Result.Updated (result st') = Result.Updated (result st)
      \/ exists changed,
          Result.Updated (result st')
          = Result.Updated (result st)
              ++ [RepoResult.mk localPath (joinDetails (trail db changed true))])
  /\ (forall r st',
        Seq.syncRepo lib Cfg host localPath repoPath st = (r, st') ->
        Result.Updated (result st') = Result.Updated (result st)
        \/ exists changed unstashed,
            Result.Updated (result st')
            = Result.Updated (result st)
                ++ [RepoResult.mk localPath (joinDetails (trail db changed unstashed))])
  /\ (forall s4 s5 changed s6 ru s7,
        Repo.Stash host (repoOf lib Cfg localPath) st3 = (Ok tt, s4) ->
        Repo.SwitchBranch host (repoOf lib Cfg localPath) db s4 = (Ok tt, s5) ->
        Repo.Pull host (repoOf lib Cfg localPath) s5 = (Ok changed, s6) ->
        Repo.Unstash host (repoOf lib Cfg localPath) s6 = (ru, s7) ->
        match ru with
        | Ok _ =>
            Pool.processRepo lib Cfg host false localPath repoPath st
            = (Ok tt, withResult (Result.addUpdated
                                    (RepoResult.mk localPath
                                       (joinDetails (trail db changed true)))) s7)
            /\ Seq.syncRepo lib Cfg host localPath repoPath st
               = (Ok tt, withResult (Result.addUpdated
                                       (RepoResult.mk localPath
                                          (joinDetails (trail db changed true)))) s7)
        | Fail e =>
            Seq.syncRepo lib Cfg host localPath repoPath st
            = (Ok tt,
               withResult (Result.addUpdated
                             (RepoResult.mk localPath
                                (joinDetails (trail db changed false))))
                 (withResult (Result.addWarning
                                ("unstash failed (conflicts?): " +:+ localPath
                                   +:+ ": " +:+ e)) s7))
        end).
Proof.
  intros Hforce Hins Hne.
  pose proof (inspected_trace _ _ _ _ _ _ Hins) as (T3 & Q3 & X3).
  destruct Hins as (Hstat & Hgit & st1 & st2 & H1 & H2 & H3).
  unfold repoOf, fullPathOf, stored in *.
  apply String.eqb_neq in Hne.
  split; [|split].
  - intros r st'. unfold Pool.processRepo. through_inspection Hstat Hgit H1 H2 H3 Hforce.
    rewrite Hne. mstep.
    unfold Repo.Stash, Repo.SwitchBranch, Repo.Unstash. mstep.
    destruct (Repo.run host _ ["stash"; "push"; "-m"; "gitjoin"] st3) as [[o4|e4] s4] eqn:R4;
      apply run_trace in R4 as (_ & Q4 & _); [|intros [= _ <-]; left; congruence].
    destruct (Repo.run host _ ["switch"; db] s4) as [[o5|e5] s5] eqn:R5;
      apply run_trace in R5 as (_ & Q5 & _); [|intros [= _ <-]; left; congruence].
    destruct (Repo.Pull host _ s5) as [[changed|e6] s6] eqn:R6;
      apply Pull_frame in R6 as (Q6 & _); [|intros [= _ <-]; left; congruence].
    destruct (Repo.run host _ ["stash"; "pop"] s6) as [[o7|e7] s7] eqn:R7;
      apply run_trace in R7 as (_ & Q7 & _); [|intros [= _ <-]; left; congruence].
    destruct changed; cbn; intros [= _ <-]; right; cbn;
      [exists true|exists false]; by rewrite Q7, Q6, Q5, Q4, Q3.
  - intros r st'. unfold Seq.syncRepo. through_inspection Hstat Hgit H1 H2 H3 Hforce.
    rewrite Hne. mstep.
    unfold Repo.Stash, Repo.SwitchBranch, Repo.Unstash. mstep.
    destruct (Repo.run host _ ["stash"; "push"; "-m"; "gitjoin"] st3) as [[o4|e4] s4] eqn:R4;
      apply run_trace in R4 as (_ & Q4 & _); [|intros [= _ <-]; left; cbn; congruence].
    destruct (Repo.run host _ ["switch"; db] s4) as [[o5|e5] s5] eqn:R5;
      apply run_trace in R5 as (_ & Q5 & _); [|intros [= _ <-]; left; cbn; congruence].
    destruct (Repo.Pull host _ s5) as [[changed|e6] s6] eqn:R6;
      apply Pull_frame in R6 as (Q6 & _); [|intros [= _ <-]; left; cbn; congruence].
    destruct (Repo.run host _ ["stash"; "pop"] s6) as [[o7|e7] s7] eqn:R7;
      apply run_trace in R7 as (_ & Q7 & _);
      destruct changed; cbn; intros [= _ <-]; right; cbn.
    + exists true, true. by rewrite Q7, Q6, Q5, Q4, Q3.
    + exists false, true. by rewrite Q7, Q6, Q5, Q4, Q3.
    + exists true, false. by rewrite Q7, Q6, Q5, Q4, Q3.
    + exists false, false. by rewrite Q7, Q6, Q5, Q4, Q3.
  - intros s4 s5 changed s6 ru s7 HS HW HP HU.
    unfold Pool.processRepo, Seq.syncRepo. through_inspection Hstat Hgit H1 H2 H3 Hforce.
    rewrite Hne. mstep.
    rewrite HS. mstep. rewrite HW. mstep. rewrite HP. mstep. rewrite HU.
    destruct ru as [[]|e]; destruct changed; done.
Qed.


(** Once a task has failed, the tasks that follow find the context
    cancelled and leave the state as it is. *)
(** A command that succeeds, and one that fails, as [r.run] reports them. *)
Lemma run_ok (r : Repo.t) (args : list string) (st : State W) (out : string) (w' : W) :
  RunGit host (Repo.Path r) args (world st) = (inl out, w') ->
  Repo.run host r args st
  = (Ok out, MkState w' (trace st ++ [EvGit (Repo.Path r) args]) (result st) (existing st)).
Proof. intros H. unfold Repo.run. mstep. by rewrite H. Qed.

Lemma run_failed (r : Repo.t) (args : list string) (st : State W)
    (err stderr : string) (w' : W) :
  RunGit host (Repo.Path r) args (world st) = (inr (err, stderr), w') ->
  Repo.run host r args st
  = (Fail ("git " +:+ Join args " " +:+ ": " +:+ err +:+ ": " +:+ stderr),
     MkState w' (trace st ++ [EvGit (Repo.Path r) args]) (result st) (existing st)).
Proof. intros H. unfold Repo.run. mstep. by rewrite H. Qed.

(** [Pull] when its three commands succeed. *)
Lemma Pull_ok (r : Repo.t) (st : State W) (before out after : string) (w1 w2 w3 : W) :
  RunGit host (Repo.Path r) ["rev-parse"; "HEAD"] (world st) = (inl before, w1) ->
  RunGit host (Repo.Path r) ["pull"] w1 = (inl out, w2) ->
  RunGit host (Repo.Path r) ["rev-parse"; "HEAD"] w2 = (inl after, w3) ->
  Repo.Pull host r st
  = (Ok (negb (String.eqb before after)),
     MkState w3
       (trace st ++ [EvGit (Repo.Path r) ["rev-parse"; "HEAD"]; EvGit (Repo.Path r) ["pull"];
                     EvGit (Repo.Path r) ["rev-parse"; "HEAD"]])
       (result st) (existing st)).
Proof.
  intros H1 H2 H3. unfold Repo.Pull. mstep.
  rewrite (run_ok _ _ _ _ _ H1). mstep.
  rewrite (run_ok r ["pull"] (MkState w1 _ _ _) out w2 H2). mstep.
  rewrite (run_ok r ["rev-parse"; "HEAD"] (MkState w2 _ _ _) after w3 H3). mstep.
  by rewrite <- !(assoc_L (++)).
Qed.

Lemma joinDetails_trail (db : string) (changed unstashed : bool) :
  joinDetails (trail db changed unstashed) = trailText db changed unstashed.
Proof.
  unfold joinDetails, trail, trailText. destruct changed, unstashed; cbn [app Join].
  all: rewrite ?StringFacts.app_assoc; reflexivity.
Qed.

Lemma countChanges_counts (lines : list string) (m a d : nat) :
  Repo.countChanges lines m a d
  = (m + countLines modifiedLine lines, a + countLines addedLine lines,
     d + countLines deletedLine lines).
Proof.
  revert m a d. induction lines as [|line rest IH]; intros m a d.
  { cbn. by rewrite !Nat.add_0_r. }
  cbn [Repo.countChanges]. unfold countLines, modifiedLine, addedLine, deletedLine in *.
  cbn [List.filter].
  destruct (Nat.ltb_spec (len line) 2) as [Hlt|Hge].
  { replace (2 <=? len line) with false by (symmetry; apply Nat.leb_gt; lia).
    cbn [andb]. apply IH. }
  replace (2 <=? len line) with true by (symmetry; apply Nat.leb_le; lia). cbn [andb].
  destruct (Contains (sliceTo 2 line) "M"); cbn [negb andb].
  { rewrite IH. cbn [length]. by rewrite Nat.add_succ_r. }
  destruct (Contains (sliceTo 2 line) "A" || Contains (sliceTo 2 line) "?"); cbn [negb andb].
  { rewrite IH. cbn [length]. by rewrite Nat.add_succ_r. }
  destruct (Contains (sliceTo 2 line) "D"); rewrite IH; cbn [length]; [|done].
  by rewrite Nat.add_succ_r.
Qed.

(** [ChangesSummary] returns the summary of what [git status] printed,
    and of nothing when the command failed. *)
Lemma ChangesSummary_changeSummary {E} (r : Repo.t) (st : State W)
    (res : string + error * string) (w' : W) :
  RunGit host (Repo.Path r) ["status"; "--porcelain"] (world st) = (res, w') ->
  Repo.ChangesSummary (E:=E) lib host r st
  = (Ok (changeSummary lib match res with inl out => out | inr _ => EmptyString end),
     MkState w' (trace st ++ [EvGit (Repo.Path r) ["status"; "--porcelain"]])
       (result st) (existing st)).
Proof.
  intros Hrun. unfold Repo.ChangesSummary, Repo.run. mstep. rewrite Hrun.
  set (out := match res with inl out => out | inr _ => EmptyString end).
  destruct res as [o|[err stderr]]; mstep; subst out.
  all: unfold changeSummary;
    match goal with |- context [Split (strings_TrimSpace lib ?o) LF] =>
      set (lines := Split (strings_TrimSpace lib o) LF);
      destruct ((length lines =? 1) && String.eqb (nth 0 lines EmptyString) EmptyString)
        eqn:Hc;
      [ apply andb_true_iff in Hc as [Hlen Hnth];
        apply Nat.eqb_eq in Hlen; apply String.eqb_eq in Hnth;
        assert (strings_TrimSpace lib o = EmptyString) as ->
          by (apply (Split_single _ LF); [done|]; fold lines;
              destruct lines as [|l [|l' ?]]; try done; cbn in Hnth; by subst l);
        done
      | assert (String.eqb (strings_TrimSpace lib o) EmptyString = false) as ->
          by (apply String.eqb_neq; intros He; subst lines; rewrite He in Hc;
              rewrite Split_empty in Hc by done; done);
        rewrite countChanges_counts; cbn [Nat.add]; unfold tally;
        destruct (0 <? countLines modifiedLine lines);
        destruct (0 <? countLines addedLine lines);
        destruct (0 <? countLines deletedLine lines); reflexivity ]
    end.
Qed.

Lemma unit_run_ok (r : Repo.t) (args : list string) (st : State W) (out : string) (w' : W) :
  RunGit host (Repo.Path r) args (world st) = (inl out, w') ->
  (_ <- Repo.run host r args ;; ret tt) st
  = (Ok tt, MkState w' (trace st ++ [EvGit (Repo.Path r) args]) (result st) (existing st)).
Proof. intros H. unfold bind. by rewrite (run_ok _ _ _ _ _ H). Qed.

Lemma unit_run_failed (r : Repo.t) (args : list string) (st : State W)
    (err stderr : string) (w' : W) :
  RunGit host (Repo.Path r) args (world st) = (inr (err, stderr), w') ->
  (_ <- Repo.run host r args ;; ret tt) st
  = (Fail ("git " +:+ Join args " " +:+ ": " +:+ err +:+ ": " +:+ stderr),
     MkState w' (trace st ++ [EvGit (Repo.Path r) args]) (result st) (existing st)).
Proof. intros H. unfold bind. by rewrite (run_failed _ _ _ _ _ _ H). Qed.



(** C3.  A dirty checkout away from its default branch, synchronised
    with the force flag, gets at most one Updated entry, and the detail
    of that entry is the text "stashed, switched to <default>", followed
    by ", pulled" if the pull changed the head and then by ", unstashed"
    if the stash was restored.  When the commands succeed they are run in
    the order stash, switch, pull, unstash and the entry is recorded with
    this text; when only [git stash pop] fails, the loop of the second
    listing records the text without ", unstashed". *)
Theorem force_trail_order (localPath repoPath : string) (st : State W)
    (db cb : string) (st3 : State W) :
  Config.Force Cfg = true ->
  inspected lib Cfg host localPath st db cb true st3 ->
  cb <> db ->
  (forall r st',
      Pool.processRepo lib Cfg host false localPath repoPath st = (r, st') ->
      Result.Updated (result st') = Result.Updated (result st)
      \/ exists changed,
          Result.Updated (result st')
          = Result.Updated (result st)
              ++ [RepoResult.mk localPath (trailText db changed true)])
  /\ (forall r st',
        Seq.syncRepo lib Cfg host localPath repoPath st = (r, st') ->
        Result.Updated (result st') = Result.Updated (result st)
        \/ exists changed unstashed,
            Result.Updated (result st')
            = Result.Updated (result st)
                ++ [RepoResult.mk localPath (trailText db changed unstashed)])
  /\ (forall o4 w4 o5 w5 before w6 o7 w7 after w8 res w9,
        let dir := fullPathOf lib Cfg localPath in
        RunGit host dir ["stash"; "push"; "-m"; "gitjoin"] (world st3) = (inl o4, w4) ->
        RunGit host dir ["switch"; db] w4 = (inl o5, w5) ->
        RunGit host dir ["rev-parse"; "HEAD"] w5 = (inl before, w6) ->
        RunGit host dir ["pull"] w6 = (inl o7, w7) ->
        RunGit host dir ["rev-parse"; "HEAD"] w7 = (inl after, w8) ->
        RunGit host dir ["stash"; "pop"] w8 = (res, w9) ->
        let changed := negb (String.eqb before after) in
        let commands :=
          [EvGit dir ["stash"; "push"; "-m"; "gitjoin"]; EvGit dir ["switch"; db];
           EvGit dir ["rev-parse"; "HEAD"]; EvGit dir ["pull"];
           EvGit dir ["rev-parse"; "HEAD"]; EvGit dir ["stash"; "pop"]] in
        match res with
        | inl _ =>
            let final :=
              MkState w9 (trace st3 ++ commands)
                (Result.addUpdated (RepoResult.mk localPath (trailText db changed true))
                   (result st3))
                (existing st3) in
            Pool.processRepo lib Cfg host false localPath repoPath st = (Ok tt, final)
            /\ Seq.syncRepo lib Cfg host localPath repoPath st = (Ok tt, final)
        | inr (err, stderr) =>
            Seq.syncRepo lib Cfg host localPath repoPath st
            = (Ok tt,
               MkState w9 (trace st3 ++ commands)
                 (Result.addUpdated (RepoResult.mk localPath (trailText db changed false))
                    (Result.addWarning
                       ("unstash failed (conflicts?): " +:+ localPath +:+ ": "
                          +:+ ("git stash pop: " +:+ err +:+ ": " +:+ stderr))
                       (result st3)))
                 (existing st3))
        end).
Proof.
  intros Hforce Hins Hne.
  destruct (force_trail_joined localPath repoPath st db cb st3 Hforce Hins Hne)
    as (HP & HS & Hfull).
  split; [|split].
  - intros r st' H. destruct (HP r st' H) as [|[changed Hc]]; [by left|right].
    exists changed. by rewrite <- joinDetails_trail.
  - intros r st' H. destruct (HS r st' H) as [|(changed & unstashed & Hc)]; [by left|right].
    exists changed, unstashed. by rewrite <- joinDetails_trail.
  - intros o4 w4 o5 w5 before w6 o7 w7 after w8 res w9 dir H4 H5 H6 H7 H8 H9 changed commands.
    pose proof (unit_run_ok (repoOf lib Cfg localPath) _ st3 o4 w4 H4) as E4.
    match type of E4 with _ = (_, ?s4) =>
      pose proof (unit_run_ok (repoOf lib Cfg localPath) ["switch"; db] s4 o5 w5 H5) as E5
    end.
    cbn [world trace result existing] in E5.
    match type of E5 with _ = (_, ?s5) =>
      pose proof (Pull_ok (repoOf lib Cfg localPath) s5 before o7 after w6 w7 w8 H6 H7 H8)
        as E6
    end.
    cbn [world trace result existing] in E6.
    destruct res as [o9|[err stderr]].
    + match type of E6 with _ = (_, ?s6) =>
        pose proof (unit_run_ok (repoOf lib Cfg localPath) ["stash"; "pop"] s6 o9 w9 H9)
          as E7
      end.
      cbn [world trace result existing] in E7.
      destruct (Hfull _ _ _ _ _ _ E4 E5 E6 E7) as [EP ES].
      rewrite EP, ES, joinDetails_trail. unfold withResult. cbn [world trace result existing].
      subst commands. cbn [Repo.Path repoOf]. fold dir. rewrite <- !(assoc_L (++)). done.
    + match type of E6 with _ = (_, ?s6) =>
        pose proof (unit_run_failed (repoOf lib Cfg localPath) ["stash"; "pop"] s6
                      err stderr w9 H9) as E7
      end.
      cbn [world trace result existing] in E7.
      pose proof (Hfull _ _ _ _ _ _ E4 E5 E6 E7) as ES. cbn beta iota in ES.
      rewrite ES, joinDetails_trail. unfold withResult. cbn [world trace result existing].
      subst commands. cbn [Repo.Path repoOf]. fold dir. rewrite <- !(assoc_L (++)). done.
Qed.


Lemma runTasks_cancelled (e : error) (pairs : list (string * string)) (st : State W) :
  Pool.runTasks lib Cfg host (Some e) pairs st = (Fail e, st).
Proof.
  induction pairs as [|[lp rp] rest IH]; [done|].
  cbn [Pool.runTasks]. mstep.
  rewrite bool_decide_eq_true_2 by done. cbn [Pool.processRepo]. mstep. apply IH.
Qed.




(** *** Failures of one repository *)

Lemma DefaultBranch_frame (r : Repo.t) (st st' : State W) (res : Res error string) :
  Repo.DefaultBranch lib host r st = (res, st') -> result st' = result st.
Proof.
  unfold Repo.DefaultBranch, bind.
  destruct (Repo.run host r _ st) as [[o|e] s1] eqn:R; apply run_trace in R as (_ & Q & _).
  - destruct (length _ =? 0); by intros [= _ <-].
  - by intros [= _ <-].
Qed.

Lemma CurrentBranch_frame (r : Repo.t) (st st' : State W) (res : Res error string) :
  Repo.CurrentBranch lib host r st = (res, st') -> result st' = result st.
Proof.
  unfold Repo.CurrentBranch, bind.
  destruct (Repo.run host r _ st) as [[o|e] s1] eqn:R; apply run_trace in R as (_ & Q & _);
    by intros [= _ <-].
Qed.

Lemma HasUncommittedChanges_frame (r : Repo.t) (st st' : State W) (res : Res error bool) :
  Repo.HasUncommittedChanges lib host r st = (res, st') -> result st' = result st.
Proof.
  unfold Repo.HasUncommittedChanges, bind.
  destruct (Repo.run host r _ st) as [[o|e] s1] eqn:R; apply run_trace in R as (_ & Q & _);
    by intros [= _ <-].
Qed.

(** [processRepo] never writes to [Warnings]. *)
Lemma processRepo_no_warning (ctxDone : bool) (localPath repoPath : string)
    (st st' : State W) (r : Res error unit) :
  Pool.processRepo lib Cfg host ctxDone localPath repoPath st = (r, st') ->
  Result.Warnings (result st') = Result.Warnings (result st).
Proof.
  unfold Pool.processRepo. destruct ctxDone; [by intros [= _ <-]|]. mstep.
  destruct (StatNotExist host _ (world st)); mstep.
  { destruct (RunClone host _ _ (world st)) as [[e|] w']; by intros [= _ <-]. }
  destruct (StatIsDir host _ (world st)); mstep; [|by intros [= _ <-]].
  destruct (Repo.DefaultBranch lib host _ _) as [[db|e1] s1] eqn:R1;
    apply DefaultBranch_frame in R1 as Q1; cbn in Q1; [|by intros [= _ <-]; rewrite Q1].
  destruct (Repo.CurrentBranch lib host _ s1) as [[cb|e2] s2] eqn:R2;
    apply CurrentBranch_frame in R2 as Q2; [|intros [= _ <-]; congruence].
  destruct (Repo.HasUncommittedChanges lib host _ s2) as [[dirty|e3] s3] eqn:R3;
    apply HasUncommittedChanges_frame in R3 as Q3; [|intros [= _ <-]; congruence].
  assert (result s3 = result st) as Q by congruence. clear Q1 Q2 Q3.
  destruct (Config.Force Cfg); mstep.
  - destruct dirty; mstep.
    + destruct (Repo.Stash host _ s3) as [[[]|e4] s4] eqn:R4;
        apply unit_run_frame in R4 as (_ & Q4 & _); [|intros [= _ <-]; congruence].
      destruct (negb (String.eqb cb db)); mstep.
      * destruct (Repo.SwitchBranch host _ db s4) as [[[]|e5] s5] eqn:R5;
          apply unit_run_frame in R5 as (_ & Q5 & _); [|intros [= _ <-]; congruence].
        destruct (Repo.Pull host _ s5) as [[changed|e6] s6] eqn:R6;
          apply Pull_frame in R6 as (Q6 & _); [|intros [= _ <-]; congruence].
        destruct (Repo.Unstash host _ s6) as [[[]|e7] s7] eqn:R7;
          apply unit_run_frame in R7 as (_ & Q7 & _); [|intros [= _ <-]; congruence].
        destruct changed; cbn; intros [= _ <-]; cbn; congruence.
      * destruct (Repo.Pull host _ s4) as [[changed|e6] s6] eqn:R6;
          apply Pull_frame in R6 as (Q6 & _); [|intros [= _ <-]; congruence].
        destruct (Repo.Unstash host _ s6) as [[[]|e7] s7] eqn:R7;
          apply unit_run_frame in R7 as (_ & Q7 & _); [|intros [= _ <-]; congruence].
        destruct changed; cbn; intros [= _ <-]; cbn; congruence.
    + destruct (negb (String.eqb cb db)); mstep.
      * destruct (Repo.SwitchBranch host _ db s3) as [[[]|e5] s5] eqn:R5;
          apply unit_run_frame in R5 as (_ & Q5 & _); [|intros [= _ <-]; congruence].
        destruct (Repo.Pull host _ s5) as [[changed|e6] s6] eqn:R6;
          apply Pull_frame in R6 as (Q6 & _); [|intros [= _ <-]; congruence].
        destruct changed; cbn; intros [= _ <-]; cbn; congruence.
      * destruct (Repo.Pull host _ s3) as [[changed|e6] s6] eqn:R6;
          apply Pull_frame in R6 as (Q6 & _); [|intros [= _ <-]; congruence].
        destruct changed; cbn; intros [= _ <-]; cbn; congruence.
  - destruct dirty; mstep.
    + destruct (ChangesSummary_total (Repo.mk (filepath_Join lib (Config.Root Cfg) localPath)) s3)
        as (summary & s4 & Hsum & _ & Q4 & _).
      rewrite Hsum. intros [= _ <-]. cbn. congruence.
    + destruct (negb (String.eqb cb db)); mstep.
      * intros [= _ <-]. cbn. congruence.
      * destruct (Repo.Pull host _ s3) as [[changed|e6] s6] eqn:R6;
          apply Pull_frame in R6 as (Q6 & _); [|intros [= _ <-]; congruence].
        destruct changed; cbn; intros [= _ <-]; cbn; congruence.
Qed.








End WithHost.
End SyncFacts.

(** ** Runs of the synchroniser on simulated checkouts *)

Module SyncExamples.
Import SyncFacts.

(** The states of the three inspections of [a] under the script [sc]. *)
Lemma inspected_a (Cfg : Config.t) (sc : Sim.Script) (db cb : string) (dirty : bool) :
  Config.Root Cfg = Sim.root ->
  Repo.DefaultBranch Sim.lib (Sim.host sc) (repoA Cfg) (stored "a" s0) = (Ok db, s1 Cfg sc) ->
  Repo.CurrentBranch Sim.lib (Sim.host sc) (repoA Cfg) (s1 Cfg sc) = (Ok cb, s2 Cfg sc) ->
  Repo.HasUncommittedChanges Sim.lib (Sim.host sc) (repoA Cfg) (s2 Cfg sc)
  = (Ok dirty, s3 Cfg sc) ->
  inspected Sim.lib Cfg (Sim.host sc) "a" s0 db cb dirty (s3 Cfg sc).
Proof.
  intros Hroot H1 H2 H3. unfold inspected, fullPathOf. rewrite Hroot.
  split; [reflexivity|]. split; [reflexivity|]. by exists (s1 Cfg sc), (s2 Cfg sc).
Defined.


Example skipped_dirty :
  result (snd (Seq.syncRepo Sim.lib unforced (Sim.host (script "main" modified never false))
                 "a" "github.com/bep/a" s0))
  = Result.mk [] [] [] [SkippedRepo.mk "a" "uncommitted changes" "1 modified"] [].
Proof. vm_compute. reflexivity. Qed.


Lemma force_trail_order_witness :
  let commands :=
    [EvGit "/r/a" ["stash"; "push"; "-m"; "gitjoin"]; EvGit "/r/a" ["switch"; "main"];
     EvGit "/r/a" ["rev-parse"; "HEAD"]; EvGit "/r/a" ["pull"];
     EvGit "/r/a" ["rev-parse"; "HEAD"]; EvGit "/r/a" ["stash"; "pop"]] in
  (let final :=
     MkState (Sim.MkWorld withCheckout 9) (trace (s3 forced dirtyFeature) ++ commands)
       (Result.addUpdated
          (RepoResult.mk "a" "stashed, switched to main, pulled, unstashed") Result.zero)
       (existing (s3 forced dirtyFeature)) in
   Pool.processRepo Sim.lib forced (Sim.host dirtyFeature) false "a" "github.com/bep/a" s0
   = (Ok tt, final)
   /\ Seq.syncRepo Sim.lib forced (Sim.host dirtyFeature) "a" "github.com/bep/a" s0
      = (Ok tt, final))
  /\ Seq.syncRepo Sim.lib forced (Sim.host conflict) "a" "github.com/bep/a" s0
     = (Ok tt,
        MkState (Sim.MkWorld withCheckout 9) (trace (s3 forced conflict) ++ commands)
          (Result.addUpdated (RepoResult.mk "a" "stashed, switched to main, pulled")
             (Result.addWarning
                "unstash failed (conflicts?): a: git stash pop: exit status 1: fatal: failed"
                Result.zero))
          (existing (s3 forced conflict))).
Proof.
  intros commands. split.
  - destruct (force_trail_order Sim.lib forced (Sim.host dirtyFeature) "a" "github.com/bep/a"
                s0 "main" "feature" (s3 forced dirtyFeature)
                eq_refl (inspected_a forced dirtyFeature "main" "feature" true
                           eq_refl eq_refl eq_refl eq_refl)
                ltac:(discriminate))
      as (_ & _ & Hfull).
    exact (Hfull EmptyString (Sim.MkWorld withCheckout 4) EmptyString
             (Sim.MkWorld withCheckout 5) "5" (Sim.MkWorld withCheckout 6) EmptyString
             (Sim.MkWorld withCheckout 7) "7" (Sim.MkWorld withCheckout 8)
             (inl EmptyString) (Sim.MkWorld withCheckout 9)
             eq_refl eq_refl eq_refl eq_refl eq_refl eq_refl).
  - destruct (force_trail_order Sim.lib forced (Sim.host conflict) "a" "github.com/bep/a"
                s0 "main" "feature" (s3 forced conflict)
                eq_refl (inspected_a forced conflict "main" "feature" true
                           eq_refl eq_refl eq_refl eq_refl)
                ltac:(discriminate))
      as (_ & _ & Hfull).
    exact (Hfull EmptyString (Sim.MkWorld withCheckout 4) EmptyString
             (Sim.MkWorld withCheckout 5) "5" (Sim.MkWorld withCheckout 6) EmptyString
             (Sim.MkWorld withCheckout 7) "7" (Sim.MkWorld withCheckout 8)
             (inr ("exit status 1", "fatal: failed")) (Sim.MkWorld withCheckout 9)
             eq_refl eq_refl eq_refl eq_refl eq_refl eq_refl).
Defined.

Example full_trail :
  joinDetails (trail "main" true true) = "stashed, switched to main, pulled, unstashed".
Proof. reflexivity. Qed.





End SyncExamples.

(** ** Walks *)

Module WalkFacts.

Lemma fsnode_ind' (P : fsnode -> Prop) :
  (forall n data, P (File n data)) ->
  (forall n es, Forall P es -> P (Dir n es)) ->
  (forall n e, P (DirErr n e)) ->
  forall d, P d.
Proof.
  intros HF HD HE. fix IH 1. intros [n data|n es|n e]; [apply HF| |apply HE].
  apply HD. induction es as [|d es IHes]; constructor; [apply IH|apply IHes].
Qed.

(** Two walks of one tree whose callbacks stay in step: as long as the
    states are related by [I] the callbacks give the same answer, or the
    first one stops with an error that [B] accepts against the state of
    the second, which then only grows along [le]. *)
Section Simulation.
Context {S1 S2 : Type}.
Variable fn1 : list string -> option fsnode -> option error -> S1 -> WalkCtl * S1.
Variable fn2 : list string -> option fsnode -> option error -> S2 -> WalkCtl * S2.
Variable I : S1 -> S2 -> Prop.
Variable B : error -> S2 -> Prop.
Variable le : S2 -> S2 -> Prop.

Hypothesis le_refl : forall s, le s s.
Hypothesis le_trans : forall s s' s'', le s s' -> le s' s'' -> le s s''.
Hypothesis B_mono : forall e s s', B e s -> le s s' -> B e s'.
Hypothesis fn2_mono : forall path d err s, le s (snd (fn2 path d err s)).
Hypothesis fn_step :
  forall path d err s1 s2, I s1 s2 -> InStep I B (fn1 path d err s1) (fn2 path d err s2).

Lemma walkEntries_mono (walk : list string -> fsnode -> S2 -> WalkCtl * S2) path es :
  Forall (fun d => forall p s, le s (snd (walk p d s))) es ->
  forall s, le s (snd (walkEntries walk path es s)).
Proof.
  induction 1 as [|d es Hd Hes IH]; intros s; cbn; [apply le_refl|].
  specialize (Hd (path ++ [FS.Name d]) s).
  destruct (walk (path ++ [FS.Name d]) d s) as [[| |e] s']; cbn in *; [|done..].
  eapply le_trans; [apply Hd|apply IH].
Qed.

Lemma walkDir_mono d : forall path s, le s (snd (walkDir fn2 path d s)).
Proof.
  induction d as [n data|n es IH|n e] using fsnode_ind'; intros path s; cbn [walkDir].
  - pose proof (fn2_mono path (Some (File n data)) None s) as H.
    destruct (fn2 path (Some (File n data)) None s) as [[| |e] s1]; done.
  - pose proof (fn2_mono path (Some (Dir n es)) None s) as H.
    destruct (fn2 path (Some (Dir n es)) None s) as [[| |e] s1]; cbn in *; [|done..].
    eapply le_trans; [apply H|]. by apply walkEntries_mono.
  - pose proof (fn2_mono path (Some (DirErr n e)) None s) as H.
    destruct (fn2 path (Some (DirErr n e)) None s) as [[| |e'] s1]; cbn in *; [|done..].
    pose proof (fn2_mono path (Some (DirErr n e)) (Some e) s1) as H'.
    destruct (fn2 path (Some (DirErr n e)) (Some e) s1) as [[| |e'] s2]; cbn in *;
      by eapply le_trans.
Qed.

Lemma walkEntries_step path es :
  Forall (fun d => forall p s1 s2, I s1 s2 ->
                   InStep I B (walkDir fn1 p d s1) (walkDir fn2 p d s2)) es ->
  forall s1 s2, I s1 s2 ->
    InStep I B (walkEntries (walkDir fn1) path es s1) (walkEntries (walkDir fn2) path es s2).
Proof.
  induction 1 as [|d es Hd Hes IH]; intros s1 s2 HI; cbn [walkEntries].
  { left. done. }
  specialize (Hd (path ++ [FS.Name d]) s1 s2 HI).
  assert (forall s, le s (snd (walkEntries (walkDir fn2) path es s))) as Hmono.
  { apply walkEntries_mono. apply Forall_forall. intros d' _. apply walkDir_mono. }
  destruct Hd as [[Hc HI']|(e & Hc & HB)].
  - destruct (walkDir fn1 _ d s1) as [c1 s1'], (walkDir fn2 _ d s2) as [c2 s2'].
    cbn in Hc, HI'. subst c2. destruct c1 as [| |e]; [by apply IH|by left|by left].
  - destruct (walkDir fn1 _ d s1) as [c1 s1'], (walkDir fn2 _ d s2) as [c2 s2'].
    cbn in Hc, HB. subst c1. right. exists e. split; [done|].
    destruct c2 as [| |e2]; cbn; [|done..].
    eapply B_mono; [apply HB|apply Hmono].
Qed.

Lemma walkDir_step d :
  forall path s1 s2, I s1 s2 -> InStep I B (walkDir fn1 path d s1) (walkDir fn2 path d s2).
Proof.
  induction d as [n data|n es IH|n e] using fsnode_ind'; intros path s1 s2 HI.
  - cbn [walkDir]. destruct (fn_step path (Some (File n data)) None s1 s2 HI)
      as [[Hc HI']|(e & Hc & HB)].
    + destruct (fn1 path _ None s1) as [c1 s1'], (fn2 path _ None s2) as [c2 s2'].
      cbn in Hc, HI'. subst c2. destruct c1; left; done.
    + destruct (fn1 path _ None s1) as [c1 s1'], (fn2 path _ None s2) as [c2 s2'].
      cbn in Hc, HB. subst c1. right. exists e. split; [done|]. by destruct c2.
  - pose proof (walkDir_mono (Dir n es) path s2) as Hmono. cbn [walkDir] in Hmono |- *.
    destruct (fn_step path (Some (Dir n es)) None s1 s2 HI) as [[Hc HI']|(e & Hc & HB)].
    + destruct (fn1 path _ None s1) as [c1 s1'], (fn2 path _ None s2) as [c2 s2'].
      cbn in Hc, HI'. subst c2. destruct c1; [|by left..].
      by apply walkEntries_step.
    + pose proof (fn2_mono path (Some (Dir n es)) None s2) as Hle.
      destruct (fn1 path _ None s1) as [c1 s1'], (fn2 path _ None s2) as [c2 s2'].
      cbn in Hc, HB, Hle. subst c1. right. exists e. split; [done|].
      destruct c2 as [| |e2]; cbn; [|done..].
      eapply B_mono; [apply HB|].
      apply walkEntries_mono. apply Forall_forall. intros d _. apply walkDir_mono.
  - cbn [walkDir].
    destruct (fn_step path (Some (DirErr n e)) None s1 s2 HI) as [[Hc HI']|(e' & Hc & HB)].
    + destruct (fn1 path _ None s1) as [c1 s1'], (fn2 path _ None s2) as [c2 s2'].
      cbn in Hc, HI'. subst c2. destruct c1; [|by left..].
      destruct (fn_step path (Some (DirErr n e)) (Some e) s1' s2' HI')
        as [[Hc HI'']|(e' & Hc & HB)].
      * destruct (fn1 path _ (Some e) s1') as [c1 t1], (fn2 path _ (Some e) s2') as [c2 t2].
        cbn in Hc, HI''. subst c2. destruct c1; left; done.
      * destruct (fn1 path _ (Some e) s1') as [c1 t1], (fn2 path _ (Some e) s2') as [c2 t2].
        cbn in Hc, HB. subst c1. right. exists e'. split; [done|]. by destruct c2.
    + pose proof (fn2_mono path (Some (DirErr n e)) None s2) as Hle.
      destruct (fn1 path _ None s1) as [c1 s1'], (fn2 path _ None s2) as [c2 s2'].
      cbn in Hc, HB, Hle. subst c1. right. exists e'. split; [done|].
      destruct c2 as [| |e2]; cbn; [|done..].
      pose proof (fn2_mono path (Some (DirErr n e)) (Some e) s2') as Hle'.
      destruct (fn2 path _ (Some e) s2') as [[| |e3] t2]; cbn in *; by eapply B_mono.
Qed.

(** The errors of the two walks: they agree, or the first walk stopped
    on an error that [B] accepts. *)
Lemma WalkDir_step (root : error + fsnode) (s1 : S1) (s2 : S2) :
  I s1 s2 ->
  (fst (WalkDir fn1 root s1) = fst (WalkDir fn2 root s2)
   /\ I (snd (WalkDir fn1 root s1)) (snd (WalkDir fn2 root s2)))
  \/ (exists e, fst (WalkDir fn1 root s1) = Some e /\ B e (snd (WalkDir fn2 root s2))).
Proof.
  intros HI. unfold WalkDir.
  assert (InStep I B (match root with inl e => fn1 [] None (Some e) s1
                              | inr d => walkDir fn1 [] d s1 end)
                 (match root with inl e => fn2 [] None (Some e) s2
                              | inr d => walkDir fn2 [] d s2 end)) as Hstep.
  { destruct root as [e|d]; [by apply fn_step|by apply walkDir_step]. }
  destruct (match root with inl e => fn1 [] None (Some e) s1 | inr d => _ end) as [c1 s1'].
  destruct (match root with inl e => fn2 [] None (Some e) s2 | inr d => _ end) as [c2 s2'].
  destruct Hstep as [[Hc HI']|(e & Hc & HB)]; cbn in *.
  - subst c2. left. by destruct c1.
  - subst c1. right. exists e. split; [done|]. by destruct c2.
Qed.

End Simulation.
End WalkFacts.

(** ** [collectExpectedRepos] *)

Module CollectFacts.
Import WalkFacts.

Section WithLib.
Context (lib : GoLib) (Cfg : Config.t).

Lemma grows_refl all : grows all all.
Proof. unfold grows. done. Qed.

Lemma grows_trans all all' all'' : grows all all' -> grows all' all'' -> grows all all''.
Proof. unfold grows. intros H1 H2. by etrans. Qed.

Lemma badMatch_grows e all all' : badMatch lib Cfg e all -> grows all all' -> badMatch lib Cfg e all'.
Proof. intros (k & Hk & Hm) Hle. exists k. split; [by apply Hle|done]. Qed.

Lemma addRepos_unfiltered relDir repos all :
  fst (addRepos lib (unfiltered Cfg) relDir repos all) = WalkNil
  /\ dom all ⊆ dom (snd (addRepos lib (unfiltered Cfg) relDir repos all)).
Proof.
  revert all. induction repos as [|repo rest IH]; intros all; [done|].
  cbn [addRepos unfiltered Config.Paths]. rewrite String.eqb_refl. cbn [negb].
  destruct (IH (<[(if String.eqb relDir "." then filepath_Base lib repo
                   else filepath_Join lib relDir (filepath_Base lib repo)) := repo]> all))
    as [H1 H2].
  split; [done|]. etrans; [apply dom_insert_subseteq|apply H2].
Qed.

Lemma addRepos_step relDir repos expected all :
  inStep lib Cfg expected all ->
  InStep (inStep lib Cfg) (badMatch lib Cfg) (addRepos lib Cfg relDir repos expected)
    (addRepos lib (unfiltered Cfg) relDir repos all).
Proof.
  revert expected all. induction repos as [|repo rest IH]; intros expected all [HI Hok].
  { left. done. }
  cbn [addRepos]. cbn [unfiltered Config.Paths]. rewrite String.eqb_refl. cbn [negb].
  set (localPath := if String.eqb relDir "." then filepath_Base lib repo
                    else filepath_Join lib relDir (filepath_Base lib repo)).
  destruct (String.eqb (Config.Paths Cfg) EmptyString) eqn:Hp; cbn [negb].
  - apply IH. split.
    + rewrite HI. unfold kept. rewrite map_filter_insert_True; [done|].
      cbn. unfold keeps. by rewrite Hp.
    + intros k e _ [Hne _]. by apply String.eqb_eq in Hp.
  - destruct (filepath_Match lib (Config.Paths Cfg) localPath) as [matched [e|]] eqn:Hm.
    + right. exists e. split; [done|].
      destruct (addRepos_unfiltered relDir rest (<[localPath:=repo]> all)) as [_ Hsub].
      exists localPath. split.
      * apply Hsub. apply elem_of_dom. rewrite lookup_insert_eq. by eexists.
      * split; [by apply String.eqb_neq|]. by rewrite Hm.
    + assert (forall k e, k ∈ dom (<[localPath:=repo]> all) -> ~ matchError lib Cfg k e) as Hok'.
      { intros k e Hk. rewrite dom_insert in Hk.
        apply elem_of_union in Hk as [->%elem_of_singleton|Hk]; [|by apply Hok].
        intros [_ He]. rewrite Hm in He. done. }
      destruct matched; cbn [negb]; apply IH; (split; [|done]).
      * rewrite HI. unfold kept. rewrite map_filter_insert_True; [done|].
        cbn. unfold keeps. by rewrite Hp, Hm.
      * rewrite HI. unfold kept. rewrite map_filter_insert_not; [done|].
        intros y. cbn. unfold keeps. by rewrite Hp, Hm.
Qed.

Lemma collectFn_mono path d err all :
  grows all (snd (collectFn lib (unfiltered Cfg) path d err all)).
Proof.
  unfold grows, collectFn. destruct err as [e|], d as [d|]; try done.
  destruct (FS.IsDir d && String.eqb (FS.Name d) ".git"); [done|].
  destruct (negb (String.eqb (FS.Name d) "gitjoin.txt")); [done|].
  destruct (parseGitjoinFile lib d) as [repos [e|]]; [done|].
  apply addRepos_unfiltered.
Qed.

Lemma collectFn_step path d err expected all :
  inStep lib Cfg expected all ->
  InStep (inStep lib Cfg) (badMatch lib Cfg) (collectFn lib Cfg path d err expected)
    (collectFn lib (unfiltered Cfg) path d err all).
Proof.
  intros HI. unfold collectFn. destruct err as [e|], d as [d|]; try (by left).
  destruct (FS.IsDir d && String.eqb (FS.Name d) ".git"); [by left|].
  destruct (negb (String.eqb (FS.Name d) "gitjoin.txt")); [by left|].
  destruct (parseGitjoinFile lib d) as [repos [e|]]; [by left|].
  by apply addRepos_step.
Qed.

(** Against the collection made without a filter: when that one fails
    the filtered one fails; when it succeeds with [all], the filtered
    collection is [all] restricted to the local paths the filter lets
    through, and it fails exactly when matching some local path of [all]
    reports an error, with an error so reported. *)
Lemma collect_against_unfiltered (root : error + fsnode) :
  match collectExpected lib (unfiltered Cfg) root with
  | (Some e0, _) => fst (collectExpected lib Cfg root) <> None
  | (None, all) =>
      (forall k, k ∈ dom (kept lib Cfg all) <-> k ∈ dom all /\ keeps lib Cfg k = true)
      /\ (Config.Paths Cfg = EmptyString -> collectExpected lib Cfg root = (None, all))
      /\ ((forall k e, k ∈ dom all -> ~ matchError lib Cfg k e) ->
          collectExpected lib Cfg root = (None, kept lib Cfg all))
      /\ (forall e, fst (collectExpected lib Cfg root) = Some e ->
                    exists k, k ∈ dom all /\ matchError lib Cfg k e)
      /\ (forall k e, k ∈ dom all -> matchError lib Cfg k e ->
                      fst (collectExpected lib Cfg root) <> None)
  end.
Proof.
  unfold collectExpected.
  assert (inStep lib Cfg ∅ ∅) as H0.
  { split; [by unfold kept; rewrite map_filter_empty|]. intros k e Hk. by rewrite dom_empty in Hk. }
  pose proof (WalkDir_step (collectFn lib Cfg) (collectFn lib (unfiltered Cfg)) (inStep lib Cfg) (badMatch lib Cfg)
                grows grows_refl grows_trans badMatch_grows
                collectFn_mono collectFn_step root ∅ ∅ H0) as Hstep.
  destruct (WalkDir (collectFn lib (unfiltered Cfg)) root ∅) as [[e0|] all] eqn:Hall.
  - destruct Hstep as [[Hc _]|(e & Hc & _)]; cbn in *; congruence.
  - assert (forall k, k ∈ dom (kept lib Cfg all) <-> k ∈ dom all /\ keeps lib Cfg k = true) as Hdom.
    { intros k. unfold kept. rewrite !elem_of_dom. split.
      - intros [v [Hv Hk]%map_lookup_filter_Some]. split; [by exists v|done].
      - intros [[v Hv] Hk]. exists v. by apply map_lookup_filter_Some. }
    assert ((forall k e, k ∈ dom all -> ~ matchError lib Cfg k e) ->
            WalkDir (collectFn lib Cfg) root ∅ = (None, kept lib Cfg all)) as Hgood.
    { intros Hok. destruct Hstep as [[Hc [HI _]]|(e & Hc & (k & Hk & Hm))]; cbn in *.
      - destruct (WalkDir (collectFn lib Cfg) root ∅) as [c s]. cbn in *. congruence.
      - exfalso. by apply (Hok k e). }
    split; [done|]. split; [|split; [done|split]].
    + intros Hp. rewrite Hgood.
      * f_equal. unfold kept. apply map_filter_id. intros k v _. cbn. unfold keeps.
        rewrite Hp. done.
      * intros k e _ [Hne _]. done.
    + intros e He. destruct Hstep as [[Hc _]|(e' & Hc & HB)]; cbn in *; [congruence|].
      rewrite He in Hc. by injection Hc as ->.
    + intros k e Hk Hm. destruct Hstep as [[_ [_ Hok]]|(e' & Hc & _)]; cbn in *.
      * exfalso. by apply (Hok k e).
      * congruence.
Qed.

End WithLib.

(** C7 fails when no manifest lists an identifier: the filter is never
    matched, so a malformed pattern goes unnoticed. *)
Lemma malformed_filter_accepted :
  (forall name, snd (filepath_Match Sim.lib "[" name) = Some "syntax error in pattern")
  /\ collectExpected Sim.lib (Sim.cfg false "[") (inr (Dir "r" [Dir "docs" []])) = (None, ∅).
Proof. split; [done|]. reflexivity. Qed.

Example collect_all :
  collectExpected Sim.lib (Sim.cfg false EmptyString) (inr twoManifests)
  = (None, <["hugo" := "github.com/bep/hugo"]>
             (<["docs" := "github.com/bep/docs"]>
                (<["tools/hugoreleaser" := "github.com/bep/hugoreleaser"]> ∅))).
Proof. vm_compute. reflexivity. Qed.

Example filtered_against_unfiltered :
  collectExpected Sim.lib (Sim.cfg false "h*") (inr twoManifests)
  = (None, kept Sim.lib (Sim.cfg false "h*")
             (snd (collectExpected Sim.lib (unfiltered (Sim.cfg false "h*"))
                     (inr twoManifests)))).
Proof.
  apply (proj1 (proj2 (proj2 (collect_against_unfiltered Sim.lib (Sim.cfg false "h*")
                                (inr twoManifests))))).
  intros k e Hk [_ He]. vm_compute in He. discriminate He.
Qed.

Example collect_filtered :
  collectExpected Sim.lib (Sim.cfg false "h*") (inr twoManifests)
  = (None, <["hugo" := "github.com/bep/hugo"]> ∅).
Proof. vm_compute. reflexivity. Qed.

End CollectFacts.

(** ** Trees and removal *)

Module TreeFacts.

Lemma Name_prune p d : FS.Name (FS.prune p d) = FS.Name d.
Proof. destruct p as [|c [|c' p]], d; done. Qed.

Lemma child_Some_name c es e : FS.child c es = Some e -> FS.Name e = c.
Proof.
  induction es as [|d es IH]; [done|]. cbn.
  destruct (String.eqb_spec (FS.Name d) c) as [Hd|Hd]; [by intros [= <-]|done].
Qed.

Lemma child_filter_eq c es : FS.child c (filter (fun e => FS.Name e <> c) es) = None.
Proof.
  induction es as [|d es IH]; [done|]. rewrite filter_cons.
  destruct (decide (FS.Name d <> c)) as [Hd|Hd]; [|done].
  cbn. by apply String.eqb_neq in Hd as ->.
Qed.

Lemma child_filter_ne c c' es :
  c' <> c -> FS.child c' (filter (fun e => FS.Name e <> c) es) = FS.child c' es.
Proof.
  intros Hne. induction es as [|d es IH]; [done|]. rewrite filter_cons.
  destruct (decide (FS.Name d <> c)) as [Hd|Hd]; cbn.
  - by rewrite IH.
  - apply dec_stable in Hd. rewrite IH.
    destruct (String.eqb_spec (FS.Name d) c'); [congruence|done].
Qed.

Lemma child_map c (f : fsnode -> fsnode) es :
  (forall e, FS.Name (f e) = FS.Name e) ->
  FS.child c (map f es) = f <$> FS.child c es.
Proof.
  intros Hf. induction es as [|d es IH]; [done|]. cbn. rewrite Hf.
  by destruct (String.eqb (FS.Name d) c).
Qed.

Lemma prune_cons_cons c c' p n es :
  FS.prune (c :: c' :: p) (Dir n es)
  = Dir n (map (fun e => if String.eqb (FS.Name e) c then FS.prune (c' :: p) e else e) es).
Proof. done. Qed.

Lemma prune_step_name c p e :
  FS.Name (if String.eqb (FS.Name e) c then FS.prune p e else e) = FS.Name e.
Proof. destruct (String.eqb (FS.Name e) c); [apply Name_prune|done]. Qed.

(** What was removed is gone. *)
Lemma lookup_prune_gone p t : p <> [] -> FS.lookup p (FS.prune p t) = None.
Proof.
  revert t. induction p as [|c p IH]; intros t Hp; [done|].
  destruct t as [n data|n es|n e]; [by destruct p| |by destruct p].
  destruct p as [|c' p].
  - cbn. by rewrite child_filter_eq.
  - rewrite prune_cons_cons. cbn [FS.lookup].
    rewrite child_map by (intros e; apply prune_step_name).
    destruct (FS.child c es) as [e|] eqn:He; [|done]. cbn [fmap option_fmap option_map].
    rewrite (child_Some_name _ _ _ He), String.eqb_refl. by apply IH.
Qed.

(** Removal adds nothing. *)
Lemma lookup_prune_None p q t : FS.lookup q t = None -> FS.lookup q (FS.prune p t) = None.
Proof.
  revert q t. induction p as [|c p IH]; intros q t Hq; [by destruct t|].
  destruct t as [n data|n es|n e]; [by destruct p| |by destruct p].
  destruct q as [|c1 q]; [done|].
  destruct p as [|c' p].
  - cbn in *. destruct (decide (c1 = c)) as [->|Hne].
    + by rewrite child_filter_eq.
    + by rewrite child_filter_ne.
  - rewrite prune_cons_cons. cbn [FS.lookup] in *.
    rewrite child_map by (intros e; apply prune_step_name).
    destruct (FS.child c1 es) as [e|] eqn:He; [|done]. cbn [fmap option_fmap option_map].
    destruct (String.eqb (FS.Name e) c); [by apply IH|done].
Qed.

(** Removal leaves alone what is neither below nor above its path. *)
Lemma lookup_prune_other p q t :
  ~ p `prefix_of` q -> ~ q `prefix_of` p ->
  FS.lookup q (FS.prune p t) = FS.lookup q t.
Proof.
  revert q t. induction p as [|c p IH]; intros q t Hpq Hqp.
  { exfalso. apply Hpq. apply prefix_nil. }
  destruct q as [|c1 q]; [exfalso; apply Hqp; apply prefix_nil|].
  destruct t as [n data|n es|n e]; [by destruct p| |by destruct p].
  destruct p as [|c' p].
  - cbn. destruct (decide (c1 = c)) as [->|Hne].
    + exfalso. apply Hpq. apply prefix_cons, prefix_nil.
    + by rewrite child_filter_ne.
  - rewrite prune_cons_cons. cbn [FS.lookup].
    rewrite child_map by (intros e; apply prune_step_name).
    destruct (FS.child c1 es) as [e|] eqn:He; [|done]. cbn [fmap option_fmap option_map].
    destruct (String.eqb_spec (FS.Name e) c) as [Hc|Hc]; [|done].
    rewrite (child_Some_name _ _ _ He) in Hc. subst c1.
    apply IH.
    + intros H. apply Hpq. by apply prefix_cons.
    + intros H. apply Hqp. by apply prefix_cons.
Qed.

End TreeFacts.

(** ** The sweep of orphaned checkouts *)

Module SweepFacts.
Import SyncFacts TreeFacts.

Section WithHost.
Context (lib : GoLib) (Cfg : Config.t) {W : Type} (host : Host W).

Lemma git_existing (r : Repo.t) (args : list string) (st st' : State W) (res : Res error unit) :
  (_ <- Repo.run host r args ;; ret tt) st = (res, st') -> existing st' = existing st.
Proof. intros H. by apply unit_run_frame in H as (_ & _ & X). Qed.

Lemma inspect_existing (r : Repo.t) (st : State W) :
  existing (snd (Repo.DefaultBranch lib host r st)) = existing st
  /\ existing (snd (Repo.CurrentBranch lib host r st)) = existing st
  /\ existing (snd (Repo.HasUncommittedChanges lib host r st)) = existing st.
Proof.
  unfold Repo.DefaultBranch, Repo.CurrentBranch, Repo.HasUncommittedChanges, bind.
  repeat split.
  - destruct (Repo.run host r _ st) as [[o|e] s1] eqn:R; apply run_trace in R as (_ & _ & X);
      [by destruct (length _ =? 0)|done].
  - destruct (Repo.run host r _ st) as [[o|e] s1] eqn:R; by apply run_trace in R as (_ & _ & X).
  - destruct (Repo.run host r _ st) as [[o|e] s1] eqn:R; by apply run_trace in R as (_ & _ & X).
Qed.

(** Every pair the loop of the second listing meets is stored in
    [existing], whatever becomes of it. *)
Lemma syncRepo_existing (localPath repoPath : string) (st : State W) :
  existing (snd (Seq.syncRepo lib Cfg host localPath repoPath st))
  = {[ localPath ]} ∪ existing st.
Proof.
  unfold Seq.syncRepo. mstep.
  destruct (StatNotExist host _ (world st)); mstep.
  { by destruct (RunClone host _ _ (world st)) as [[e|] w']. }
  destruct (StatIsDir host _ (world st)); mstep; [|done].
  match goal with |- context [Repo.DefaultBranch lib host ?r ?s] =>
    pose proof (inspect_existing r s) as (X1 & _ & _);
    destruct (Repo.DefaultBranch lib host r s) as [[db|e1] s1] end; cbn in X1; [|done].
  match goal with |- context [Repo.CurrentBranch lib host ?r ?s] =>
    pose proof (inspect_existing r s) as (_ & X2 & _);
    destruct (Repo.CurrentBranch lib host r s) as [[cb|e2] s2] end; cbn in X2;
    [|cbn; congruence].
  match goal with |- context [Repo.HasUncommittedChanges lib host ?r ?s] =>
    pose proof (inspect_existing r s) as (_ & _ & X3);
    destruct (Repo.HasUncommittedChanges lib host r s) as [[dirty|e3] s3] end; cbn in X3;
    [|cbn; congruence].
  assert (existing s3 = {[ localPath ]} ∪ existing st) as X by congruence. clear X1 X2 X3.
  destruct (Config.Force Cfg); mstep.
  - destruct dirty; mstep.
    + destruct (Repo.Stash host _ s3) as [[[]|e4] s4] eqn:R4;
        apply git_existing in R4; [|cbn; congruence].
      destruct (negb (String.eqb cb db)); mstep.
      * destruct (Repo.SwitchBranch host _ db s4) as [[[]|e5] s5] eqn:R5;
          apply git_existing in R5; [|cbn; congruence].
        destruct (Repo.Pull host _ s5) as [[changed|e6] s6] eqn:R6;
          apply Pull_frame in R6 as (_ & X6); [|cbn; congruence].
        destruct (Repo.Unstash host _ s6) as [[[]|e7] s7] eqn:R7;
          apply git_existing in R7; destruct changed; cbn; congruence.
      * destruct (Repo.Pull host _ s4) as [[changed|e6] s6] eqn:R6;
          apply Pull_frame in R6 as (_ & X6); [|cbn; congruence].
        destruct (Repo.Unstash host _ s6) as [[[]|e7] s7] eqn:R7;
          apply git_existing in R7; destruct changed; cbn; congruence.
    + destruct (negb (String.eqb cb db)); mstep.
      * destruct (Repo.SwitchBranch host _ db s3) as [[[]|e5] s5] eqn:R5;
          apply git_existing in R5; [|cbn; congruence].
        destruct (Repo.Pull host _ s5) as [[changed|e6] s6] eqn:R6;
          apply Pull_frame in R6 as (_ & X6); [|cbn; congruence].
        destruct changed; cbn; congruence.
      * destruct (Repo.Pull host _ s3) as [[changed|e6] s6] eqn:R6;
          apply Pull_frame in R6 as (_ & X6); [|cbn; congruence].
        destruct changed; cbn; congruence.
  - destruct dirty; mstep.
    + destruct (ChangesSummary_total lib host
                  (Repo.mk (filepath_Join lib (Config.Root Cfg) localPath)) s3)
        as (summary & s4 & Hsum & _ & _ & X4).
      rewrite Hsum. cbn. congruence.
    + destruct (negb (String.eqb cb db)); mstep; [done|].
      destruct (Repo.Pull host _ s3) as [[changed|e6] s6] eqn:R6;
        apply Pull_frame in R6 as (_ & X6); [|cbn; congruence].
      destruct changed; cbn; congruence.
Qed.

Lemma syncAll_existing (pairs : list (string * string)) (st : State W) :
  existing (snd (Seq.syncAll (E:=error) lib Cfg host pairs st))
  = list_to_set pairs.*1 ∪ existing st.
Proof.
  revert st. induction pairs as [|[lp rp] rest IH]; intros st.
  { cbn. set_solver. }
  cbn [Seq.syncAll]. mstep.
  pose proof (syncRepo_existing lp rp st) as X.
  destruct (Seq.syncRepo lib Cfg host lp rp st) as [r s1]. cbn in X.
  rewrite IH, X. cbn. set_solver.
Qed.


Lemma processRepo_existing (localPath repoPath : string) (st : State W) :
  existing (snd (Pool.processRepo lib Cfg host false localPath repoPath st))
  = {[ localPath ]} ∪ existing st.
Proof.
  unfold Pool.processRepo. mstep.
  destruct (StatNotExist host _ (world st)); mstep.
  { by destruct (RunClone host _ _ (world st)) as [[e|] w']. }
  destruct (StatIsDir host _ (world st)); mstep; [|done].
  match goal with |- context [Repo.DefaultBranch lib host ?r ?s] =>
    pose proof (inspect_existing r s) as (X1 & _ & _);
    destruct (Repo.DefaultBranch lib host r s) as [[db|e1] s1] end; cbn in X1; [|done].
  match goal with |- context [Repo.CurrentBranch lib host ?r ?s] =>
    pose proof (inspect_existing r s) as (_ & X2 & _);
    destruct (Repo.CurrentBranch lib host r s) as [[cb|e2] s2] end; cbn in X2;
    [|cbn; congruence].
  match goal with |- context [Repo.HasUncommittedChanges lib host ?r ?s] =>
    pose proof (inspect_existing r s) as (_ & _ & X3);
    destruct (Repo.HasUncommittedChanges lib host r s) as [[dirty|e3] s3] end; cbn in X3;
    [|cbn; congruence].
  assert (existing s3 = {[ localPath ]} ∪ existing st) as X by congruence. clear X1 X2 X3.
  destruct (Config.Force Cfg); mstep.
  - destruct dirty; mstep.
    + destruct (Repo.Stash host _ s3) as [[[]|e4] s4] eqn:R4;
        apply git_existing in R4; [|cbn; congruence].
      destruct (negb (String.eqb cb db)); mstep.
      * destruct (Repo.SwitchBranch host _ db s4) as [[[]|e5] s5] eqn:R5;
          apply git_existing in R5; [|cbn; congruence].
        destruct (Repo.Pull host _ s5) as [[changed|e6] s6] eqn:R6;
          apply Pull_frame in R6 as (_ & X6); [|cbn; congruence].
        destruct (Repo.Unstash host _ s6) as [[[]|e7] s7] eqn:R7;
          apply git_existing in R7; destruct changed; cbn; congruence.
      * destruct (Repo.Pull host _ s4) as [[changed|e6] s6] eqn:R6;
          apply Pull_frame in R6 as (_ & X6); [|cbn; congruence].
        destruct (Repo.Unstash host _ s6) as [[[]|e7] s7] eqn:R7;
          apply git_existing in R7; destruct changed; cbn; congruence.
    + destruct (negb (String.eqb cb db)); mstep.
      * destruct (Repo.SwitchBranch host _ db s3) as [[[]|e5] s5] eqn:R5;
          apply git_existing in R5; [|cbn; congruence].
        destruct (Repo.Pull host _ s5) as [[changed|e6] s6] eqn:R6;
          apply Pull_frame in R6 as (_ & X6); [|cbn; congruence].
        destruct changed; cbn; congruence.
      * destruct (Repo.Pull host _ s3) as [[changed|e6] s6] eqn:R6;
          apply Pull_frame in R6 as (_ & X6); [|cbn; congruence].
        destruct changed; cbn; congruence.
  - destruct dirty; mstep.
    + destruct (ChangesSummary_total lib host
                  (Repo.mk (filepath_Join lib (Config.Root Cfg) localPath)) s3)
        as (summary & s4 & Hsum & _ & _ & X4).
      rewrite Hsum. cbn. congruence.
    + destruct (negb (String.eqb cb db)); mstep; [done|].
      destruct (Repo.Pull host _ s3) as [[changed|e6] s6] eqn:R6;
        apply Pull_frame in R6 as (_ & X6); [|cbn; congruence].
      destruct changed; cbn; congruence.
Qed.

(** When the pool ends without an error every pair was stored. *)
Lemma runTasks_existing (pairs : list (string * string)) (st st' : State W) :
  Pool.runTasks lib Cfg host None pairs st = (Ok tt, st') ->
  existing st' = list_to_set pairs.*1 ∪ existing st.
Proof.
  revert st. induction pairs as [|[lp rp] rest IH]; intros st.
  { cbn. intros [= <-]. set_solver. }
  cbn [Pool.runTasks]. mstep. rewrite bool_decide_eq_false_2 by (by intros []).
  pose proof (processRepo_existing lp rp st) as X.
  destruct (Pool.processRepo lib Cfg host false lp rp st) as [[[]|e] s1]; cbn in X.
  - intros H%IH. rewrite H, X. cbn. set_solver.
  - by rewrite runTasks_cancelled.
Qed.

Lemma sweep_success (allRepos : list string) (st : State W) :
  (forall repo w, repo ∈ allRepos -> repo ∉ existing st ->
                  fst (RemoveAll host (filepath_Join lib (Config.Root Cfg) repo) w) = None) ->
  Seq.sweep (E:=error) lib Cfg host allRepos st = (Ok tt, swept lib Cfg host allRepos st)
  /\ Pool.sweep lib Cfg host allRepos st = (Ok tt, swept lib Cfg host allRepos st).
Proof.
  revert st. induction allRepos as [|repo rest IH]; intros st Hok.
  { unfold swept, orphans. cbn. rewrite !List.app_nil_r. by destruct st as [w t [] x]. }
  cbn [Seq.sweep Pool.sweep]. mstep. unfold swept, orphans. rewrite filter_cons.
  destruct (decide (repo ∈ existing st)) as [Hin|Hnot].
  - rewrite bool_decide_eq_true_2 by done. cbn [negb].
    rewrite decide_False by (intros H; by apply H).
    apply IH. intros r w Hr. apply Hok. by right.
  - rewrite bool_decide_eq_false_2 by done. cbn [negb]. rewrite decide_True by done.
    pose proof (Hok repo (world st) ltac:(by left) Hnot) as Hrm.
    destruct (RemoveAll host _ (world st)) as [err w'] eqn:Hw. cbn in Hrm. subst err.
    mstep.
    set (st1 := MkState w' (trace st ++ [EvRemoveAll (filepath_Join lib (Config.Root Cfg) repo)])
                  (Result.addRemoved repo (result st)) (existing st)).
    destruct (IH st1) as [H1 H2].
    { intros r w Hr. apply (Hok r w). by right. }
    rewrite H1, H2. unfold swept, orphans, st1, removalOf, removeAllOf.
    cbn [world trace result existing Result.addRemoved Result.Updated Result.Cloned
         Result.Removed Result.Skipped Result.Warnings map foldl].
    rewrite Hw. cbn [snd]. rewrite <- !(assoc_L (++)). done.
Qed.


Lemma removeAllOf_tree decode repos w t :
  removalPrunes lib Cfg host decode ->
  (forall repo w, repo ∈ repos ->
                  fst (RemoveAll host (filepath_Join lib (Config.Root Cfg) repo) w) = None) ->
  ReadTree host (Config.Root Cfg) w = inr t ->
  ReadTree host (Config.Root Cfg) (removeAllOf lib Cfg host repos w) = inr (pruneAll decode repos t).
Proof.
  intros Hsem. revert w t. induction repos as [|repo rest IH]; intros w t Hok Ht; [done|].
  cbn [removeAllOf pruneAll foldl].
  pose proof (Hok repo w ltac:(by left)) as Hrm.
  destruct (RemoveAll host (filepath_Join lib (Config.Root Cfg) repo) w) as [err w'] eqn:Hw.
  cbn in Hrm. subst err. cbn [snd]. apply IH.
  - intros r w0 Hr. apply Hok. by right.
  - by apply (Hsem repo w w' t).
Qed.

Lemma pruneAll_None decode repos q t :
  FS.lookup q t = None -> FS.lookup q (pruneAll decode repos t) = None.
Proof.
  revert t. induction repos as [|repo rest IH]; intros t Hq; [done|].
  cbn [pruneAll foldl]. apply IH. by apply lookup_prune_None.
Qed.

Lemma pruneAll_gone decode repos repo t :
  repo ∈ repos -> decode repo <> [] ->
  FS.lookup (decode repo) (pruneAll decode repos t) = None.
Proof.
  revert t. induction repos as [|r rest IH]; intros t Hin Hne.
  { by apply elem_of_nil in Hin. }
  cbn [pruneAll foldl]. apply elem_of_cons in Hin as [->|Hin].
  - apply pruneAll_None. by apply lookup_prune_gone.
  - by apply IH.
Qed.

Lemma pruneAll_other decode repos q t :
  (forall repo, repo ∈ repos ->
                ~ decode repo `prefix_of` q /\ ~ q `prefix_of` decode repo) ->
  FS.lookup q (pruneAll decode repos t) = FS.lookup q t.
Proof.
  revert t. induction repos as [|r rest IH]; intros t Hfar; [done|].
  cbn [pruneAll foldl]. fold (pruneAll decode rest (FS.prune (decode r) t)).
  rewrite IH by (intros repo Hr; apply Hfar; by right).
  destruct (Hfar r ltac:(by left)) as [H1 H2]. by apply lookup_prune_other.
Qed.

(** The sweep of the second listing never fails: it calls
    [os.RemoveAll] on the checkouts that [existing] does not hold, on
    each once and in the order found, and each of them ends in the
    Removed list or in a warning. *)
Lemma seq_sweep_calls (allRepos : list string) (st : State W) :
  exists st' removed failed,
    Seq.sweep (E:=error) lib Cfg host allRepos st = (Ok tt, st')
    /\ trace st' = trace st ++ map (removalOf lib Cfg) (orphans allRepos st)
    /\ existing st' = existing st
    /\ Result.Removed (result st') = Result.Removed (result st) ++ removed
    /\ Result.Warnings (result st') = Result.Warnings (result st) ++ failed
    /\ removed `sublist_of` orphans allRepos st
    /\ length removed + length failed = length (orphans allRepos st).
Proof.
  revert st. induction allRepos as [|repo rest IH]; intros st.
  { exists st, [], []. cbn. by rewrite !List.app_nil_r. }
  cbn [Seq.sweep]. mstep. unfold orphans. rewrite filter_cons.
  destruct (decide (repo ∈ existing st)) as [Hin|Hnot].
  - rewrite bool_decide_eq_true_2 by done. cbn [negb].
    rewrite decide_False by (intros H; by apply H). apply IH.
  - rewrite bool_decide_eq_false_2 by done. cbn [negb]. rewrite decide_True by done.
    destruct (RemoveAll host _ (world st)) as [[e|] w'] eqn:Hw; mstep.
    + match goal with |- context [Seq.sweep lib Cfg host rest ?s] =>
        destruct (IH s) as (st' & removed & failed & H1 & H2 & H3 & H4 & H5 & H6 & H7) end.
      unfold orphans in *.
      cbn [trace existing result Result.addWarning Result.Removed Result.Warnings] in *.
      exists st', removed, (("remove failed: " +:+ repo +:+ ": " +:+ e) :: failed).
      rewrite H1, H2, H3, H4, H5. unfold removalOf. cbn [map length].
      rewrite <- !(assoc_L (++)). repeat split; try done.
      * by apply sublist_cons.
      * lia.
    + match goal with |- context [Seq.sweep lib Cfg host rest ?s] =>
        destruct (IH s) as (st' & removed & failed & H1 & H2 & H3 & H4 & H5 & H6 & H7) end.
      unfold orphans in *.
      cbn [trace existing result Result.addRemoved Result.Removed Result.Warnings] in *.
      exists st', (repo :: removed), failed.
      rewrite H1, H2, H3, H4, H5. unfold removalOf. cbn [map length].
      rewrite <- !(assoc_L (++)). repeat split; try done.
      * by apply sublist_skip.
      * lia.
Qed.

(** The sweep of the first listing calls [os.RemoveAll] only on
    checkouts that [existing] does not hold, in the order found, writes
    no warning, and stops at the first call that fails. *)
Lemma pool_sweep_calls (allRepos : list string) (st st' : State W) (r : Res error unit) :
  Pool.sweep lib Cfg host allRepos st = (r, st') ->
  exists called,
    called `prefix_of` orphans allRepos st
    /\ trace st' = trace st ++ map (removalOf lib Cfg) called
    /\ existing st' = existing st
    /\ Result.Warnings (result st') = Result.Warnings (result st)
    /\ match r with
       | Ok _ =>
           called = orphans allRepos st
           /\ Result.Removed (result st') = Result.Removed (result st) ++ called
       | Fail _ =>
           exists before last,
             called = before ++ [last]
             /\ Result.Removed (result st') = Result.Removed (result st) ++ before
       end.
Proof.
  revert st. induction allRepos as [|repo rest IH]; intros st.
  { cbn. intros [= <- <-]. exists []. cbn. by rewrite !List.app_nil_r. }
  cbn [Pool.sweep]. mstep. unfold orphans. rewrite filter_cons.
  destruct (decide (repo ∈ existing st)) as [Hin|Hnot].
  - rewrite bool_decide_eq_true_2 by done. cbn [negb].
    rewrite decide_False by (intros H; by apply H). apply IH.
  - rewrite bool_decide_eq_false_2 by done. cbn [negb]. rewrite decide_True by done.
    destruct (RemoveAll host _ (world st)) as [[e|] w'] eqn:Hw; mstep.
    + intros [= <- <-]. exists [repo]. cbn. repeat split; try done.
      * apply prefix_cons, prefix_nil.
      * exists [], repo. by rewrite List.app_nil_r.
    + intros (called & H1 & H2 & H3 & H4 & H5)%IH.
      unfold orphans in *.
      cbn [trace existing result Result.addRemoved Result.Removed Result.Warnings] in *.
      exists (repo :: called). rewrite H2, H3, H4. unfold removalOf. cbn [map].
      rewrite <- !(assoc_L (++)). repeat split; try done.
      * by apply prefix_cons.
      * destruct r as [[]|e].
        -- destruct H5 as [-> H5]. rewrite H5, <- (assoc_L (++)). done.
        -- destruct H5 as (before & last & -> & H5). exists (repo :: before), last.
           rewrite H5, <- (assoc_L (++)). done.
Qed.

(** C8, as the code has it.  The set the sweep compares with is the key
    set of the Expected Set.  The second listing calls [os.RemoveAll] on
    a checkout found if and only if its path is not a key, and the
    checkout ends in the Removed list or, when the call fails, in a
    warning; the first listing does the same up to the first call that
    fails, which ends the run with an error.
    When every call succeeds, the Removed list grows by exactly the
    checkouts that are not keys, in the order found; these are gone from
    the tree, and every expected checkout that neither lies in a removed
    checkout nor has one inside it is on disk as before. *)
Theorem orphans_swept (expected : gmap string string) (allRepos : list string)
    (st0 : State W) :
  existing st0 = ∅ ->
  existing (snd (Seq.syncAll (E:=error) lib Cfg host (map_to_list expected) st0))
  = dom expected
  /\ (forall st1,
        Pool.runTasks lib Cfg host None (map_to_list expected) st0 = (Ok tt, st1) ->
        existing st1 = dom expected)
  /\ forall st,
      existing st = dom expected ->
      (forall repo, repo ∈ allRepos ->
                    (repo ∈ orphans allRepos st <-> repo ∉ dom expected))
      /\ (exists st' removed failed,
            Seq.sweep (E:=error) lib Cfg host allRepos st = (Ok tt, st')
            /\ trace st' = trace st ++ map (removalOf lib Cfg) (orphans allRepos st)
            /\ existing st' = existing st
            /\ Result.Removed (result st') = Result.Removed (result st) ++ removed
            /\ Result.Warnings (result st') = Result.Warnings (result st) ++ failed
            /\ removed `sublist_of` orphans allRepos st
            /\ length removed + length failed = length (orphans allRepos st))
      /\ (forall r st',
            Pool.sweep lib Cfg host allRepos st = (r, st') ->
            exists called,
              called `prefix_of` orphans allRepos st
              /\ trace st' = trace st ++ map (removalOf lib Cfg) called
              /\ existing st' = existing st
              /\ Result.Warnings (result st') = Result.Warnings (result st)
              /\ match r with
                 | Ok _ =>
                     called = orphans allRepos st
                     /\ Result.Removed (result st') = Result.Removed (result st) ++ called
                 | Fail _ =>
                     exists before last,
                       called = before ++ [last]
                       /\ Result.Removed (result st') = Result.Removed (result st) ++ before
                 end)
      /\ (forall repo rest e w',
          repo ∉ dom expected ->
          RemoveAll host (filepath_Join lib (Config.Root Cfg) repo) (world st) = (Some e, w') ->
          Pool.sweep lib Cfg host (repo :: rest) st
          = (Fail ("remove " +:+ repo +:+ ": " +:+ e),
             MkState w' (trace st ++ [removalOf lib Cfg repo]) (result st) (existing st))
          /\ Seq.sweep (E:=error) lib Cfg host (repo :: rest) st
             = Seq.sweep lib Cfg host rest
                 (MkState w' (trace st ++ [removalOf lib Cfg repo])
                    (Result.addWarning ("remove failed: " +:+ repo +:+ ": " +:+ e)
                       (result st))
                    (existing st)))
      /\ ((forall repo w, repo ∈ allRepos -> repo ∉ dom expected ->
             fst (RemoveAll host (filepath_Join lib (Config.Root Cfg) repo) w) = None) ->
          Seq.sweep (E:=error) lib Cfg host allRepos st = (Ok tt, swept lib Cfg host allRepos st)
          /\ Pool.sweep lib Cfg host allRepos st = (Ok tt, swept lib Cfg host allRepos st)
          /\ Result.Removed (result (swept lib Cfg host allRepos st))
             = Result.Removed (result st) ++ orphans allRepos st
          /\ trace (swept lib Cfg host allRepos st) = trace st ++ map (removalOf lib Cfg) (orphans allRepos st)
          /\ forall decode t,
              removalPrunes lib Cfg host decode ->
              ReadTree host (Config.Root Cfg) (world st) = inr t ->
              ReadTree host (Config.Root Cfg) (world (swept lib Cfg host allRepos st))
              = inr (pruneAll decode (orphans allRepos st) t)
              /\ (forall repo,
                    repo ∈ orphans allRepos st -> decode repo <> [] ->
                    FS.lookup (decode repo) (pruneAll decode (orphans allRepos st) t) = None)
              /\ (forall k,
                    k ∈ dom expected ->
                    (forall repo, repo ∈ orphans allRepos st ->
                                  ~ decode repo `prefix_of` decode k
                                  /\ ~ decode k `prefix_of` decode repo) ->
                    FS.lookup (decode k) (pruneAll decode (orphans allRepos st) t)
                    = FS.lookup (decode k) t)).
Proof.
  intros H0. split; [|split].
  - rewrite syncAll_existing, H0. apply leibniz_equiv. rewrite (dom_alt expected).
    set_solver.
  - intros st1 H1. rewrite (runTasks_existing _ _ _ H1), H0. apply leibniz_equiv.
    rewrite (dom_alt expected). set_solver.
  - intros st Hex. split; [|split; [|split; [|split]]].
    + intros repo Hin. unfold orphans. rewrite list_elem_of_filter, Hex. tauto.
    + apply seq_sweep_calls.
    + intros r st'. apply pool_sweep_calls.
    + intros repo rest e w' Hnot Hrm. rewrite <- Hex in Hnot.
      cbn [Pool.sweep Seq.sweep]. mstep. rewrite bool_decide_eq_false_2 by done.
      cbn [negb]. rewrite Hrm. done.
    + intros Hok.
      assert (forall repo w, repo ∈ allRepos -> repo ∉ existing st ->
                fst (RemoveAll host (filepath_Join lib (Config.Root Cfg) repo) w) = None)
        as Hok'.
      { intros repo w Hin Hnot. apply Hok; [done|]. by rewrite <- Hex. }
      destruct (sweep_success allRepos st Hok') as [HS HP].
      split; [done|]. split; [done|]. split; [done|]. split; [done|].
      intros decode t Hsem Ht. split; [|split].
      * cbn [swept world]. apply removeAllOf_tree; [done| |done].
        intros repo w [Hnot Hin]%list_elem_of_filter. by apply Hok'.
      * intros repo Hin Hne. by apply pruneAll_gone.
      * intros k _ Hfar. by apply pruneAll_other.
Qed.

End WithHost.
End SweepFacts.

(** ** Sweeps of simulated trees *)

Module SweepExamples.
Import SyncFacts SyncExamples SweepFacts.

Lemma sim_removalPrunes (cfg : Config.t) (sc : Sim.Script) :
  Config.Root cfg = Sim.root -> removalPrunes Sim.lib cfg (Sim.host sc) decode.
Proof.
  intros Hroot repo w w' t [= <-]. rewrite Hroot. cbn. unfold Sim.removeAll.
  destruct (Sim.removeErr sc _); [done|]. by intros [= <-].
Qed.

Lemma orphans_swept_witness :
  existing (snd (Seq.syncAll (E:=error) Sim.lib unforced (Sim.host calm)
                   (map_to_list expectedA) (Sim.start withOrphan)))
  = dom expectedA.
Proof.
  apply (proj1 (orphans_swept Sim.lib unforced (Sim.host calm) expectedA ["a"; "c"]
                  (Sim.start withOrphan) eq_refl)).
Defined.

Example orphan_removed :
  let final := snd (Seq.run Sim.lib unforced (Sim.host calm) (Sim.start withOrphan)) in
  Result.Removed (result final) = ["c"]
  /\ Sim.tree (world final) = Dir "r" [Dir "a" [Dir ".git" []]; manifest].
Proof. vm_compute. split; reflexivity. Qed.

(** C8 fails for an expected checkout inside an orphaned one: removing
    the orphan takes the expected checkout with it.  It also fails when a
    removal fails: the orphan is not a key of the Expected Set, yet it is
    neither deleted nor recorded. *)
Lemma expected_checkout_swept_with_orphan :
  (let final := snd (Seq.run Sim.lib unforced (Sim.host calm) (Sim.start nested)) in
   collectExpected Sim.lib unforced (inr nested)
   = (None, {[ "A/B" := "github.com/bep/B" ]})
   /\ findAllGit Sim.lib (inr nested) = (None, ["A"; "A/B"])
   /\ FS.lookup ["A"; "B"] nested = Some (Dir "B" [Dir ".git" []])
   /\ fst (Seq.run Sim.lib unforced (Sim.host calm) (Sim.start nested)) = Ok tt
   /\ Result.Removed (result final) = ["A"]
   /\ FS.lookup ["A"; "B"] (Sim.tree (world final)) = None
   /\ FS.lookup ["A"; "B"]
        (Sim.tree (world (snd (Pool.run Sim.lib unforced (Sim.host calm)
                                 (Sim.start nested))))) = None)
  /\ (let final := snd (Seq.run Sim.lib unforced (Sim.host readOnly) (Sim.start onlyOrphan)) in
      collectExpected Sim.lib unforced (inr onlyOrphan) = (None, ∅)
      /\ Result.Removed (result final) = []
      /\ Result.Warnings (result final) = ["remove failed: c: permission denied"]
      /\ FS.lookup ["c"] (Sim.tree (world final)) = Some (Dir "c" [Dir ".git" []])
      /\ fst (Pool.run Sim.lib unforced (Sim.host readOnly) (Sim.start onlyOrphan))
         = Fail "remove c: permission denied").
Proof. vm_compute. repeat split; reflexivity. Qed.

End SweepExamples.

(** ** [git.go]: what the methods of [Repo] return *)

Module GitFacts.
Import StringFacts SplitFacts SyncFacts.

Section WithHost.
Context (lib : GoLib) {W : Type} (host : Host W).

(** X1.  When [DefaultBranch] succeeds, the trimmed output of
    [git symbolic-ref] is a sequence of segments joined by "/", none of
    which holds a "/", and the branch returned is the last of them. *)
Theorem DefaultBranch_last_segment (r : Repo.t) (st st' : State W) (branch : string) :
  Repo.DefaultBranch lib host r st = (Ok branch, st') ->
  exists out init,
    fst (RunGit host (Repo.Path r) ["symbolic-ref"; "refs/remotes/origin/HEAD"] (world st))
    = inl out
    /\ strings_TrimSpace lib out = Join (init ++ [branch]) "/"
    /\ Forall (noOcc "/") (init ++ [branch]).
Proof.
  unfold Repo.DefaultBranch, Repo.run. mstep.
  destruct (RunGit host _ _ (world st)) as [[out|[e err]] w']; mstep; [|done].
  destruct (Split_spec (strings_TrimSpace lib out) "/") as (init & b & HS & HJ & HF); [done|].
  rewrite HS, length_app. cbn [length]. replace (length init + 1 =? 0) with false
    by (symmetry; apply Nat.eqb_neq; lia).
  replace (length init + 1 - 1) with (length init) by lia.
  rewrite nth_middle. intros [= <- _]. by exists out, init.
Qed.

(** X2.  [Pull] runs [rev-parse HEAD], [pull], [rev-parse HEAD] in this
    order and stops at the first of them that fails, with the error of
    that command: when the first [rev-parse] fails [git pull] is not run,
    and when [git pull] fails the head is not read again.  When all three
    succeed it answers whether the two outputs of [rev-parse] differ. *)
Theorem Pull_commands (r : Repo.t) (st : State W) :
  let dir := Repo.Path r in
  let revParse := EvGit dir ["rev-parse"; "HEAD"] in
  let pull := EvGit dir ["pull"] in
  let after w commands := MkState w (trace st ++ commands) (result st) (existing st) in
  match RunGit host dir ["rev-parse"; "HEAD"] (world st) with
  | (inr (err, stderr), w1) =>
      Repo.Pull host r st
      = (Fail ("git rev-parse HEAD: " +:+ err +:+ ": " +:+ stderr), after w1 [revParse])
  | (inl before, w1) =>
      match RunGit host dir ["pull"] w1 with
      | (inr (err, stderr), w2) =>
          Repo.Pull host r st
          = (Fail ("git pull: " +:+ err +:+ ": " +:+ stderr), after w2 [revParse; pull])
      | (inl _, w2) =>
          match RunGit host dir ["rev-parse"; "HEAD"] w2 with
          | (inr (err, stderr), w3) =>
              Repo.Pull host r st
              = (Fail ("git rev-parse HEAD: " +:+ err +:+ ": " +:+ stderr),
                 after w3 [revParse; pull; revParse])
          | (inl after_, w3) =>
              Repo.Pull host r st
              = (Ok (negb (String.eqb before after_)), after w3 [revParse; pull; revParse])
          end
      end
  end.
Proof.
  cbv zeta. unfold Repo.Pull, Repo.run. mstep.
  destruct (RunGit host _ _ (world st)) as [[before|[e1 err1]] w1]; mstep; [|done].
  destruct (RunGit host _ ["pull"] w1) as [[out|[e2 err2]] w2]; mstep.
  2:{ cbn. by rewrite <- !(assoc_L (++)). }
  destruct (RunGit host _ ["rev-parse"; "HEAD"] w2) as [[after_|[e3 err3]] w3]; mstep;
    cbn; by rewrite <- !(assoc_L (++)).
Qed.

Lemma Sprintf_d_nonempty (n : nat) : Sprintf_d n <> EmptyString.
Proof.
  unfold Sprintf_d. intros H.
  apply (f_equal NilEmpty.uint_of_string) in H. rewrite NilEmpty.usu in H. cbn in H.
  injection H as H.
  assert (n = 0) as -> by (by rewrite <- (DecimalNat.Unsigned.of_to n), H).
  discriminate H.
Qed.

Lemma app_nonempty_r (a b : string) : b <> EmptyString -> a +:+ b <> EmptyString.
Proof.
  intros Hb H. apply (f_equal String.length) in H. rewrite len_app in H. cbn in H.
  destruct b; [done|]. cbn in H. lia.
Qed.

Lemma Join_nonempty (e : string) (rest : list string) (sep : string) :
  e <> EmptyString -> Join (e :: rest) sep <> EmptyString.
Proof.
  intros He. destruct rest as [|e' rest]; [done|].
  cbn [Join]. intros H. apply (f_equal String.length) in H. rewrite len_app in H.
  cbn in H. destruct e; [done|]. cbn in H. lia.
Qed.

(** X3.  [ChangesSummary] never fails and never returns the empty
    text: it runs [git status --porcelain] once, touches neither the
    report nor [existing], and its answer has at least one byte. *)
Theorem ChangesSummary_nonempty (r : Repo.t) (st : State W) :
  exists summary st',
    (forall E, Repo.ChangesSummary (E:=E) lib host r st = (Ok summary, st'))
    /\ summary <> EmptyString
    /\ trace st' = trace st ++ [EvGit (Repo.Path r) ["status"; "--porcelain"]]
    /\ result st' = result st /\ existing st' = existing st.
Proof.
  unfold Repo.ChangesSummary, bind, attempt.
  destruct (Repo.run host r ["status"; "--porcelain"] st) as [res st'] eqn:Hrun.
  apply run_trace in Hrun as (T & Q & X).
  set (lines := Split (strings_TrimSpace lib
                         match res with Ok o => o | Fail _ => EmptyString end) LF).
  destruct ((length lines =? 1) && String.eqb (nth 0 lines EmptyString) EmptyString).
  { exists "no changes", st'. done. }
  destruct (Repo.countChanges lines 0 0 0) as [[m a] d].
  destruct (0 <? m); destruct (0 <? a); destruct (0 <? d); cbn [app length Nat.eqb];
    eexists _, st'; (split; [intros E; reflexivity|]); (split; [|done]);
    try (apply Join_nonempty; apply app_nonempty_r; done).
  apply app_nonempty_r. done.
Qed.

(** X4.  When [git status] fails, [ChangesSummary] drops the error and
    answers "no changes" (for a [strings.TrimSpace] that leaves the empty
    string empty). *)
Theorem ChangesSummary_ignores_failure (r : Repo.t) (st : State W)
    (err : error) (stderr : string) (w' : W) :
  strings_TrimSpace lib EmptyString = EmptyString ->
  RunGit host (Repo.Path r) ["status"; "--porcelain"] (world st) = (inr (err, stderr), w') ->
  forall E,
    Repo.ChangesSummary (E:=E) lib host r st
    = (Ok "no changes",
       MkState w' (trace st ++ [EvGit (Repo.Path r) ["status"; "--porcelain"]])
         (result st) (existing st)).
Proof.
  intros Htrim Hrun E. unfold Repo.ChangesSummary, Repo.run. mstep.
  rewrite Hrun. mstep. rewrite Htrim. done.
Qed.

End WithHost.

(** X5.  Every status line adds one to at most one of the three
    counters of [ChangesSummary], and a line shorter than two bytes adds
    to none. *)
Theorem countChanges_bound (lines : list string) (m a d m' a' d' : nat) :
  Repo.countChanges lines m a d = (m', a', d') ->
  m <= m' /\ a <= a' /\ d <= d'
  /\ (m' + a' + d') - (m + a + d) <= length (filter (fun line => 2 <= len line) lines).
Proof.
  revert m a d. induction lines as [|line rest IH]; intros m a d.
  { cbn. intros [= <- <- <-]. lia. }
  cbn [Repo.countChanges]. rewrite filter_cons.
  destruct (Nat.ltb_spec (len line) 2) as [Hlt|Hge].
  { rewrite decide_False by lia. apply IH. }
  rewrite decide_True by lia. cbn [length].
  destruct (Contains (sliceTo 2 line) "M"); [intros H%IH; lia|].
  destruct (Contains (sliceTo 2 line) "A" || Contains (sliceTo 2 line) "?");
    [intros H%IH; lia|].
  destruct (Contains (sliceTo 2 line) "D"); intros H%IH; lia.
Qed.

End GitFacts.

(** ** Identifiers and manifests *)

Module ManifestFacts.
Import StringFacts SplitFacts SyncFacts.

Section WithLib.
Context (lib : GoLib).

Lemma keepLines_filter (lines : list string) :
  keepLines lib lines = filter listed (strings_TrimSpace lib <$> lines).
Proof.
  induction lines as [|text rest IH]; [done|].
  cbn [keepLines fmap list_fmap]. rewrite filter_cons, IH.
  destruct (decide (listed (strings_TrimSpace lib text))) as [[Hne Hp]|Hn].
  - apply String.eqb_neq in Hne. by rewrite Hne, Hp.
  - destruct (String.eqb_spec (strings_TrimSpace lib text) EmptyString) as [He|Hne]; [done|].
    destruct (HasPrefix (strings_TrimSpace lib text) "#") eqn:Hp; [done|].
    by destruct Hn.
Qed.

Lemma parseGitjoinFile_listed (d : fsnode) : Forall listed (fst (parseGitjoinFile lib d)).
Proof.
  destruct d as [n [content|e]|n es|n e]; cbn [parseGitjoinFile]; try done.
  destruct (bufio_ScanLines lib content) as [lines err]. cbn [fst].
  rewrite keepLines_filter. apply Forall_forall. by intros line [H _]%list_elem_of_filter.
Qed.

(** X6.  [parseGitjoinFile] returns the scanned lines trimmed, in the
    order of the file, without those that are empty after trimming and
    those that then start with "#"; an entry that cannot be opened or is
    a directory gives an error and no line. *)
Theorem parseGitjoinFile_lines (d : fsnode) :
  Forall listed (fst (parseGitjoinFile lib d))
  /\ match d with
     | File _ (inl content) =>
         parseGitjoinFile lib d
         = (filter listed (strings_TrimSpace lib <$> fst (bufio_ScanLines lib content)),
            snd (bufio_ScanLines lib content))
     | File _ (inr e) => parseGitjoinFile lib d = ([], Some e)
     | _ => fst (parseGitjoinFile lib d) = [] /\ snd (parseGitjoinFile lib d) <> None
     end.
Proof.
  split; [apply parseGitjoinFile_listed|].
  destruct d as [n [content|e]|n es|n e]; cbn [parseGitjoinFile]; try done.
  destruct (bufio_ScanLines lib content) as [lines err]. cbn [fst snd].
  by rewrite keepLines_filter.
Qed.

End WithLib.

Lemma SplitN_whole (s : string) :
  Contains s "/" = false -> SplitN s "/" 2 = [s].
Proof.
  intros H%noOcc_Contains. unfold SplitN. cbn [Z.eqb Z.ltb Z.compare].
  destruct (Z.ltb_spec (Z.of_nat (len s) + 1) 2) as [Hlt|Hge].
  - replace (Z.to_nat (Z.of_nat (len s) + 1 - 1)) with 0 by lia. done.
  - replace (Z.to_nat (2 - 1)) with 1 by lia. cbn [genSplitLoop]. by rewrite H.
Qed.

Section WithHost.
Context (lib : GoLib) (Cfg : Config.t) {W : Type} (host : Host W).

(** X7.  For an identifier without a "/", [repoPathToURL] of both
    listings returns the empty string, whatever the environment; when the
    checkout is missing, [git clone] is then run with the empty URL. *)
Theorem repoPathToURL_without_slash (getenv : string -> string) (localPath repoPath : string)
    (st : State W) :
  Contains repoPath "/" = false ->
  Pool.repoPathToURL getenv repoPath = EmptyString
  /\ Seq.repoPathToURL repoPath = EmptyString
  /\ (StatNotExist host (fullPathOf lib Cfg localPath) (world st) = true ->
      trace (snd (Pool.processRepo lib Cfg host false localPath repoPath st))
      = trace st ++ [EvClone EmptyString (fullPathOf lib Cfg localPath)]
      /\ trace (snd (Seq.syncRepo lib Cfg host localPath repoPath st))
         = trace st ++ [EvClone EmptyString (fullPathOf lib Cfg localPath)]).
Proof.
  intros H.
  assert (forall g, Pool.repoPathToURL g repoPath = EmptyString) as HP.
  { intros g. unfold Pool.repoPathToURL. by rewrite (SplitN_whole _ H). }
  assert (Seq.repoPathToURL repoPath = EmptyString) as HS.
  { unfold Seq.repoPathToURL. by rewrite (SplitN_whole _ H). }
  split; [done|]. split; [done|]. intros Hstat. unfold fullPathOf in *. split.
  - unfold Pool.processRepo. mstep. rewrite Hstat. mstep. rewrite HP.
    by destruct (RunClone host _ _ (world st)) as [[e|] w'].
  - unfold Seq.syncRepo. mstep. rewrite Hstat. mstep. rewrite HS.
    by destruct (RunClone host _ _ (world st)) as [[e|] w'].
Qed.

End WithHost.
End ManifestFacts.

(** ** The report *)

Module ReportFacts.
Import StringFacts.

Lemma splitSkipped_filter (skipped us ns : list SkippedRepo.t) :
  splitSkipped skipped us ns
  = (us ++ filter uncommitted skipped, ns ++ filter (fun skip => ~ uncommitted skip) skipped).
Proof.
  revert us ns. induction skipped as [|skip rest IH]; intros us ns.
  { cbn. by rewrite !List.app_nil_r. }
  cbn [splitSkipped]. rewrite !filter_cons. unfold uncommitted at 2 4.
  destruct (String.eqb_spec (SkippedRepo.Reason skip) "uncommitted changes") as [He|Hne].
  - rewrite IH, decide_True, decide_False by (done || (intros H; by apply H)).
    by rewrite <- (assoc_L (++)).
  - rewrite IH, decide_False, decide_True by done. by rewrite <- (assoc_L (++)).
Qed.

Lemma split_Permutation (skipped : list SkippedRepo.t) :
  filter uncommitted skipped ++ filter (fun skip => ~ uncommitted skip) skipped ≡ₚ skipped.
Proof.
  induction skipped as [|skip rest IH]; [done|].
  rewrite !filter_cons. destruct (decide (uncommitted skip)) as [Hu|Hu].
  - rewrite decide_False by (intros H; by apply H). cbn [app]. by apply perm_skip.
  - rewrite decide_True by done. rewrite <- Permutation_middle. by apply perm_skip.
Qed.

Lemma length_logSection {A} (heading : string) (line : A -> string) (bucket : list A) :
  length (logSection heading line bucket) = sectionSize bucket.
Proof. destruct bucket; [done|]. cbn. by rewrite length_map. Qed.

(** X8.  [printResult] puts every skipped entry under exactly one of
    its two headings, in the order recorded: under "uncommitted changes"
    when its reason is this very text, and under "non-default branch" for
    any other reason.  It calls [s.log] once per entry and once per
    non-empty bucket; the first listing never prints the warnings. *)
Theorem printResult_sections (r : Result.t) :
  let us := filter uncommitted (Result.Skipped r) in
  let ns := filter (fun skip => ~ uncommitted skip) (Result.Skipped r) in
  Pool.printResult r
  = logSection "Updated" updatedLine (Result.Updated r)
      ++ logSection "Cloned" (fun repo => pathLine (RepoResult.Path repo)) (Result.Cloned r)
      ++ logSection "Removed" pathLine (Result.Removed r)
      ++ logSection "Skipped (uncommitted changes)" skippedLine us
      ++ logSection "Skipped (non-default branch)" skippedLine ns
  /\ Seq.printResult r
     = Pool.printResult r
         ++ match Result.Warnings r with
            | [] => []
            | ws => ("Warnings:" +:+ LF) :: map pathLine ws
            end
  /\ us ++ ns ≡ₚ Result.Skipped r
  /\ length (Pool.printResult r)
     = sectionSize (Result.Updated r) + sectionSize (Result.Cloned r)
       + sectionSize (Result.Removed r) + sectionSize us + sectionSize ns
  /\ length (Seq.printResult r)
     = length (Pool.printResult r) + sectionSize (Result.Warnings r).
Proof.
  intros us ns.
  assert (Pool.printResult r
          = logSection "Updated" updatedLine (Result.Updated r)
              ++ logSection "Cloned" (fun repo => pathLine (RepoResult.Path repo))
                   (Result.Cloned r)
              ++ logSection "Removed" pathLine (Result.Removed r)
              ++ logSection "Skipped (uncommitted changes)" skippedLine us
              ++ logSection "Skipped (non-default branch)" skippedLine ns) as HP.
  { unfold Pool.printResult, printOutcomes. by rewrite splitSkipped_filter. }
  assert (Seq.printResult r
          = Pool.printResult r
              ++ match Result.Warnings r with
                 | [] => []
                 | ws => ("Warnings:" +:+ LF) :: map pathLine ws
                 end) as HS.
  { unfold Seq.printResult, Pool.printResult. by destruct (Result.Warnings r). }
  split; [done|]. split; [done|]. split; [|split].
  - apply split_Permutation.
  - rewrite HP, !length_app, !length_logSection. lia.
  - rewrite HS, length_app. f_equal. destruct (Result.Warnings r); [done|].
    cbn. by rewrite length_map.
Qed.

Section WithHost.
Context (lib : GoLib) (Cfg : Config.t) {W : Type} (host : Host W).

Lemma logSection_nil {A} (heading : string) (line : A -> string) (bucket : list A) :
  logSection heading line bucket = [] <-> bucket = [].
Proof. by destruct bucket. Qed.

Lemma printOutcomes_nil (r : Result.t) :
  printOutcomes r = []
  <-> Result.Updated r = [] /\ Result.Cloned r = [] /\ Result.Removed r = []
      /\ Result.Skipped r = [].
Proof.
  unfold printOutcomes. rewrite splitSkipped_filter. cbn [app].
  rewrite !app_nil, !logSection_nil. split.
  - intros (HU & HC & HR & H1 & H2). repeat split; try done.
    destruct (Result.Skipped r) as [|skip rest]; [done|]. rewrite !filter_cons in H1, H2.
    destruct (decide (uncommitted skip)); [done|]. by rewrite decide_True in H2.
  - intros (-> & -> & -> & ->). done.
Qed.

(** X9.  [Sync] returns the error of [run] without printing a report;
    when [run] succeeds it writes nothing exactly when [cfg.Quiet] is
    set or every bucket it prints is empty, where the first listing does
    not look at the warnings. *)
Theorem Sync_silent (st : State W) :
  snd (Pool.Sync lib Cfg host st) = snd (Pool.run lib Cfg host st)
  /\ snd (Seq.Sync lib Cfg host st) = snd (Seq.run lib Cfg host st)
  /\ match fst (Pool.run lib Cfg host st) with
     | Fail e => fst (Pool.Sync lib Cfg host st) = Fail e
     | Ok _ =>
         let r := result (snd (Pool.run lib Cfg host st)) in
         exists lines,
           fst (Pool.Sync lib Cfg host st) = Ok lines
           /\ (lines = []
               <-> Config.Quiet Cfg = true
                   \/ (Result.Updated r = [] /\ Result.Cloned r = []
                       /\ Result.Removed r = [] /\ Result.Skipped r = []))
     end
  /\ match fst (Seq.run lib Cfg host st) with
     | Fail e => fst (Seq.Sync lib Cfg host st) = Fail e
     | Ok _ =>
         let r := result (snd (Seq.run lib Cfg host st)) in
         exists lines,
           fst (Seq.Sync lib Cfg host st) = Ok lines
           /\ (lines = []
               <-> Config.Quiet Cfg = true
                   \/ (Result.Updated r = [] /\ Result.Cloned r = []
                       /\ Result.Removed r = [] /\ Result.Skipped r = []
                       /\ Result.Warnings r = []))
     end.
Proof.
  unfold Pool.Sync, Seq.Sync, bind.
  destruct (Pool.run lib Cfg host st) as [[[]|e1] s1];
    destruct (Seq.run lib Cfg host st) as [[[]|e2] s2]; cbn [fst snd];
    repeat split; try done.
  all: try (eexists; split; [reflexivity|]).
  all: destruct (Config.Quiet Cfg); try (split; [by left|done]).
  all: unfold Pool.printResult, Seq.printResult.
  all: try (rewrite printOutcomes_nil; split; [by right|by intros [|]]).
  all: rewrite app_nil, printOutcomes_nil; split.
  all: try (intros [(? & ? & ? & ?) Hw]; right; repeat split; try done;
            by destruct (Result.Warnings _)).
  all: intros [|(? & ? & ? & ? & ->)]; done.
Qed.

End WithHost.
End ReportFacts.

(** ** What the tasks do to the outside world *)

Module EffectFacts.
Import StringFacts SyncFacts.

Section WithHost.
Context (lib : GoLib) (Cfg : Config.t) {W : Type} (host : Host W).

Section Emits.
Context {E : Type} (P : Event -> Prop).

Lemma Emits_ret {A} (a : A) : Emits (W:=W) (E:=E) P (ret a).
Proof. intros st. exists []. by rewrite List.app_nil_r. Qed.

Lemma Emits_throw {A} (e : E) : Emits (W:=W) (A:=A) P (throw e).
Proof. intros st. exists []. by rewrite List.app_nil_r. Qed.

Lemma Emits_observe {A} (f : W -> A) : Emits (E:=E) P (observe f).
Proof. intros st. exists []. by rewrite List.app_nil_r. Qed.

Lemma Emits_updResult (f : Result.t -> Result.t) : Emits (W:=W) (E:=E) P (updResult f).
Proof. intros st. exists []. by rewrite List.app_nil_r. Qed.

Lemma Emits_storeExisting (k : string) : Emits (W:=W) (E:=E) P (storeExisting k).
Proof. intros st. exists []. by rewrite List.app_nil_r. Qed.

Lemma Emits_loadExisting (k : string) : Emits (W:=W) (E:=E) P (loadExisting k).
Proof. intros st. exists []. by rewrite List.app_nil_r. Qed.

Lemma Emits_freshRun : Emits (W:=W) (E:=E) P freshRun.
Proof. intros st. exists []. by rewrite List.app_nil_r. Qed.

Lemma Emits_perform {A} (ev : Event) (f : W -> A * W) : P ev -> Emits (E:=E) P (perform ev f).
Proof.
  intros Hev st. exists [ev]. unfold perform. destruct (f (world st)) as [a w'].
  split; [done|]. by constructor.
Qed.

Lemma Emits_bind {A B} (m : M W E A) (k : A -> M W E B) :
  Emits P m -> (forall a, Emits P (k a)) -> Emits P (bind m k).
Proof.
  intros Hm Hk st. unfold bind. destruct (Hm st) as (evs & Ht & Hevs).
  destruct (m st) as [[a|e] s1]; cbn [snd] in *.
  - destruct (Hk a s1) as (evs' & Ht' & Hevs'). exists (evs ++ evs').
    rewrite Ht', Ht, <- (assoc_L (++)). split; [done|]. by apply Forall_app.
  - by exists evs.
Qed.

Lemma Emits_attempt {E' A} (m : M W E' A) : Emits P m -> Emits (E:=E) P (attempt m).
Proof.
  intros Hm st. unfold attempt. destruct (Hm st) as (evs & Ht & Hevs).
  destruct (m st) as [r s1]. by exists evs.
Qed.

Lemma Emits_wrapErr {E' A} (f : E' -> E) (m : M W E' A) : Emits P m -> Emits P (wrapErr f m).
Proof.
  intros Hm st. unfold wrapErr. destruct (Hm st) as (evs & Ht & Hevs).
  destruct (m st) as [[a|e] s1]; by exists evs.
Qed.

End Emits.

Lemma Emits_run (P : Event -> Prop) (r : Repo.t) (args : list string) :
  P (EvGit (Repo.Path r) args) -> Emits P (Repo.run host r args).
Proof.
  intros Hev. unfold Repo.run. apply Emits_bind; [by apply Emits_perform|].
  intros [out|[e err]]; [apply Emits_ret|apply Emits_throw].
Qed.

Lemma Emits_warn {E} (P : Event -> Prop) (msg : string) :
  Emits (W:=W) (E:=E) P (Seq.warn msg).
Proof. apply Emits_updResult. Qed.

Lemma Emits_orWarn {A} (P : Event -> Prop) (msg : error -> string) (m : M W error A) :
  Emits P m -> Emits P (Seq.orWarn msg m).
Proof.
  intros Hm. unfold Seq.orWarn. apply Emits_bind; [by apply Emits_attempt|].
  intros [a|e]; [apply Emits_ret|].
  apply Emits_bind; [apply Emits_warn|intros _; apply Emits_throw].
Qed.

(** Take a computation apart along its binds and branches, down to
    the commands it performs. *)
Ltac emits_with cmds :=
  repeat first
    [ apply Emits_ret | apply Emits_throw | apply Emits_observe | apply Emits_updResult
    | apply Emits_storeExisting | apply Emits_loadExisting | apply Emits_freshRun
    | apply Emits_warn
    | cmds
    | apply Emits_orWarn | apply Emits_attempt | apply Emits_wrapErr
    | apply Emits_run | apply Emits_perform
    | apply Emits_bind; [|intros ?]
    | match goal with
      | |- Emits _ (match ?x with _ => _ end) => destruct x
      end ].

Ltac emits := emits_with fail.

Section Commands.
Context (P : Event -> Prop) (r : Repo.t).

Lemma Emits_DefaultBranch :
  P (EvGit (Repo.Path r) ["symbolic-ref"; "refs/remotes/origin/HEAD"]) ->
  Emits P (Repo.DefaultBranch lib host r).
Proof. intros H. unfold Repo.DefaultBranch. emits. done. Qed.

Lemma Emits_CurrentBranch :
  P (EvGit (Repo.Path r) ["branch"; "--show-current"]) ->
  Emits P (Repo.CurrentBranch lib host r).
Proof. intros H. unfold Repo.CurrentBranch. emits. done. Qed.

Lemma Emits_HasUncommittedChanges :
  P (EvGit (Repo.Path r) ["status"; "--porcelain"]) ->
  Emits P (Repo.HasUncommittedChanges lib host r).
Proof. intros H. unfold Repo.HasUncommittedChanges. emits. done. Qed.

Lemma Emits_ChangesSummary {E} :
  P (EvGit (Repo.Path r) ["status"; "--porcelain"]) ->
  Emits P (Repo.ChangesSummary (E:=E) lib host r).
Proof.
  intros H st. destruct (ChangesSummary_total lib host r st) as (summary & st' & HS & T & _).
  rewrite HS. cbn [snd]. exists [EvGit (Repo.Path r) ["status"; "--porcelain"]].
  split; [done|]. by constructor.
Qed.

Lemma Emits_Pull :
  P (EvGit (Repo.Path r) ["rev-parse"; "HEAD"]) -> P (EvGit (Repo.Path r) ["pull"]) ->
  Emits P (Repo.Pull host r).
Proof. intros H1 H2. unfold Repo.Pull. emits; done. Qed.

End Commands.

Ltac in_list := repeat first [apply list_elem_of_here | apply list_elem_of_further].

Ltac commands :=
  first [ apply Emits_DefaultBranch | apply Emits_CurrentBranch
        | apply Emits_HasUncommittedChanges | apply Emits_ChangesSummary
        | apply Emits_Pull ].

Lemma processRepo_taskCommand (ctxDone : bool) (localPath repoPath : string) :
  Emits taskCommand (Pool.processRepo lib Cfg host ctxDone localPath repoPath).
Proof.
  unfold Pool.processRepo, clone, Repo.IsGitRepo, Repo.Stash, Repo.Unstash,
    Repo.SwitchBranch.
  emits_with commands; done.
Qed.

Lemma syncRepo_taskCommand (localPath repoPath : string) :
  Emits taskCommand (Seq.syncRepo lib Cfg host localPath repoPath).
Proof.
  unfold Seq.syncRepo, clone, Repo.IsGitRepo, Repo.Stash, Repo.Unstash, Repo.SwitchBranch.
  emits_with commands; done.
Qed.

(** X10.  A task only works in the checkout it is given: every command
    that [processRepo], or the body of the loop of the second listing,
    runs for [localPath] is a [git] command in [Root/localPath] or a clone
    into this directory; it removes and writes nothing. *)
Theorem task_stays_in_checkout (ctxDone : bool) (localPath repoPath : string) :
  Emits (inCheckout lib Cfg localPath)
    (Pool.processRepo lib Cfg host ctxDone localPath repoPath)
  /\ Emits (inCheckout lib Cfg localPath) (Seq.syncRepo lib Cfg host localPath repoPath).
Proof.
  split.
  - unfold Pool.processRepo, clone, Repo.IsGitRepo, Repo.Stash, Repo.Unstash,
      Repo.SwitchBranch.
    emits_with commands; done.
  - unfold Seq.syncRepo, clone, Repo.IsGitRepo, Repo.Stash, Repo.Unstash,
      Repo.SwitchBranch.
    emits_with commands; done.
Qed.

(** X11.  Without the force flag a task runs nothing but a clone, the
    three inspections, [git rev-parse HEAD] and [git pull]: it never
    stashes, never switches the branch and never pops a stash. *)
Theorem unforced_task_is_plain (ctxDone : bool) (localPath repoPath : string) :
  Config.Force Cfg = false ->
  Emits plain (Pool.processRepo lib Cfg host ctxDone localPath repoPath)
  /\ Emits plain (Seq.syncRepo lib Cfg host localPath repoPath).
Proof.
  intros Hforce. split.
  - unfold Pool.processRepo, clone, Repo.IsGitRepo. rewrite Hforce. cbn [negb].
    emits_with commands; try done; cbn; unfold plainCommands; in_list.
  - unfold Seq.syncRepo, clone, Repo.IsGitRepo. rewrite Hforce. cbn [negb].
    emits_with commands; try done; cbn; unfold plainCommands; in_list.
Qed.

End WithHost.
End EffectFacts.

(** ** The phases of a run *)

Module RunFacts.
Import StringFacts SyncFacts SweepFacts EffectFacts.

Section WithHost.
Context (lib : GoLib) (Cfg : Config.t) {W : Type} (host : Host W).

Lemma Emits_none {E A} (m : M W E A) (st : State W) :
  Emits (fun _ => False) m -> trace (snd (m st)) = trace st.
Proof.
  intros Hm. destruct (Hm st) as (evs & Ht & Hevs). destruct evs as [|ev evs].
  - by rewrite List.app_nil_r in Ht.
  - by apply Forall_cons in Hevs as [[] _].
Qed.

Lemma collect_reads_only (st : State W) :
  trace (snd (collectExpectedRepos lib Cfg host st)) = trace st.
Proof.
  apply Emits_none. unfold collectExpectedRepos.
  apply Emits_bind; [apply Emits_observe|]. intros root.
  destruct (collectExpected lib Cfg root) as [[e|] expected];
    [apply Emits_throw|apply Emits_ret].
Qed.

Lemma find_reads_only (st : State W) :
  trace (snd (findAllGitRepos lib Cfg host st)) = trace st.
Proof.
  apply Emits_none. unfold findAllGitRepos.
  apply Emits_bind; [apply Emits_observe|]. intros root.
  destruct (findAllGit lib root) as [[e|] repos]; [apply Emits_throw|apply Emits_ret].
Qed.

Lemma Emits_syncAll (pairs : list (string * string)) :
  Emits taskCommand (Seq.syncAll (E:=error) lib Cfg host pairs).
Proof.
  induction pairs as [|[lp rp] rest IH]; [apply Emits_ret|].
  cbn [Seq.syncAll]. apply Emits_bind; [|done]. apply Emits_attempt.
  apply syncRepo_taskCommand.
Qed.

Lemma Emits_runTasks (firstErr : option error) (pairs : list (string * string)) :
  Emits taskCommand (Pool.runTasks lib Cfg host firstErr pairs).
Proof.
  revert firstErr. induction pairs as [|[lp rp] rest IH]; intros firstErr.
  { destruct firstErr; [apply Emits_throw|apply Emits_ret]. }
  cbn [Pool.runTasks]. apply Emits_bind.
  - apply Emits_attempt. apply processRepo_taskCommand.
  - intros [[]|e]; destruct firstErr; apply IH.
Qed.

Lemma Emits_sweep (allRepos : list string) :
  Emits removal (Seq.sweep (E:=error) lib Cfg host allRepos)
  /\ Emits removal (Pool.sweep lib Cfg host allRepos).
Proof.
  induction allRepos as [|repo rest [IH1 IH2]].
  { split; apply Emits_ret. }
  split; cbn [Seq.sweep Pool.sweep].
  - apply Emits_bind; [apply Emits_loadExisting|]. intros found.
    destruct (negb found); [|done].
    apply Emits_bind; [by apply Emits_perform|]. intros [e|].
    + apply Emits_bind; [apply Emits_warn|done].
    + apply Emits_bind; [apply Emits_updResult|done].
  - apply Emits_bind; [apply Emits_loadExisting|]. intros found.
    destruct (negb found); [|done].
    apply Emits_bind; [by apply Emits_perform|]. intros [e|]; [apply Emits_throw|].
    apply Emits_bind; [apply Emits_updResult|done].
Qed.

Lemma updateGitignore_writes (repos : gmap string string) (st : State W) :
  trace (snd (Pool.updateGitignore lib Cfg host repos st)) = trace st
  \/ exists content,
      trace (snd (Pool.updateGitignore lib Cfg host repos st))
      = trace st ++ [EvWriteFile (filepath_Join lib (Config.Root Cfg) ".gitignore") content].
Proof.
  unfold Pool.updateGitignore. mstep.
  destruct (ReadFile host _ (world st)) as [c|e|e]; mstep; [| |by left].
  all: destruct (WriteFile host _ _ (world st)) as [[e'|] w']; right; by eexists.
Qed.

(** X12.  A run works in phases.  In both listings the trace of [run]
    is the commands of the tasks followed by the removals of the sweep:
    nothing is removed before the last task has ended.  The second
    listing writes no file; the first writes at most one, [.gitignore]
    in the root, and only after the last removal. *)
Theorem run_phases (st : State W) :
  (exists tasks removals,
      trace (snd (Seq.run lib Cfg host st)) = trace st ++ tasks ++ removals
      /\ Forall taskCommand tasks /\ Forall removal removals)
  /\ (exists tasks removals writes,
        trace (snd (Pool.run lib Cfg host st)) = trace st ++ tasks ++ removals ++ writes
        /\ Forall taskCommand tasks /\ Forall removal removals
        /\ (writes = []
            \/ exists content,
                writes
                = [EvWriteFile (filepath_Join lib (Config.Root Cfg) ".gitignore") content])).
Proof.
  split.
  - unfold Seq.run, freshRun, bind.
    set (s0 := MkState (world st) (trace st) Result.zero ∅).
    pose proof (collect_reads_only s0) as T1.
    destruct (collectExpectedRepos lib Cfg host s0) as [[expected|e] s1]; cbn [snd] in *.
    2:{ exists [], []. by rewrite T1, !List.app_nil_r. }
    destruct (Emits_syncAll (map_to_list expected) s1) as (tasks & T2 & Htasks).
    destruct (Seq.syncAll lib Cfg host (map_to_list expected) s1) as [[[]|e] s2];
      cbn [snd] in *.
    2:{ exists tasks, []. by rewrite T2, T1, List.app_nil_r. }
    pose proof (find_reads_only s2) as T3.
    destruct (findAllGitRepos lib Cfg host s2) as [[allRepos|e] s3]; cbn [snd] in *.
    2:{ exists tasks, []. by rewrite T3, T2, T1, List.app_nil_r. }
    destruct (proj1 (Emits_sweep allRepos) s3) as (removals & T4 & Hrem).
    exists tasks, removals. by rewrite T4, T3, T2, T1, <- (assoc_L (++)).
  - unfold Pool.run, freshRun, bind.
    set (s0 := MkState (world st) (trace st) Result.zero ∅).
    pose proof (collect_reads_only s0) as T1.
    destruct (collectExpectedRepos lib Cfg host s0) as [[expected|e] s1]; cbn [snd] in *.
    2:{ exists [], [], []. rewrite T1, !List.app_nil_r. repeat split; try done. by left. }
    destruct (Emits_runTasks None (map_to_list expected) s1) as (tasks & T2 & Htasks).
    destruct (Pool.runTasks lib Cfg host None (map_to_list expected) s1) as [[[]|e] s2];
      cbn [snd] in *.
    2:{ exists tasks, [], []. rewrite T2, T1, !List.app_nil_r.
        repeat split; try done. by left. }
    pose proof (find_reads_only s2) as T3.
    destruct (findAllGitRepos lib Cfg host s2) as [[allRepos|e] s3]; cbn [snd] in *.
    2:{ exists tasks, [], []. rewrite T3, T2, T1, !List.app_nil_r.
        repeat split; try done. by left. }
    destruct (proj2 (Emits_sweep allRepos) s3) as (removals & T4 & Hrem).
    destruct (Pool.sweep lib Cfg host allRepos s3) as [[[]|e] s4]; cbn [snd] in *.
    2:{ exists tasks, removals, []. rewrite T4, T3, T2, T1, <- !(assoc_L (++)), List.app_nil_r.
        repeat split; try done. by left. }
    unfold wrapErr.
    destruct (updateGitignore_writes expected s4) as [T5|(content & T5)];
      destruct (Pool.updateGitignore lib Cfg host expected s4) as [[[]|e] s5];
      cbn [snd] in *.
    1,2: exists tasks, removals, []; rewrite T5, T4, T3, T2, T1, <- !(assoc_L (++)),
           List.app_nil_r; repeat split; try done; by left.
    all: exists tasks, removals, [EvWriteFile (filepath_Join lib (Config.Root Cfg) ".gitignore")
                                    content];
      rewrite T5, T4, T3, T2, T1, <- !(assoc_L (++)); repeat split; try done;
      right; by exists content.
Qed.

(** X22.  [updateGitignore] returns the error of reading [.gitignore],
    other than its absence, without writing anything; in every other case
    it writes the file exactly once, also when the content is the one
    already there, and returns the error of this write. *)
Theorem updateGitignore_errors (repos : gmap string string) (st : State W) :
  let path := filepath_Join lib (Config.Root Cfg) ".gitignore" in
  match ReadFile host path (world st) with
  | ReadErr e => Pool.updateGitignore lib Cfg host repos st = (Fail e, st)
  | ReadOk _ | ReadNotExist _ =>
      exists content,
        Pool.updateGitignore lib Cfg host repos st
        = (match fst (WriteFile host path content (world st)) with
           | Some e => Fail e
           | None => Ok tt
           end,
           MkState (snd (WriteFile host path content (world st)))
             (trace st ++ [EvWriteFile path content]) (result st) (existing st))
  end.
Proof.
  unfold Pool.updateGitignore. mstep.
  destruct (ReadFile host _ (world st)) as [c|e|e]; mstep; [| |done].
  - exists (Pool.newContent (Pool.managedBlock lib (map fst (map_to_list repos))) c).
    by destruct (WriteFile host _ _ (world st)) as [[e'|] w'].
  - exists (Pool.newContent (Pool.managedBlock lib (map fst (map_to_list repos)))
              EmptyString).
    by destruct (WriteFile host _ _ (world st)) as [[e'|] w'].
Qed.

End WithHost.
End RunFacts.

(** ** What the tasks add to the report *)

Module OutcomeFacts.
Import StringFacts SyncFacts SweepFacts.

Section WithHost.
Context (lib : GoLib) (Cfg : Config.t) {W : Type} (host : Host W).

Lemma ChangesSummary_frame {E} (r : Repo.t) (st st' : State W) (res : Res E string) :
  Repo.ChangesSummary lib host r st = (res, st') -> result st' = result st.
Proof.
  destruct (ChangesSummary_total lib host r st) as (summary & s & HS & _ & Q & _).
  rewrite HS. by intros [= _ <-].
Qed.

(** Split on what the first operation of the goal returns. *)
Ltac split_match :=
  match goal with
  | |- context [match ?x with _ => _ end] =>
      lazymatch x with
      | context [match _ with _ => _ end] => fail
      | _ =>
          lazymatch type of x with
          | (Res _ _ * _)%type => destruct x as [[?|?] ?] eqn:?
          | (option _ * _)%type => destruct x as [[?|] ?] eqn:?
          | _ => destruct x eqn:?
          end
      end
  end.

(** What the operations met so far left of the report. *)
Ltac frames :=
  repeat match goal with
    | H : Repo.DefaultBranch _ _ _ _ = _ |- _ => apply DefaultBranch_frame in H
    | H : Repo.CurrentBranch _ _ _ _ = _ |- _ => apply CurrentBranch_frame in H
    | H : Repo.HasUncommittedChanges _ _ _ _ = _ |- _ =>
        apply HasUncommittedChanges_frame in H
    | H : Repo.ChangesSummary _ _ _ _ = _ |- _ => apply ChangesSummary_frame in H
    | H : Repo.Pull _ _ _ = _ |- _ => apply Pull_frame in H as [H _]
    | H : Repo.Stash _ _ _ = _ |- _ => apply unit_run_frame in H as (_ & H & _)
    | H : Repo.Unstash _ _ _ = _ |- _ => apply unit_run_frame in H as (_ & H & _)
    | H : Repo.SwitchBranch _ _ _ _ = _ |- _ => apply unit_run_frame in H as (_ & H & _)
    end;
  cbn [result] in *.

Ltac back_to st :=
  repeat match goal with
    | |- context [result ?s] =>
        tryif constr_eq s st then fail
        else replace (result s) with (result st) by congruence
    end.

Lemma syncRepo_outcome (localPath repoPath : string) (st : State W) :
  Outcome localPath (result st)
    (result (snd (Seq.syncRepo lib Cfg host localPath repoPath st))).
Proof.
  unfold Seq.syncRepo. mstep. repeat (split_match; mstep).
  all: cbn [snd result]; frames; back_to st; by constructor.
Qed.

Lemma processRepo_outcome (ctxDone : bool) (localPath repoPath : string) (st : State W) :
  match Pool.processRepo lib Cfg host ctxDone localPath repoPath st with
  | (Ok _, st') =>
      Outcome localPath (result st) (result st')
      /\ Result.Warnings (result st') = Result.Warnings (result st)
  | (Fail _, st') => result st' = result st
  end.
Proof.
  pose proof (processRepo_no_warning lib Cfg host ctxDone localPath repoPath st) as Hw.
  destruct (Pool.processRepo lib Cfg host ctxDone localPath repoPath st) as [r st'] eqn:HP.
  specialize (Hw st' r eq_refl). revert HP.
  unfold Pool.processRepo. destruct ctxDone; mstep.
  { by intros [= <- <-]. }
  repeat (split_match; mstep).
  all: intros [= <- <-]; cbn [snd result] in *; frames; back_to st;
    try done; try congruence; split; try done; by constructor.
Qed.


Lemma Outcome_paths (localPath : string) (r r' : Result.t) :
  Outcome localPath r r' ->
  Result.Removed r' = Result.Removed r
  /\ (outcomePaths r' ≡ₚ outcomePaths r \/ outcomePaths r' ≡ₚ outcomePaths r ++ [localPath]).
Proof.
  intros [| |detail|reason detail|msg|msg detail]; (split; [done|]);
    unfold outcomePaths; cbn [Result.addCloned Result.addUpdated Result.addSkipped
                              Result.addWarning Result.Updated Result.Cloned Result.Skipped
                              RepoResult.Path SkippedRepo.Path];
    rewrite ?map_app; cbn [map]; try (by left); right.
  - rewrite <- !(assoc_L (++)). do 2 apply Permutation_app_head.
    apply Permutation_app_comm.
  - rewrite <- !(assoc_L (++)). apply Permutation_app_head.
    rewrite (assoc_L (++) (map RepoResult.Path (Result.Cloned r))).
    apply Permutation_app_comm.
  - by rewrite <- !(assoc_L (++)).
  - rewrite <- !(assoc_L (++)). apply Permutation_app_head.
    rewrite (assoc_L (++) (map RepoResult.Path (Result.Cloned r))).
    apply Permutation_app_comm.
Qed.

Lemma grow_paths (localPath : string) (keys : list string) (r r1 r' : Result.t)
    (added : list string) :
  Outcome localPath r r1 ->
  Result.Removed r' = Result.Removed r1 ->
  outcomePaths r' ≡ₚ outcomePaths r1 ++ added ->
  added `sublist_of` keys ->
  Result.Removed r' = Result.Removed r
  /\ exists added',
      outcomePaths r' ≡ₚ outcomePaths r ++ added'
      /\ added' `sublist_of` localPath :: keys.
Proof.
  intros [HR [HO|HO]]%Outcome_paths HR' HP Hsub; (split; [congruence|]).
  - exists added. rewrite HP, HO. split; [done|]. by apply sublist_cons.
  - exists (localPath :: added). rewrite HP, HO, <- (assoc_L (++)). split; [done|].
    by apply sublist_skip.
Qed.

(** X14.  The buckets Updated, Cloned and Skipped only ever name
    expected repositories, each at most once per run of the loop: after
    the loop over the pairs their paths are the paths held before and a
    subsequence of the local paths of the pairs, and nothing was added to
    the Removed list. *)
Theorem report_names_expected (pairs : list (string * string)) (st : State W) :
  (let r' := result (snd (Seq.syncAll (E:=error) lib Cfg host pairs st)) in
   Result.Removed r' = Result.Removed (result st)
   /\ exists added,
       outcomePaths r' ≡ₚ outcomePaths (result st) ++ added
       /\ added `sublist_of` pairs.*1)
  /\ forall firstErr,
      let r' := result (snd (Pool.runTasks lib Cfg host firstErr pairs st)) in
      Result.Removed r' = Result.Removed (result st)
      /\ exists added,
          outcomePaths r' ≡ₚ outcomePaths (result st) ++ added
          /\ added `sublist_of` pairs.*1.
Proof.
  split.
  - revert st. induction pairs as [|[lp rp] rest IH]; intros st.
    { cbn. split; [done|]. exists []. by rewrite List.app_nil_r. }
    cbn [Seq.syncAll]. mstep. change (((lp, rp) :: rest).*1) with (lp :: rest.*1).
    pose proof (syncRepo_outcome lp rp st) as HO.
    destruct (Seq.syncRepo lib Cfg host lp rp st) as [r s1]. cbn [snd] in HO.
    destruct (IH s1) as (HR & added & HP & Hsub). cbn zeta.
    by apply (grow_paths lp rest.*1 _ (result s1) _ added).
  - revert st. induction pairs as [|[lp rp] rest IH]; intros st firstErr.
    { cbn. destruct firstErr; (split; [done|]); exists []; by rewrite List.app_nil_r. }
    cbn [Pool.runTasks]. mstep. change (((lp, rp) :: rest).*1) with (lp :: rest.*1).
    pose proof (processRepo_outcome (bool_decide (firstErr <> None)) lp rp st) as HO.
    destruct (Pool.processRepo lib Cfg host _ lp rp st) as [[[]|e] s1].
    + destruct HO as [HO _]. destruct (IH s1 firstErr) as (HR & added & HP & Hsub).
      destruct firstErr; cbn zeta;
        by apply (grow_paths lp rest.*1 _ (result s1) _ added).
    + assert (Outcome lp (result st) (result s1)) as HO' by (rewrite HO; constructor).
      destruct firstErr as [e0|]; cbn zeta.
      * destruct (IH s1 (Some e0)) as (HR & added & HP & Hsub).
        by apply (grow_paths lp rest.*1 _ (result s1) _ added).
      * destruct (IH s1 (Some e)) as (HR & added & HP & Hsub).
        by apply (grow_paths lp rest.*1 _ (result s1) _ added).
Qed.

Lemma repoPathToURL_unset (getenv : string -> string) (repoPath : string) :
  getenv "GITHUB_ACTIONS" = EmptyString ->
  Pool.repoPathToURL getenv repoPath = Seq.repoPathToURL repoPath.
Proof. intros H. unfold Pool.repoPathToURL, Seq.repoPathToURL. by rewrite H. Qed.

Lemma task_agrees (localPath repoPath : string) (st st' : State W) :
  (forall w, Getenv host "GITHUB_ACTIONS" w = EmptyString) ->
  Pool.processRepo lib Cfg host false localPath repoPath st = (Ok tt, st') ->
  snd (Seq.syncRepo lib Cfg host localPath repoPath st) = st'.
Proof.
  intros Henv. unfold Pool.processRepo, Seq.syncRepo. mstep.
  destruct (StatNotExist host _ (world st)); mstep.
  { rewrite (repoPathToURL_unset (fun k => Getenv host k (world st)) repoPath
               (Henv (world st))).
    destruct (RunClone host _ _ (world st)) as [[e|] w']; [done|by intros [= <-]]. }
  repeat (first
    [ match goal with
      | |- context [Repo.ChangesSummary ?l ?h ?r ?s] =>
          let HS := fresh "HS" in
          destruct (ChangesSummary_total l h r s) as (? & ? & HS & _); rewrite !HS
      end
    | split_match ]; mstep).
  all: by intros [= <-].
Qed.

Lemma sweep_agrees (allRepos : list string) (st st' : State W) :
  Pool.sweep lib Cfg host allRepos st = (Ok tt, st') ->
  Seq.sweep (E:=error) lib Cfg host allRepos st = (Ok tt, st').
Proof.
  revert st. induction allRepos as [|repo rest IH]; intros st; [done|].
  cbn [Pool.sweep Seq.sweep]. mstep. destruct (negb _); [|apply IH].
  destruct (RemoveAll host _ (world st)) as [[e|] w']; mstep; [done|apply IH].
Qed.

(** X15.  One task, and the sweep, are the same in the two listings.
    With [GITHUB_ACTIONS] unset, whenever [processRepo] of the first
    listing returns no error for a repository, the body of the loop of
    the second listing, started in the same state on the same
    repository, ends in the same state: the same commands in the same
    order, the same report and the same existing set.  Whenever the
    removal loop of the first listing returns no error, the one of the
    second does the same.  Nothing is said about the order in which the
    workers of the first listing take the tasks. *)
Theorem listings_agree (st st' : State W) :
  (forall w, Getenv host "GITHUB_ACTIONS" w = EmptyString) ->
  (forall localPath repoPath,
      Pool.processRepo lib Cfg host false localPath repoPath st = (Ok tt, st') ->
      snd (Seq.syncRepo lib Cfg host localPath repoPath st) = st')
  /\ (forall allRepos,
        Pool.sweep lib Cfg host allRepos st = (Ok tt, st') ->
        Seq.sweep (E:=error) lib Cfg host allRepos st = (Ok tt, st')).
Proof.
  intros Henv. split.
  - intros localPath repoPath. by apply task_agrees.
  - intros allRepos. apply sweep_agrees.
Qed.

End WithHost.
End OutcomeFacts.

(** ** What the two walks take from the tree *)

Module TreeWalkFacts.
Import StringFacts WalkFacts ManifestFacts.

Lemma Name_stripGit (d : fsnode) : FS.Name (stripGit d) = FS.Name d.
Proof. by destruct d. Qed.

Lemma IsDir_stripGit (d : fsnode) : FS.IsDir (stripGit d) = FS.IsDir d.
Proof. by destruct d. Qed.

(** A walk whose callback does not look at the entries of a directory
    and does not enter a directory called [.git]. *)
Section Blind.
Context {S : Type}.
Variable fn : list string -> option fsnode -> option error -> S -> WalkCtl * S.

Hypothesis fn_blind :
  forall path d err s, fn path (Some d) err s = fn path (Some (stripGit d)) err s.
Hypothesis fn_skips :
  forall path n es s,
    String.eqb n ".git" = true -> fst (fn path (Some (Dir n es)) None s) <> WalkNil.

Lemma walkEntries_stripGit (path : list string) (es : list fsnode) :
  Forall (fun d => forall p s, walkDir fn p d s = walkDir fn p (stripGit d) s) es ->
  forall s,
    walkEntries (walkDir fn) path es s
    = walkEntries (walkDir fn) path (map stripGit es) s.
Proof.
  induction 1 as [|d es Hd Hes IH]; intros s; [done|].
  cbn. rewrite Name_stripGit, <- Hd.
  destruct (walkDir fn (path ++ [FS.Name d]) d s) as [[| |e] s']; [apply IH|done..].
Qed.

Lemma walkDir_stripGit (d : fsnode) :
  forall path s, walkDir fn path d s = walkDir fn path (stripGit d) s.
Proof.
  induction d as [n data|n es IH|n e] using fsnode_ind'; intros path s; [done| |done].
  cbn [stripGit]. cbn [walkDir]. rewrite (fn_blind path (Dir n es)). cbn [stripGit].
  pose proof (fn_skips path n (if String.eqb n ".git" then [] else map stripGit es) s)
    as Hskip.
  destruct (fn path _ None s) as [[| |e] s1]; [|done..].
  destruct (String.eqb n ".git"); [by destruct Hskip|].
  by apply walkEntries_stripGit.
Qed.

End Blind.

(** A walk whose callback keeps [P] at every entry of the tree. *)
Section Visit.
Context {S : Type}.
Variable fn : list string -> option fsnode -> option error -> S -> WalkCtl * S.
Variable root : fsnode.
Variable P : S -> Prop.

Hypothesis fn_keeps :
  forall path d err s, Reach root path d -> P s -> P (snd (fn path (Some d) err s)).

Lemma walkEntries_visit (path : list string) (es : list fsnode) :
  (forall e, e ∈ es -> Reach root (path ++ [FS.Name e]) e) ->
  Forall (fun d => forall p s, Reach root p d -> P s -> P (snd (walkDir fn p d s))) es ->
  forall s, P s -> P (snd (walkEntries (walkDir fn) path es s)).
Proof.
  intros Hreach Hes. induction Hes as [|d es Hd Hes IH]; intros s Hs; [done|].
  cbn. specialize (Hd (path ++ [FS.Name d]) s (Hreach d ltac:(by left)) Hs).
  destruct (walkDir fn (path ++ [FS.Name d]) d s) as [[| |e] s']; cbn in *; [|done..].
  apply IH; [|done]. intros e He. apply Hreach. by right.
Qed.

Lemma walkDir_visit (d : fsnode) :
  forall path s, Reach root path d -> P s -> P (snd (walkDir fn path d s)).
Proof.
  induction d as [n data|n es IH|n e] using fsnode_ind'; intros path s Hd Hs;
    cbn [walkDir].
  - pose proof (fn_keeps path _ None s Hd Hs) as H.
    by destruct (fn path (Some (File n data)) None s) as [[| |e] s1].
  - pose proof (fn_keeps path _ None s Hd Hs) as H.
    destruct (fn path (Some (Dir n es)) None s) as [[| |e] s1]; cbn in *; [|done..].
    apply walkEntries_visit; [|done..]. intros e He. by eapply Reach_entry.
  - pose proof (fn_keeps path _ None s Hd Hs) as H.
    destruct (fn path (Some (DirErr n e)) None s) as [[| |e'] s1]; cbn in *; [|done..].
    pose proof (fn_keeps path _ (Some e) s1 Hd H) as H'.
    by destruct (fn path (Some (DirErr n e)) (Some e) s1) as [[| |e'] s2].
Qed.

Lemma WalkDir_visit (s : S) : P s -> P (snd (WalkDir fn (inr root) s)).
Proof.
  intros Hs. unfold WalkDir. pose proof (walkDir_visit root [] s (Reach_root root) Hs) as H.
  by destruct (walkDir fn [] root s) as [[| |e] s'].
Qed.

End Visit.

Section WithLib.
Context (lib : GoLib) (Cfg : Config.t).

(** X16.  Neither walk reads what a [.git] directory holds: the
    Expected Set, the checkouts found and the errors of the two walks are
    the same on the tree and on the tree with every [.git] directory
    emptied. *)
Theorem git_directories_are_not_read (t : fsnode) :
  collectExpected lib Cfg (inr t) = collectExpected lib Cfg (inr (stripGit t))
  /\ findAllGit lib (inr t) = findAllGit lib (inr (stripGit t)).
Proof.
  split.
  - unfold collectExpected, WalkDir. rewrite (walkDir_stripGit (collectFn lib Cfg)); [done| |].
    + intros path d err s. unfold collectFn. rewrite IsDir_stripGit, Name_stripGit.
      by destruct d as [n data|n es|n e].
    + intros path n es s Hn. unfold collectFn. cbn [FS.IsDir FS.Name andb]. by rewrite Hn.
  - unfold findAllGit, WalkDir. rewrite (walkDir_stripGit (findFn lib)); [done| |].
    + intros path d err s. unfold findFn. by rewrite IsDir_stripGit, Name_stripGit.
    + intros path n es s Hn. unfold findFn. cbn [FS.IsDir FS.Name andb]. by rewrite Hn.
Qed.

Lemma addRepos_keeps (Q : string -> string -> Prop) (relDir : string)
    (repos : list string) (expected : gmap string string) :
  (forall k v, expected !! k = Some v -> Q k v) ->
  (forall repo, repo ∈ repos -> Q (localPathOf lib relDir repo) repo) ->
  forall k v, snd (addRepos lib Cfg relDir repos expected) !! k = Some v -> Q k v.
Proof.
  revert expected. induction repos as [|repo rest IH]; intros expected Hexp Hrepos; [done|].
  cbn [addRepos]. fold (localPathOf lib relDir repo).
  assert (forall k v, <[localPathOf lib relDir repo := repo]> expected !! k = Some v -> Q k v)
    as Hins.
  { intros k v. destruct (decide (k = localPathOf lib relDir repo)) as [->|Hne].
    - rewrite lookup_insert_eq. intros [= <-]. apply Hrepos. by left.
    - rewrite lookup_insert_ne by done. apply Hexp. }
  assert (forall r, r ∈ rest -> Q (localPathOf lib relDir r) r) as Hrest.
  { intros r Hr. apply Hrepos. by right. }
  destruct (negb (String.eqb (Config.Paths Cfg) EmptyString)); [|by apply IH].
  destruct (filepath_Match lib (Config.Paths Cfg) _) as [matched [e|]]; [by apply Hexp|].
  destruct matched; cbn [negb]; by apply IH.
Qed.

(** X17.  Every entry of the Expected Set comes from a manifest of the
    tree: its value is a line that [parseGitjoinFile] returned, without
    an error, for an entry called [gitjoin.txt], and its key is the base
    name of this line, joined to the directory of the manifest unless
    this is the root. *)
Theorem collect_sound (t : fsnode) (k v : string) :
  snd (collectExpected lib Cfg (inr t)) !! k = Some v ->
  exists path d,
    Reach t path d
    /\ FS.Name d = "gitjoin.txt"
    /\ snd (parseGitjoinFile lib d) = None
    /\ v ∈ fst (parseGitjoinFile lib d)
    /\ listed v
    /\ k = localPathOf lib (relDirOf lib path) v.
Proof.
  set (Q := fun k v => exists path d,
                Reach t path d /\ FS.Name d = "gitjoin.txt"
                /\ snd (parseGitjoinFile lib d) = None
                /\ v ∈ fst (parseGitjoinFile lib d) /\ listed v
                /\ k = localPathOf lib (relDirOf lib path) v).
  revert k v. unfold collectExpected.
  apply (WalkDir_visit (collectFn lib Cfg) t (fun m => forall k v, m !! k = Some v -> Q k v));
    [|done].
  intros path d err m Hd Hm. unfold collectFn. destruct err as [e|]; [done|].
  destruct (FS.IsDir d && String.eqb (FS.Name d) ".git"); [done|].
  destruct (String.eqb_spec (FS.Name d) "gitjoin.txt") as [Hn|Hn]; [|done]. cbn [negb].
  pose proof (parseGitjoinFile_listed lib d) as Hlisted.
  destruct (parseGitjoinFile lib d) as [repos [e|]] eqn:Hparse; [done|]. cbn [fst] in Hlisted.
  apply addRepos_keeps; [done|]. intros repo Hrepo. exists path, d. rewrite Hparse.
  do 4 (split; [done|]). split; [|done].
  by apply (proj1 (Forall_forall _ _) Hlisted).
Qed.

Lemma addRepos_app (relDir : string) (l1 l2 : list string) (expected m : gmap string string) :
  addRepos lib Cfg relDir (l1 ++ l2) expected = (WalkNil, m) ->
  exists m1,
    addRepos lib Cfg relDir l1 expected = (WalkNil, m1)
    /\ addRepos lib Cfg relDir l2 m1 = (WalkNil, m).
Proof.
  revert expected. induction l1 as [|repo rest IH]; intros expected; [by exists expected|].
  cbn [app addRepos].
  destruct (negb (String.eqb (Config.Paths Cfg) EmptyString)); [|apply IH].
  destruct (filepath_Match lib (Config.Paths Cfg) _) as [matched [e|]]; [done|].
  destruct matched; cbn [negb]; apply IH.
Qed.

Lemma addRepos_other (relDir : string) (repos : list string) (expected m : gmap string string)
    (k : string) :
  addRepos lib Cfg relDir repos expected = (WalkNil, m) ->
  Forall (fun r => localPathOf lib relDir r <> k) repos ->
  m !! k = expected !! k.
Proof.
  revert expected. induction repos as [|repo rest IH]; intros expected.
  { by intros [= <-]. }
  cbn [addRepos]. fold (localPathOf lib relDir repo).
  intros H [Hne Hrest]%Forall_cons.
  destruct (negb (String.eqb (Config.Paths Cfg) EmptyString)).
  - destruct (filepath_Match lib (Config.Paths Cfg) _) as [matched [e|]]; [done|].
    destruct matched; cbn [negb] in H.
    + rewrite (IH _ H Hrest). by rewrite lookup_insert_ne.
    + by apply IH.
  - rewrite (IH _ H Hrest). by rewrite lookup_insert_ne.
Qed.

(** X18.  Within a manifest the identifier listed last wins: when the
    loop over the identifiers ends without an error, an identifier that
    the filter lets through is the value of its local path, unless a
    later identifier of the manifest has the same local path; an earlier
    one with this local path is overwritten without a warning. *)
Theorem last_listed_wins (relDir : string) (l1 : list string) (repo : string)
    (l2 : list string) (expected m : gmap string string) :
  addRepos lib Cfg relDir (l1 ++ repo :: l2) expected = (WalkNil, m) ->
  keeps lib Cfg (localPathOf lib relDir repo) = true ->
  Forall (fun r => localPathOf lib relDir r <> localPathOf lib relDir repo) l2 ->
  m !! localPathOf lib relDir repo = Some repo.
Proof.
  intros (m1 & _ & H)%addRepos_app Hkeeps Hl2. revert H.
  cbn [addRepos]. fold (localPathOf lib relDir repo). unfold keeps in Hkeeps.
  destruct (String.eqb (Config.Paths Cfg) EmptyString); cbn [negb orb] in *.
  - intros H. rewrite (addRepos_other _ _ _ _ _ H Hl2). by rewrite lookup_insert_eq.
  - destruct (filepath_Match lib (Config.Paths Cfg) _) as [matched [e|]]; [done|].
    subst matched. cbn [negb]. intros H.
    rewrite (addRepos_other _ _ _ _ _ H Hl2). by rewrite lookup_insert_eq.
Qed.

(** X19.  Every path that [findAllGitRepos] reports is the path of the
    parent of a directory called [.git] that the tree holds, relative to
    the root, and is never ".": the root itself is not reported as a
    checkout. *)
Theorem findAllGit_sound (t : fsnode) (rel : string) :
  rel ∈ snd (findAllGit lib (inr t)) ->
  rel <> "."
  /\ exists path g,
      Reach t path g /\ FS.IsDir g = true /\ FS.Name g = ".git"
      /\ rel = relDirOf lib path.
Proof.
  set (Q := fun rel => rel <> "."
              /\ exists path g, Reach t path g /\ FS.IsDir g = true
                                /\ FS.Name g = ".git" /\ rel = relDirOf lib path).
  revert rel. unfold findAllGit.
  apply (WalkDir_visit (findFn lib) t (fun repos => forall rel, rel ∈ repos -> Q rel)).
  2:{ intros rel Hrel. by apply elem_of_nil in Hrel. }
  intros path d err repos Hd Hrepos. unfold findFn. destruct err as [e|]; [done|].
  destruct (FS.IsDir d) eqn:Hdir; cbn [andb]; [|done].
  destruct (String.eqb_spec (FS.Name d) ".git") as [Hn|Hn]; [|done]. cbn [snd].
  destruct (String.eqb_spec (relDirOf lib path) ".") as [Hrel|Hrel]; cbn [negb]; [done|].
  intros rel [Hin|Hin]%elem_of_app; [by apply Hrepos|].
  apply list_elem_of_singleton in Hin as ->. split; [done|]. by exists path, d.
Qed.

(** X20.  When the root itself is a directory called [.git], the walk
    reports the single path "..", the parent of the root, and nothing is
    expected; the sweep of [run] then calls [os.RemoveAll] on
    [Root/..]. *)
Theorem root_named_git {W : Type} (host : Host W) (st : State W) (es : list fsnode) :
  ReadTree host (Config.Root Cfg) (world st) = inr (Dir ".git" es) ->
  collectExpected lib Cfg (inr (Dir ".git" es)) = (None, ∅)
  /\ findAllGit lib (inr (Dir ".git" es)) = (None, [".."])
  /\ trace (snd (Seq.run lib Cfg host st))
     = trace st ++ [EvRemoveAll (filepath_Join lib (Config.Root Cfg) "..")].
Proof.
  intros Htree. split; [done|]. split; [done|].
  unfold Seq.run, freshRun, collectExpectedRepos, findAllGitRepos. mstep.
  rewrite Htree. cbn. rewrite map_to_list_empty. cbn. mstep. rewrite Htree. cbn.
  rewrite (bool_decide_eq_false_2 (".." ∈ (∅ : gset string))) by set_solver.
  cbn [negb]. mstep. by destruct (RemoveAll host _ (world st)) as [[e|] w'].
Qed.

End WithLib.
End TreeWalkFacts.

(** ** The checkouts the walk finds *)

Module FindFacts.
Import StringFacts WalkFacts TreeWalkFacts.

(** An entry that is not inside a [.git] directory is the root, or is
    such an entry of one of the entries of the root. *)
Lemma Visible_head (d : fsnode) (q : list string) (g : fsnode) :
  Visible d q g ->
  (q = [] /\ g = d)
  \/ exists n es e q',
      d = Dir n es /\ n <> ".git" /\ e ∈ es /\ q = FS.Name e :: q' /\ Visible e q' g.
Proof.
  induction 1 as [|path n es e Hv IH Hn He]; [by left|]. right.
  destruct IH as [[-> Hd]|(n0 & es0 & e0 & q' & -> & Hn0 & He0 & -> & Hv0)].
  - subst d. exists n, es, e, []. repeat split; try done. constructor.
  - exists n0, es0, e0, (q' ++ [FS.Name e]). repeat split; try done.
    by apply (Visible_entry e0 q' n es e).
Qed.

Section WithLib.
Context (lib : GoLib).

Lemma walkEntries_find (path : list string) (es : list fsnode) :
  Forall (fun d => forall p s ctl s',
            walkDir (findFn lib) p d s = (ctl, s') ->
            ctl <> WalkSkipDir
            /\ (ctl = WalkNil ->
                s ⊆ s' /\ forall q g, Visible d q g -> marked lib s' (p ++ q) g)) es ->
  forall s ctl s',
    walkEntries (walkDir (findFn lib)) path es s = (ctl, s') ->
    ctl <> WalkSkipDir
    /\ (ctl = WalkNil ->
        s ⊆ s'
        /\ forall e q g, e ∈ es -> Visible e q g -> marked lib s' (path ++ FS.Name e :: q) g).
Proof.
  induction 1 as [|d es Hd Hes IH]; intros s ctl s'.
  { cbn. intros [= <- <-]. split; [done|]. intros _. split; [done|].
    intros e q g He. by apply elem_of_nil in He. }
  cbn. destruct (walkDir (findFn lib) (path ++ [FS.Name d]) d s) as [c1 s1] eqn:Hw.
  destruct (Hd _ _ _ _ Hw) as [Hskip Hnil].
  destruct c1 as [| |e1]; [|done|].
  - intros Hrest. destruct (IH _ _ _ Hrest) as [Hskip' Hnil']. split; [done|].
    intros ->. destruct (Hnil eq_refl) as [Hsub Hd1]. destruct (Hnil' eq_refl) as [Hsub' Hes'].
    split; [set_solver|]. intros e q g [->|He]%elem_of_cons Hv.
    + intros H1 H2 H3. apply Hsub'. rewrite (cons_middle _ path q), (assoc_L (++)) in *.
      by apply (Hd1 q g Hv).
    + by apply Hes'.
  - intros [= <- <-]. done.
Qed.

Lemma walkDir_find (d : fsnode) :
  forall p s ctl s',
    walkDir (findFn lib) p d s = (ctl, s') ->
    ctl <> WalkSkipDir
    /\ (ctl = WalkNil ->
        s ⊆ s' /\ forall q g, Visible d q g -> marked lib s' (p ++ q) g).
Proof.
  induction d as [n data|n es IH|n e] using fsnode_ind'; intros p s ctl s'.
  - cbn. intros [= <- <-]. split; [done|]. intros _. split; [done|].
    intros q g [[-> ->]|(n0 & es0 & e0 & q' & Hd & _)]%Visible_head; done.
  - cbn [walkDir]. unfold findFn at 1. cbn [FS.IsDir FS.Name andb].
    destruct (String.eqb_spec n ".git") as [->|Hn].
    + cbn [FS.IsDir]. intros [= <- <-]. split; [done|]. intros _. split.
      { destruct (negb _); set_solver. }
      intros q g [[-> ->]|(n0 & es0 & e0 & q' & [= <- <-] & Hn0 & _)]%Visible_head; [|done].
      rewrite List.app_nil_r. intros _ _ Hrel.
      apply String.eqb_neq in Hrel. rewrite Hrel. cbn [negb]. set_solver.
    + intros Hw. destruct (walkEntries_find p es IH _ _ _ Hw) as [Hskip Hnil].
      split; [done|]. intros ->. destruct (Hnil eq_refl) as [Hsub Hes]. split; [done|].
      intros q g [[-> ->]|(n0 & es0 & e0 & q' & [= <- <-] & Hn0 & He0 & -> & Hv)]%Visible_head.
      * by intros _ Hname.
      * by apply Hes.
  - cbn [walkDir]. unfold findFn. cbn [FS.IsDir FS.Name andb].
    destruct (String.eqb_spec n ".git") as [->|Hn].
    + cbn [FS.IsDir]. intros [= <- <-]. split; [done|]. intros _. split.
      { destruct (negb _); set_solver. }
      intros q g [[-> ->]|(n0 & es0 & e0 & q' & Hd & _)]%Visible_head; [|done].
      rewrite List.app_nil_r. intros _ _ Hrel.
      apply String.eqb_neq in Hrel. rewrite Hrel. cbn [negb]. set_solver.
    + by intros [= <- <-].
Qed.

(** X21.  When the walk of [findAllGitRepos] ends without an error it
    has reported every checkout of the tree: the parent of every
    directory called [.git] that does not lie inside another such
    directory, the root excepted. *)
Theorem findAllGit_complete (t : fsnode) (repos : list string)
    (path : list string) (g : fsnode) :
  findAllGit lib (inr t) = (None, repos) ->
  Visible t path g -> FS.IsDir g = true -> FS.Name g = ".git" ->
  relDirOf lib path <> "." ->
  relDirOf lib path ∈ repos.
Proof.
  unfold findAllGit, WalkDir.
  destruct (walkDir (findFn lib) [] t []) as [ctl s'] eqn:Hw.
  destruct (walkDir_find t _ _ _ _ Hw) as [Hskip Hnil].
  destruct ctl as [| |e]; [|done..]. intros [= <-] Hv.
  destruct (Hnil eq_refl) as [_ Hall]. by apply (Hall path g).
Qed.

End WithLib.
End FindFacts.

(** ** The Expected Set against the manifests of the tree *)

Module FilterFacts.
Import StringFacts WalkFacts ManifestFacts TreeWalkFacts FindFacts.

(** A walk whose callback skips every [.git] directory calls it on
    entries outside these directories only. *)
Section Sees.
Context {S : Type} (fn : list string -> option fsnode -> option error -> S -> WalkCtl * S).
Context (root : fsnode) (P : S -> Prop) (E : error -> Prop).

Hypothesis fn_entry : forall path d s,
  Visible root path d -> P s ->
  P (snd (fn path (Some d) None s))
  /\ forall e, fst (fn path (Some d) None s) = WalkError e -> E e.
Hypothesis fn_failed : forall path n e s0 s,
  Visible root path (DirErr n e) ->
  fn path (Some (DirErr n e)) None s0 = (WalkNil, s) -> P s ->
  P (snd (fn path (Some (DirErr n e)) (Some e) s))
  /\ forall e', fst (fn path (Some (DirErr n e)) (Some e) s) = WalkError e' -> E e'.
Hypothesis fn_skips : forall path es s,
  fst (fn path (Some (Dir ".git" es)) None s) <> WalkNil.

Lemma walkEntries_sees (path : list string) (es : list fsnode) :
  (forall e, e ∈ es -> Visible root (path ++ [FS.Name e]) e) ->
  Forall (fun d => forall path s,
            Visible root path d -> P s ->
            P (snd (walkDir fn path d s))
            /\ forall e, fst (walkDir fn path d s) = WalkError e -> E e) es ->
  forall s, P s ->
    P (snd (walkEntries (walkDir fn) path es s))
    /\ forall e, fst (walkEntries (walkDir fn) path es s) = WalkError e -> E e.
Proof.
  intros Hvis Hes. induction Hes as [|d es Hd Hes IH]; intros s Hs; [done|].
  cbn. destruct (Hd (path ++ [FS.Name d]) s (Hvis d ltac:(by left)) Hs) as [HP HE].
  destruct (walkDir fn (path ++ [FS.Name d]) d s) as [[| |e] s']; cbn in *; [|done|].
  - apply IH; [|done]. intros e He. apply Hvis. by right.
  - split; [done|]. intros e' [= <-]. by apply HE.
Qed.

Lemma walkDir_sees (d : fsnode) :
  forall path s,
    Visible root path d -> P s ->
    P (snd (walkDir fn path d s))
    /\ forall e, fst (walkDir fn path d s) = WalkError e -> E e.
Proof.
  induction d as [n data|n es IH|n e] using fsnode_ind'; intros path s Hd Hs;
    cbn [walkDir].
  - destruct (fn_entry path _ s Hd Hs) as [HP HE].
    destruct (fn path (Some (File n data)) None s) as [[| |e] s1]; cbn in *; [done..|].
    split; [done|]. intros e' [= <-]. by apply HE.
  - destruct (fn_entry path _ s Hd Hs) as [HP HE].
    destruct (fn path (Some (Dir n es)) None s) as [[| |e] s1] eqn:Hfn; cbn in *; [|done|].
    + apply walkEntries_sees; [|done..]. intros e He.
      apply (Visible_entry root path n es e); [done| |done]. intros ->.
      apply (fn_skips path es s). by rewrite Hfn.
    + split; [done|]. intros e' [= <-]. by apply HE.
  - destruct (fn_entry path _ s Hd Hs) as [HP HE].
    destruct (fn path (Some (DirErr n e)) None s) as [[| |e'] s1] eqn:Hfn; cbn in *; [|done|].
    + destruct (fn_failed path n e s s1 Hd Hfn HP) as [HP' HE'].
      destruct (fn path (Some (DirErr n e)) (Some e) s1) as [[| |e'] s2]; cbn in *; [done..|].
      split; [done|]. intros e'' [= <-]. by apply HE'.
    + split; [done|]. intros e'' [= <-]. by apply HE.
Qed.

Lemma WalkDir_sees (s : S) :
  P s ->
  P (snd (WalkDir fn (inr root) s))
  /\ forall e, fst (WalkDir fn (inr root) s) = Some e -> E e.
Proof.
  intros Hs. unfold WalkDir.
  destruct (walkDir_sees root [] s (Visible_root root) Hs) as [HP HE].
  destruct (walkDir fn [] root s) as [[| |e] s']; cbn in *; [done..|].
  split; [done|]. intros e' [= <-]. by apply HE.
Qed.

End Sees.

Section WithLib.
Context (lib : GoLib) (Cfg : Config.t).

(** The loop over the identifiers of one manifest: what it adds, when
    it fails, and what it has done when it does not. *)
Lemma addRepos_outcome (relDir : string) (repos : list string)
    (expected : gmap string string) :
  (forall k v,
      snd (addRepos lib Cfg relDir repos expected) !! k = Some v ->
      expected !! k = Some v
      \/ (v ∈ repos /\ k = localPathOf lib relDir v /\ keeps lib Cfg k = true))
  /\ (forall e,
        fst (addRepos lib Cfg relDir repos expected) = WalkError e ->
        exists v, v ∈ repos /\ matchError lib Cfg (localPathOf lib relDir v) e)
  /\ (fst (addRepos lib Cfg relDir repos expected) = WalkNil ->
      dom expected ⊆ dom (snd (addRepos lib Cfg relDir repos expected))
      /\ forall v, v ∈ repos ->
           (forall e, ~ matchError lib Cfg (localPathOf lib relDir v) e)
           /\ (keeps lib Cfg (localPathOf lib relDir v) = true ->
               localPathOf lib relDir v ∈ dom (snd (addRepos lib Cfg relDir repos expected))))
  /\ fst (addRepos lib Cfg relDir repos expected) <> WalkSkipDir.
Proof.
  revert expected. induction repos as [|repo rest IH]; intros expected.
  { cbn. split; [by left|]. split; [done|]. split; [|done]. intros _. split; [done|].
    intros v Hv. by apply elem_of_nil in Hv. }
  cbn [addRepos]. fold (localPathOf lib relDir repo).
  set (k0 := localPathOf lib relDir repo).
  assert (keeps lib Cfg k0 = true ->
          (forall e, ~ matchError lib Cfg k0 e) ->
          let r := addRepos lib Cfg relDir rest (<[k0 := repo]> expected) in
          (forall k v, snd r !! k = Some v ->
             expected !! k = Some v
             \/ (v ∈ repo :: rest /\ k = localPathOf lib relDir v /\ keeps lib Cfg k = true))
          /\ (forall e, fst r = WalkError e ->
                exists v, v ∈ repo :: rest /\ matchError lib Cfg (localPathOf lib relDir v) e)
          /\ (fst r = WalkNil ->
              dom expected ⊆ dom (snd r)
              /\ forall v, v ∈ repo :: rest ->
                   (forall e, ~ matchError lib Cfg (localPathOf lib relDir v) e)
                   /\ (keeps lib Cfg (localPathOf lib relDir v) = true ->
                       localPathOf lib relDir v ∈ dom (snd r)))
          /\ fst r <> WalkSkipDir) as Hadd.
  { intros Hk Hok r. destruct (IH (<[k0 := repo]> expected)) as (H1 & H2 & H3 & H4).
    fold r in H1, H2, H3, H4. split; [|split; [|split; [|done]]].
    - intros k v Hkv. destruct (H1 k v Hkv) as [Hin|(Hv & -> & Hkeep)].
      + destruct (decide (k = k0)) as [->|Hne].
        * rewrite lookup_insert_eq in Hin. injection Hin as <-. right.
          split; [by left|done].
        * rewrite lookup_insert_ne in Hin by done. by left.
      + right. split; [by right|done].
    - intros e He. destruct (H2 e He) as (v & Hv & Hm). exists v. split; [by right|done].
    - intros Hnil. destruct (H3 Hnil) as [Hsub Hall].
      assert (k0 ∈ dom (snd r)) as Hk0.
      { apply Hsub. rewrite dom_insert. set_solver. }
      split.
      { etrans; [|apply Hsub]. rewrite dom_insert. set_solver. }
      intros v [->|Hv]%elem_of_cons; [|by apply Hall]. done. }
  assert (keeps lib Cfg k0 = false ->
          (forall e, ~ matchError lib Cfg k0 e) ->
          let r := addRepos lib Cfg relDir rest expected in
          (forall k v, snd r !! k = Some v ->
             expected !! k = Some v
             \/ (v ∈ repo :: rest /\ k = localPathOf lib relDir v /\ keeps lib Cfg k = true))
          /\ (forall e, fst r = WalkError e ->
                exists v, v ∈ repo :: rest /\ matchError lib Cfg (localPathOf lib relDir v) e)
          /\ (fst r = WalkNil ->
              dom expected ⊆ dom (snd r)
              /\ forall v, v ∈ repo :: rest ->
                   (forall e, ~ matchError lib Cfg (localPathOf lib relDir v) e)
                   /\ (keeps lib Cfg (localPathOf lib relDir v) = true ->
                       localPathOf lib relDir v ∈ dom (snd r)))
          /\ fst r <> WalkSkipDir) as Hdrop.
  { intros Hk Hok r. destruct (IH expected) as (H1 & H2 & H3 & H4).
    fold r in H1, H2, H3, H4. split; [|split; [|split; [|done]]].
    - intros k v Hkv. destruct (H1 k v Hkv) as [Hin|(Hv & -> & Hkeep)]; [by left|].
      right. split; [by right|done].
    - intros e He. destruct (H2 e He) as (v & Hv & Hm). exists v. split; [by right|done].
    - intros Hnil. destruct (H3 Hnil) as [Hsub Hall]. split; [done|].
      intros v [->|Hv]%elem_of_cons; [|by apply Hall]. fold k0. split; [done|].
      by rewrite Hk. }
  assert (forall matched, filepath_Match lib (Config.Paths Cfg) k0 = (matched, None) ->
          forall e, ~ matchError lib Cfg k0 e) as Hfine.
  { intros matched Hm e [_ He]. by rewrite Hm in He. }
  destruct (String.eqb_spec (Config.Paths Cfg) EmptyString) as [Hp|Hp]; cbn [negb].
  - apply Hadd; [|by intros e [Hne _]]. unfold keeps. by rewrite Hp.
  - apply String.eqb_neq in Hp as Hp'.
    destruct (filepath_Match lib (Config.Paths Cfg) k0) as [matched [e|]] eqn:Hm.
    + cbn [fst snd]. split; [by left|]. split.
      { intros e' [= <-]. exists repo. split; [by left|]. unfold matchError. fold k0.
        by rewrite Hm. }
      split; done.
    + destruct matched; cbn [negb].
      * apply Hadd; [|by apply (Hfine true)]. unfold keeps. rewrite Hm. apply orb_true_r.
      * apply Hdrop; [|by apply (Hfine false)]. unfold keeps. by rewrite Hm, Hp'.
Qed.

(** The lines of a manifest that scans without error are what
    [parseGitjoinFile] returns for it. *)
Lemma manifestLine_parsed (d : fsnode) (repos : list string) (v : string) :
  parseGitjoinFile lib d = (repos, None) ->
  manifestLine lib d v <-> v ∈ repos.
Proof.
  destruct d as [n [content|e]|n es|n e]; cbn [parseGitjoinFile]; try done.
  destruct (bufio_ScanLines lib content) as [lines err] eqn:Hscan. intros [= <- ->].
  rewrite keepLines_filter, list_elem_of_filter, list_elem_of_fmap. split.
  - intros (n' & content' & text & [= <- <-] & Htext & -> & Hl). rewrite Hscan in Htext.
    split; [done|]. by exists text.
  - intros [Hl (text & -> & Htext)]. exists n, content, text. rewrite Hscan. done.
Qed.

Lemma broken_parse (d : fsnode) (e : error) :
  FS.Name d = "gitjoin.txt" ->
  broken lib d e <-> snd (parseGitjoinFile lib d) = Some e.
Proof.
  destruct d as [n [content|e']|n es|n e']; cbn [FS.Name broken parseGitjoinFile snd];
    intros ->.
  - destruct (bufio_ScanLines lib content) as [lines err]. cbn [snd]. naive_solver.
  - naive_solver.
  - naive_solver.
  - naive_solver.
Qed.

Lemma broken_other (d : fsnode) (e : error) :
  FS.Name d <> "gitjoin.txt" -> broken lib d e -> d = DirErr (FS.Name d) e.
Proof.
  destruct d as [n [content|e']|n es|n e']; cbn [FS.Name broken]; intros Hn; try naive_solver.
Qed.

Lemma processed_grows (m m' : gmap string string) (path : list string) (g : fsnode) :
  dom m ⊆ dom m' -> processed lib Cfg m path g -> processed lib Cfg m' path g.
Proof.
  intros Hsub [Hb Hp]. split; [done|]. intros Hn v Hv.
  destruct (Hp Hn v Hv) as [Hok Hin]. split; [done|]. intros Hk. by apply Hsub, Hin.
Qed.

(** One call of the callback of [collectExpectedRepos] on an entry. *)
Lemma collectFn_entry (path : list string) (d : fsnode) (m : gmap string string) :
  let r := collectFn lib Cfg path (Some d) None m in
  (fst r = WalkSkipDir -> FS.IsDir d = true /\ FS.Name d = ".git" /\ snd r = m)
  /\ (fst r = WalkNil ->
      (FS.IsDir d = true -> FS.Name d <> ".git")
      /\ dom m ⊆ dom (snd r)
      /\ (forall e, broken lib d e ->
                    d = DirErr (FS.Name d) e /\ FS.Name d <> "gitjoin.txt")
      /\ (FS.Name d = "gitjoin.txt" ->
          forall v,
            manifestLine lib d v ->
            (forall e, ~ matchError lib Cfg (localPathOf lib (relDirOf lib path) v) e)
            /\ (keeps lib Cfg (localPathOf lib (relDirOf lib path) v) = true ->
                localPathOf lib (relDirOf lib path) v ∈ dom (snd r))))
  /\ (forall k v,
        snd r !! k = Some v ->
        m !! k = Some v
        \/ (FS.Name d = "gitjoin.txt" /\ manifestLine lib d v
            /\ k = localPathOf lib (relDirOf lib path) v /\ keeps lib Cfg k = true))
  /\ (forall e,
        fst r = WalkError e ->
        broken lib d e
        \/ (FS.Name d = "gitjoin.txt"
            /\ exists v, manifestLine lib d v
                         /\ matchError lib Cfg (localPathOf lib (relDirOf lib path) v) e)).
Proof.
  cbv zeta. unfold collectFn.
  destruct (FS.IsDir d && String.eqb (FS.Name d) ".git") eqn:Hskip.
  { apply andb_true_iff in Hskip as [Hdir Hgit%String.eqb_eq]. cbn [fst snd].
    split; [done|]. split; [done|]. split; [by left|done]. }
  assert (FS.IsDir d = true -> FS.Name d <> ".git") as Hvis.
  { intros Hdir Hgit. rewrite Hdir, Hgit in Hskip. done. }
  destruct (String.eqb_spec (FS.Name d) "gitjoin.txt") as [Hn|Hn]; cbn [negb fst snd].
  2:{ split; [done|]. split; [|split; [by left|done]].
      intros _. split; [done|]. split; [done|]. split; [|done].
      intros e He. split; [by apply broken_other|done]. }
  destruct (parseGitjoinFile lib d) as [repos [e|]] eqn:Hparse.
  { cbn [fst snd]. split; [done|]. split; [done|]. split; [by left|].
    intros e' [= <-]. left. apply broken_parse; [done|]. by rewrite Hparse. }
  destruct (addRepos_outcome (relDirOf lib path) repos m) as (H1 & H2 & H3 & H4).
  split; [done|]. split; [|split].
  - intros Hnil. destruct (H3 Hnil) as [Hsub Hall]. split; [done|]. split; [done|]. split.
    { intros e He%broken_parse; [|done]. by rewrite Hparse in He. }
    intros _ v Hv. apply Hall. by apply (manifestLine_parsed d repos v Hparse).
  - intros k v Hkv. destruct (H1 k v Hkv) as [Hin|(Hv & -> & Hk)]; [by left|right].
    split; [done|]. split; [by apply (manifestLine_parsed d repos v Hparse)|done].
  - intros e He. right. split; [done|]. destruct (H2 e He) as (v & Hv & Hm).
    exists v. split; [by apply (manifestLine_parsed d repos v Hparse)|done].
Qed.

(** The second call on a directory that cannot be listed returns the
    error of the listing. *)
Lemma collectFn_failed (path : list string) (d : fsnode) (e : error)
    (m : gmap string string) :
  collectFn lib Cfg path (Some d) (Some e) m = (WalkError e, m).
Proof. done. Qed.

Lemma walkEntries_collect (path : list string) (es : list fsnode) :
  Forall (fun d => forall p s ctl s',
            walkDir (collectFn lib Cfg) p d s = (ctl, s') ->
            ctl <> WalkSkipDir
            /\ (ctl = WalkNil ->
                dom s ⊆ dom s'
                /\ forall q g, Visible d q g -> processed lib Cfg s' (p ++ q) g)) es ->
  forall s ctl s',
    walkEntries (walkDir (collectFn lib Cfg)) path es s = (ctl, s') ->
    ctl <> WalkSkipDir
    /\ (ctl = WalkNil ->
        dom s ⊆ dom s'
        /\ forall e q g, e ∈ es -> Visible e q g ->
             processed lib Cfg s' (path ++ FS.Name e :: q) g).
Proof.
  induction 1 as [|d es Hd Hes IH]; intros s ctl s'.
  { cbn. intros [= <- <-]. split; [done|]. intros _. split; [done|].
    intros e q g He. by apply elem_of_nil in He. }
  cbn. destruct (walkDir (collectFn lib Cfg) (path ++ [FS.Name d]) d s) as [c1 s1] eqn:Hw.
  destruct (Hd _ _ _ _ Hw) as [Hskip Hnil].
  destruct c1 as [| |e1]; [|done|].
  - intros Hrest. destruct (IH _ _ _ Hrest) as [Hskip' Hnil']. split; [done|].
    intros ->. destruct (Hnil eq_refl) as [Hsub Hd1]. destruct (Hnil' eq_refl) as [Hsub' Hes'].
    split; [set_solver|]. intros e q g [->|He]%elem_of_cons Hv.
    + apply (processed_grows s1); [done|].
      rewrite (cons_middle _ path q), (assoc_L (++)). by apply Hd1.
    + by apply Hes'.
  - intros [= <- <-]. done.
Qed.

Lemma walkDir_collect (d : fsnode) :
  forall p s ctl s',
    walkDir (collectFn lib Cfg) p d s = (ctl, s') ->
    ctl <> WalkSkipDir
    /\ (ctl = WalkNil ->
        dom s ⊆ dom s'
        /\ forall q g, Visible d q g -> processed lib Cfg s' (p ++ q) g).
Proof.
  induction d as [n data|n es IH|n e] using fsnode_ind'; intros p s ctl s'.
  - cbn [walkDir].
    destruct (collectFn_entry p (File n data) s) as (Hs & Hn & _).
    destruct (collectFn lib Cfg p (Some (File n data)) None s) as [[| |e] s1];
      cbn [fst snd FS.IsDir] in *.
    + intros [= <- <-]. split; [done|]. intros _.
      destruct (Hn eq_refl) as (_ & Hsub & Hb & Hp). split; [done|].
      intros q g [[-> ->]|(n0 & es0 & e0 & q' & Hd & _)]%Visible_head; [|done].
      rewrite List.app_nil_r. split; [|done]. intros e He. by destruct (Hb e He).
    + by destruct (Hs eq_refl).
    + by intros [= <- <-].
  - cbn [walkDir].
    destruct (collectFn_entry p (Dir n es) s) as (Hs & Hn & _).
    destruct (collectFn lib Cfg p (Some (Dir n es)) None s) as [[| |e] s1];
      cbn [fst snd FS.IsDir FS.Name] in *.
    + destruct (Hn eq_refl) as (Hgit & Hsub & Hb & Hp).
      intros Hw. destruct (walkEntries_collect p es IH _ _ _ Hw) as [Hskip Hnil].
      split; [done|]. intros ->. destruct (Hnil eq_refl) as [Hsub' Hes].
      split; [set_solver|].
      intros q g [[-> ->]|(n0 & es0 & e0 & q' & [= <- <-] & Hn0 & He0 & -> & Hv)]%Visible_head.
      * rewrite List.app_nil_r. apply (processed_grows s1); [done|]. split; [|done].
        intros e He. by destruct (Hb e He).
      * by apply Hes.
    + destruct (Hs eq_refl) as (_ & -> & ->). intros [= <- <-]. split; [done|]. intros _.
      split; [done|].
      intros q g [[-> ->]|(n0 & es0 & e0 & q' & [= <- <-] & Hn0 & _)]%Visible_head; [|done].
      split; [|done]. intros e [He _]. done.
    + by intros [= <- <-].
  - cbn [walkDir].
    destruct (collectFn_entry p (DirErr n e) s) as (Hs & Hn & _).
    destruct (collectFn lib Cfg p (Some (DirErr n e)) None s) as [[| |e'] s1];
      cbn [fst snd FS.IsDir FS.Name] in *.
    + rewrite collectFn_failed. by intros [= <- <-].
    + destruct (Hs eq_refl) as (_ & -> & ->). intros [= <- <-]. split; [done|]. intros _.
      split; [done|].
      intros q g [[-> ->]|(n0 & es0 & e0 & q' & Hd & _)]%Visible_head; [|done].
      split; [|done]. intros e0 [[He _]|[He _]]; done.
    + by intros [= <- <-].
Qed.

(** C7.  The Expected Set against the manifests of the tree.  A local
    path is derived when a manifest outside every [.git] directory lists
    an identifier of which it is the base name, joined to the directory
    of the manifest.  Every key of the Expected Set is a derived local
    path that the filter lets through; when the collection ends without
    an error the keys are exactly these paths, and all derived paths for
    the empty filter.  The collection fails exactly when an entry cannot
    be read or matching a derived local path against the filter reports
    an error, and the error is one of these; a root that cannot be read
    is the error of the collection. *)
Theorem collect_filter (root : error + fsnode) :
  match root with
  | inl e => collectExpected lib Cfg root = (Some e, ∅)
  | inr t =>
      let err := fst (collectExpected lib Cfg root) in
      let expected := snd (collectExpected lib Cfg root) in
      (forall k v, expected !! k = Some v -> Derived lib t k v /\ keeps lib Cfg k = true)
      /\ (err = None ->
          forall k, k ∈ dom expected <-> (exists v, Derived lib t k v) /\ keeps lib Cfg k = true)
      /\ (err = None -> Config.Paths Cfg = EmptyString ->
          forall k v, Derived lib t k v -> k ∈ dom expected)
      /\ (forall k v e, Derived lib t k v -> matchError lib Cfg k e -> err <> None)
      /\ (forall e, unreadable lib t e -> err <> None)
      /\ (forall e,
            err = Some e ->
            unreadable lib t e \/ exists k v, Derived lib t k v /\ matchError lib Cfg k e)
  end.
Proof.
  destruct root as [e|t]; [done|]. cbv zeta. unfold collectExpected.
  set (P := fun m : gmap string string =>
              forall k v, m !! k = Some v -> Derived lib t k v /\ keeps lib Cfg k = true).
  set (E := fun e => unreadable lib t e
                     \/ exists k v, Derived lib t k v /\ matchError lib Cfg k e).
  destruct (WalkDir_sees (collectFn lib Cfg) t P E) with (s := (∅ : gmap string string))
    as [Hsound Horigin].
  { intros path d m Hd Hm. destruct (collectFn_entry path d m) as (_ & _ & Hadd & Herr).
    split.
    - intros k v Hkv. destruct (Hadd k v Hkv) as [Hin|(Hn & Hv & -> & Hk)]; [by apply Hm|].
      split; [|done]. by exists path, d.
    - intros e He. destruct (Herr e He) as [Hb|(Hn & v & Hv & Hmatch)].
      + left. by exists path, d.
      + right. exists (localPathOf lib (relDirOf lib path) v), v. split; [|done].
        by exists path, d. }
  { intros path n e m0 m Hd Hfn Hm. rewrite collectFn_failed. cbn [fst snd].
    split; [done|]. intros e' [= <-]. left. exists path, (DirErr n e). split; [done|].
    destruct (collectFn_entry path (DirErr n e) m0) as (_ & Hnil & _).
    rewrite Hfn in Hnil. destruct (Hnil eq_refl) as (Hgit & _ & Hb & _).
    cbn [broken FS.Name FS.IsDir] in *.
    destruct (decide (n = "gitjoin.txt")) as [->|Hn].
    - exfalso. by destruct (Hb "is a directory" (or_introl (conj eq_refl eq_refl))).
    - right. split; [by apply Hgit|done]. }
  { intros path es m. unfold collectFn. cbn. done. }
  { intros k v Hkv. by rewrite lookup_empty in Hkv. }
  assert (fst (WalkDir (collectFn lib Cfg) (inr t) ∅) = None ->
          forall q g, Visible t q g ->
                      processed lib Cfg (snd (WalkDir (collectFn lib Cfg) (inr t) ∅)) q g)
    as Hcomplete.
  { unfold WalkDir. destruct (walkDir (collectFn lib Cfg) [] t ∅) as [ctl m] eqn:Hw.
    destruct (walkDir_collect t _ _ _ _ Hw) as [Hskip Hnil].
    destruct ctl as [| |e]; [|done..]. intros _. by destruct (Hnil eq_refl) as [_ Hall]. }
  assert (forall k v, Derived lib t k v -> keeps lib Cfg k = true ->
                      fst (WalkDir (collectFn lib Cfg) (inr t) ∅) = None ->
                      k ∈ dom (snd (WalkDir (collectFn lib Cfg) (inr t) ∅))) as Hin.
  { intros k v (path & d & Hd & Hn & Hv & ->) Hk Herr.
    destruct (Hcomplete Herr path d Hd) as [_ Hp]. by apply (Hp Hn v Hv). }
  split; [done|]. split; [|split; [|split; [|split]]].
  - intros Herr k. split.
    + intros [v Hv]%elem_of_dom. destruct (Hsound k v Hv) as [Hd Hk]. split; [by exists v|done].
    + intros [[v Hv] Hk]. by apply (Hin k v).
  - intros Herr Hp k v Hv. apply (Hin k v); [done| |done]. unfold keeps. by rewrite Hp.
  - intros k v e (path & d & Hd & Hn & Hv & ->) Hm Herr.
    destruct (Hcomplete Herr path d Hd) as [_ Hp]. by destruct (Hp Hn v Hv) as [Hok _], (Hok e).
  - intros e (path & d & Hd & Hb) Herr.
    destruct (Hcomplete Herr path d Hd) as [Hok _]. by apply (Hok e).
  - done.
Qed.

End WithLib.
End FilterFacts.

Module FilterExamples.
Import FilterFacts.

Lemma collect_filter_witness :
  let cfg := Sim.cfg false "h*" in
  let expected := snd (collectExpected Sim.lib cfg (inr twoManifests)) in
  "hugo" ∈ dom expected
  /\ ("docs" ∉ dom expected)
  /\ ("tools/hugoreleaser" ∉ dom expected).
Proof.
  intros cfg expected.
  destruct (collect_filter Sim.lib cfg (inr twoManifests)) as (_ & Hiff & _).
  specialize (Hiff eq_refl). fold expected in Hiff.
  split; [|split].
  - apply Hiff. split; [|reflexivity]. exists "github.com/bep/hugo".
    exists ["gitjoin.txt"], hugoAndDocs. split.
    { apply (Visible_entry twoManifests [] "r" [hugoAndDocs; tools] hugoAndDocs);
        [constructor|done|by left]. }
    split; [reflexivity|]. split; [|reflexivity].
    exists "gitjoin.txt", ("github.com/bep/hugo" +:+ LF +:+ "github.com/bep/docs" +:+ LF),
      "github.com/bep/hugo".
    split; [reflexivity|]. split; [by left|]. split; [reflexivity|]. by split.
  - intros [_ Hk]%Hiff. discriminate Hk.
  - intros [_ Hk]%Hiff. discriminate Hk.
Defined.

End FilterExamples.

(** ** The properties above on the simulated environment *)

Module MoreExamples.
Import GitFacts ManifestFacts EffectFacts OutcomeFacts TreeWalkFacts FindFacts.

Lemma DefaultBranch_last_segment_witness :
  exists out init,
    fst (RunGit (Sim.host calm) (Repo.Path (repoA unforced))
           ["symbolic-ref"; "refs/remotes/origin/HEAD"] (world s0)) = inl out
    /\ strings_TrimSpace Sim.lib out = Join (init ++ ["main"]) "/"
    /\ Forall (noOcc "/") (init ++ ["main"]).
Proof.
  apply (DefaultBranch_last_segment Sim.lib (Sim.host calm) (repoA unforced) s0
           (snd (Repo.DefaultBranch Sim.lib (Sim.host calm) (repoA unforced) s0)) "main").
  reflexivity.
Defined.

Lemma Pull_commands_witness :
  let revParse := EvGit "/r/a" ["rev-parse"; "HEAD"] in
  Repo.Pull (Sim.host calm) (repoA unforced) s0
  = (Ok true,
     MkState (Sim.MkWorld withCheckout 3) [revParse; EvGit "/r/a" ["pull"]; revParse]
       Result.zero ∅)
  /\ Repo.Pull (Sim.host steady) (repoA unforced) s0
     = (Ok false,
        MkState (Sim.MkWorld withCheckout 3) [revParse; EvGit "/r/a" ["pull"]; revParse]
          Result.zero ∅)
  /\ Repo.Pull (Sim.host pullFails) (repoA unforced) s0
     = (Fail "git pull: exit status 1: fatal: failed",
        MkState (Sim.MkWorld withCheckout 2) [revParse; EvGit "/r/a" ["pull"]]
          Result.zero ∅).
Proof.
  intros revParse. split; [|split].
  - exact (Pull_commands (Sim.host calm) (repoA unforced) s0).
  - exact (Pull_commands (Sim.host steady) (repoA unforced) s0).
  - exact (Pull_commands (Sim.host pullFails) (repoA unforced) s0).
Defined.

Lemma ChangesSummary_ignores_failure_witness :
  let sc := script "main" modified
              (fun args => bool_decide (args = ["status"; "--porcelain"])) false in
  Repo.ChangesSummary (E:=error) Sim.lib (Sim.host sc) (repoA unforced) s0
  = (Ok "no changes",
     MkState (Sim.MkWorld withCheckout 1) [EvGit "/r/a" ["status"; "--porcelain"]]
       Result.zero ∅).
Proof.
  intros sc.
  apply (ChangesSummary_ignores_failure Sim.lib (Sim.host sc) (repoA unforced) s0
           "exit status 1" "fatal: failed" (Sim.MkWorld withCheckout 1)
           eq_refl eq_refl error).
Defined.

Lemma countChanges_bound_witness :
  0 <= 1 /\ 0 <= 1 /\ 0 <= 1
  /\ (1 + 1 + 1) - (0 + 0 + 0)
     <= length (filter (fun line => 2 <= len line)
                  [" M a.go"; "?? b.go"; "D  c.go"; "R  d.go"; "x"]).
Proof.
  apply (countChanges_bound [" M a.go"; "?? b.go"; "D  c.go"; "R  d.go"; "x"]
           0 0 0 1 1 1).
  reflexivity.
Defined.

Lemma repoPathToURL_without_slash_witness :
  let st := Sim.start (Dir "r" []) in
  Pool.repoPathToURL (fun _ => "true") "gitjoin" = EmptyString
  /\ Seq.repoPathToURL "gitjoin" = EmptyString
  /\ (StatNotExist (Sim.host calm) (fullPathOf Sim.lib unforced "gitjoin") (world st) = true ->
      trace (snd (Pool.processRepo Sim.lib unforced (Sim.host calm) false
                    "gitjoin" "gitjoin" st))
      = trace st ++ [EvClone EmptyString (fullPathOf Sim.lib unforced "gitjoin")]
      /\ trace (snd (Seq.syncRepo Sim.lib unforced (Sim.host calm) "gitjoin" "gitjoin" st))
         = trace st ++ [EvClone EmptyString (fullPathOf Sim.lib unforced "gitjoin")]).
Proof.
  apply (repoPathToURL_without_slash Sim.lib unforced (Sim.host calm) (fun _ => "true")
           "gitjoin" "gitjoin" (Sim.start (Dir "r" []))).
  reflexivity.
Defined.

Lemma unforced_task_is_plain_witness :
  Emits plain (Pool.processRepo Sim.lib unforced (Sim.host dirtyFeature) false
                 "a" "github.com/bep/a")
  /\ Emits plain (Seq.syncRepo Sim.lib unforced (Sim.host dirtyFeature)
                    "a" "github.com/bep/a").
Proof.
  apply (unforced_task_is_plain Sim.lib unforced (Sim.host dirtyFeature) false
           "a" "github.com/bep/a").
  reflexivity.
Defined.

Lemma listings_agree_witness :
  let st := Sim.start withOrphan in
  snd (Seq.syncRepo Sim.lib unforced (Sim.host calm) "a" "github.com/bep/a" st)
  = MkState (Sim.MkWorld withOrphan 6)
      (inspections ++ [EvGit "/r/a" ["rev-parse"; "HEAD"]; EvGit "/r/a" ["pull"];
                       EvGit "/r/a" ["rev-parse"; "HEAD"]])
      (Result.addUpdated (RepoResult.mk "a" "pulled") Result.zero)
      (existing (snd (Pool.processRepo Sim.lib unforced (Sim.host calm) false
                        "a" "github.com/bep/a" st))).
Proof.
  intros st.
  apply (proj1 (listings_agree Sim.lib unforced (Sim.host calm) st _ (fun _ => eq_refl))
           "a" "github.com/bep/a").
  reflexivity.
Defined.

Lemma collect_sound_witness :
  exists path d,
    Reach twoManifests path d
    /\ FS.Name d = "gitjoin.txt"
    /\ snd (parseGitjoinFile Sim.lib d) = None
    /\ "github.com/bep/hugoreleaser" ∈ fst (parseGitjoinFile Sim.lib d)
    /\ listed "github.com/bep/hugoreleaser"
    /\ "tools/hugoreleaser"
       = localPathOf Sim.lib (relDirOf Sim.lib path) "github.com/bep/hugoreleaser".
Proof.
  apply (collect_sound Sim.lib unforced twoManifests "tools/hugoreleaser"
           "github.com/bep/hugoreleaser").
  by vm_compute.
Defined.

Lemma last_listed_wins_witness :
  snd (addRepos Sim.lib unforced "." ["github.com/bep/x"; "github.com/gohugoio/x"] ∅)
    !! localPathOf Sim.lib "." "github.com/gohugoio/x"
  = Some "github.com/gohugoio/x".
Proof.
  apply (last_listed_wins Sim.lib unforced "." ["github.com/bep/x"] "github.com/gohugoio/x"
           [] ∅
           (snd (addRepos Sim.lib unforced "."
                   ["github.com/bep/x"; "github.com/gohugoio/x"] ∅))).
  - by vm_compute.
  - reflexivity.
  - constructor.
Defined.

Lemma findAllGit_sound_witness :
  "c" <> "."
  /\ exists path g,
      Reach withOrphan path g /\ FS.IsDir g = true /\ FS.Name g = ".git"
      /\ "c" = relDirOf Sim.lib path.
Proof.
  apply (findAllGit_sound Sim.lib withOrphan "c").
  apply (bool_decide_unpack _). by vm_compute.
Defined.

Lemma root_named_git_witness :
  let st := Sim.start (Dir ".git" [Dir "objects" []]) in
  collectExpected Sim.lib unforced (inr (Dir ".git" [Dir "objects" []])) = (None, ∅)
  /\ findAllGit Sim.lib (inr (Dir ".git" [Dir "objects" []])) = (None, [".."])
  /\ trace (snd (Seq.run Sim.lib unforced (Sim.host calm) st))
     = trace st ++ [EvRemoveAll (filepath_Join Sim.lib (Config.Root unforced) "..")].
Proof.
  apply (root_named_git Sim.lib unforced (Sim.host calm)
           (Sim.start (Dir ".git" [Dir "objects" []])) [Dir "objects" []]).
  reflexivity.
Defined.

Lemma findAllGit_complete_witness :
  relDirOf Sim.lib ["c"; ".git"] ∈ ["a"; "c"].
Proof.
  apply (findAllGit_complete Sim.lib withOrphan ["a"; "c"] ["c"; ".git"] (Dir ".git" [])).
  - reflexivity.
  - apply (Visible_entry withOrphan ["c"] "c" [Dir ".git" []] (Dir ".git" []));
      [|done|by left].
    apply (Visible_entry withOrphan [] "r"
             [Dir "a" [Dir ".git" []]; Dir "c" [Dir ".git" []]; manifest]
             (Dir "c" [Dir ".git" []])); [constructor|done|]. right. by left.
  - reflexivity.
  - reflexivity.
  - discriminate.
Defined.

End MoreExamples.

(** ** The summary of a clean checkout *)

Module SummaryFacts.
Import StringFacts SplitFacts SyncFacts GitFacts.

(** [fmt.Sprintf("%d", n)] starts with a digit. *)
Lemma Sprintf_d_head (n : nat) :
  exists c rest, Sprintf_d n = String c rest /\ digit c.
Proof.
  pose proof (Sprintf_d_nonempty n) as Hne. unfold Sprintf_d, digit in *.
  destruct (Nat.to_uint n); cbn [NilEmpty.string_of_uint] in *; [done|..];
    eexists _, _; (split; [reflexivity|]); rewrite !elem_of_cons; tauto.
Qed.

Lemma digit_not_n : ~ digit "n".
Proof. unfold digit. rewrite !elem_of_cons, elem_of_nil. intros H. naive_solver. Qed.

Section WithHost.
Context (lib : GoLib) {W : Type} (host : Host W).

(** A summary is "no changes" for an output that is empty once trimmed,
    and starts with a digit for any other. *)
Lemma changeSummary_head (out : string) :
  (strings_TrimSpace lib out = EmptyString /\ changeSummary lib out = "no changes")
  \/ (strings_TrimSpace lib out <> EmptyString
      /\ exists c rest, changeSummary lib out = String c rest /\ digit c).
Proof.
  unfold changeSummary.
  destruct (String.eqb_spec (strings_TrimSpace lib out) EmptyString) as [He|Hne];
    [by left|right].
  split; [done|]. set (lines := Split (strings_TrimSpace lib out) LF). unfold tally.
  destruct (0 <? countLines modifiedLine lines);
    destruct (0 <? countLines addedLine lines);
    destruct (0 <? countLines deletedLine lines); cbn [app Join].
  all: match goal with
       | |- context [Sprintf_d ?k] => destruct (Sprintf_d_head k) as (c & rest & -> & Hd)
       end.
  all: rewrite !app_cons; by eexists _, _.
Qed.

(** X23.  [ChangesSummary] answers "no changes" exactly when the
    trimmed output of [git status --porcelain] is empty, that is, exactly
    when [HasUncommittedChanges] reports a clean tree for this output;
    every other summary starts with a decimal digit. *)
Theorem ChangesSummary_no_changes (r : Repo.t) (st : State W) (out : string) (w' : W) :
  RunGit host (Repo.Path r) ["status"; "--porcelain"] (world st) = (inl out, w') ->
  (forall E,
      fst (Repo.ChangesSummary (E:=E) lib host r st) = Ok "no changes"
      <-> strings_TrimSpace lib out = EmptyString)
  /\ (fst (Repo.HasUncommittedChanges lib host r st) = Ok false
      <-> strings_TrimSpace lib out = EmptyString)
  /\ (forall E,
        exists summary,
          fst (Repo.ChangesSummary (E:=E) lib host r st) = Ok summary
          /\ (summary = "no changes"
              \/ (strings_TrimSpace lib out <> EmptyString
                  /\ exists c rest, summary = String c rest /\ digit c))).
Proof.
  intros Hrun.
  assert (forall E, fst (Repo.ChangesSummary (E:=E) lib host r st)
                    = Ok (changeSummary lib out)) as Hsum.
  { intros E. by rewrite (ChangesSummary_changeSummary lib host r st (inl out) w' Hrun). }
  split; [|split].
  - intros E. rewrite Hsum.
    destruct (changeSummary_head out) as [[He ->]|(Hne & c & rest & -> & Hd)]; [done|].
    split; [|done]. intros [= -> _]. by destruct digit_not_n.
  - unfold Repo.HasUncommittedChanges, Repo.run. mstep. rewrite Hrun. mstep.
    destruct (String.eqb_spec (strings_TrimSpace lib out) EmptyString) as [He|Hne];
      cbn [negb fst]; split; done.
  - intros E. exists (changeSummary lib out). split; [done|].
    destruct (changeSummary_head out) as [[He ->]|(Hne & c & rest & -> & Hd)]; [by left|].
    right. split; [done|]. by exists c, rest.
Qed.

End WithHost.
End SummaryFacts.

Module SummaryExamples.
Import SummaryFacts.

Lemma ChangesSummary_no_changes_witness :
  let dirty := script "main" modified never false in
  (fst (Repo.ChangesSummary (E:=error) Sim.lib (Sim.host dirty) (repoA unforced) s0)
   = Ok "no changes"
   <-> strings_TrimSpace Sim.lib modified = EmptyString)
  /\ (fst (Repo.HasUncommittedChanges Sim.lib (Sim.host dirty) (repoA unforced) s0)
      = Ok false
      <-> strings_TrimSpace Sim.lib modified = EmptyString)
  /\ exists summary,
      fst (Repo.ChangesSummary (E:=error) Sim.lib (Sim.host dirty) (repoA unforced) s0)
      = Ok summary
      /\ (summary = "no changes"
          \/ (strings_TrimSpace Sim.lib modified <> EmptyString
              /\ exists c rest, summary = String c rest /\ digit c)).
Proof.
  intros dirty.
  destruct (ChangesSummary_no_changes Sim.lib (Sim.host dirty) (repoA unforced) s0 modified
              (Sim.MkWorld withCheckout 1) eq_refl) as (H1 & H2 & H3).
  split; [exact (H1 error)|]. split; [exact H2|exact (H3 error)].
Defined.

Example summary_of_modified :
  fst (Repo.ChangesSummary (E:=error) Sim.lib
         (Sim.host (script "main" modified never false)) (repoA unforced) s0)
  = Ok "1 modified".
Proof. reflexivity. Qed.

End SummaryExamples.
